(** * lambdasoc: the write-back cache of [lambdasoc/periph/sdram.py]

    A cycle-accurate shallow embedding of [LiteDRAMNativePort] and
    [WritebackCache]: the constructors' validation, the address
    decomposition and burst successor, the tag and data memories with
    their synchronous ports, and the CHECK / EVICT / REFILL state machine.

    Signals are integers ([Z]) truncated to their width, one-bit signals
    are [bool], memories are finite maps from the line address to the
    stored word (every cell is zero after power-up). *)

From Stdlib Require Import ZArith Lia Bool List.
From stdpp Require Import base option gmap.
Import ListNotations.
Open Scope Z_scope.

(** * Part I: the model *)

(** ** Bit vectors *)

(** The low [w] bits of [x]: what a [w]-bit signal keeps of a wider value. *)
Definition trunc (w x : Z) : Z := Z.land x (Z.ones w).

(** [x[lo : lo + w]]. *)
Definition slice (x lo w : Z) : Z := trunc w (Z.shiftr x lo).

(** [Cat(lo, hi)] where [lo] is [w] bits wide. *)
Definition Cat (w lo hi : Z) : Z := Z.lor lo (Z.shiftl hi w).

(** [Repl(x, n)] for a [w]-bit [x]. *)
Fixpoint Repl (w x : Z) (n : nat) : Z :=
  match n with
  | O => 0
  | S n' => Cat w (trunc w x) (Repl w x n')
  end.

(** [x.word_select(i, w)]. *)
Definition word_select (x i w : Z) : Z := slice x (i * w) w.

(** ** Wishbone burst and cycle types ([nmigen_soc.wishbone]) *)

(** [wishbone.BurstTypeExt], the four values of the two-bit [bte] signal. *)
Inductive BurstTypeExt := LINEAR | WRAP_4 | WRAP_8 | WRAP_16.

(** [wishbone.CycleType], the named values of the three-bit [cti] signal. *)
Definition CLASSIC : Z := 0.
Definition CONST_BURST : Z := 1.
Definition INCR_BURST : Z := 2.
Definition END_OF_BURST : Z := 7.

(** ** Construction (sdram.py:13-73) *)

(** The Python values a constructor argument can be: an [int], [None],
    or an object that is neither. *)
Inductive pyval := PyInt (z : Z) | PyNone | PyObject.

(** The exceptions of the two constructors, one per [raise], those of
    the two library calls made by [WritebackCache.__init__], and the one
    of the [Record] built at the head of [elaborate]. *)
Inductive error :=
  | AddrWidthError      (* ValueError, sdram.py:16 *)
  | PortDataWidthError  (* ValueError, sdram.py:19 *)
  | DramPortTypeError   (* TypeError,  sdram.py:50 *)
  | SizeError           (* ValueError, sdram.py:53 *)
  | DataWidthError      (* ValueError, sdram.py:56 *)
  | MultipleError       (* ValueError, sdram.py:59 *)
  | Log2Error           (* ValueError of nmigen.utils.log2_int *)
  | InterfaceError      (* ValueError of nmigen_soc.wishbone.Interface *)
  | RecordShapeError.   (* TypeError of Record(), sdram.py:81-85 *)

Inductive result (A : Type) := Ok (a : A) | Raise (e : error).
Arguments Ok {A} a.
Arguments Raise {A} e.

Definition bind {A B : Type} (r : result A) (k : A -> result B) : result B :=
  match r with
  | Ok a => k a
  | Raise e => Raise e
  end.

Notation "'do' x <- r ; k" := (bind r (fun x => k))
  (at level 10, x name, r at level 100, k at level 200).

Definition raised {A : Type} (r : result A) : bool :=
  match r with
  | Ok _ => false
  | Raise _ => true
  end.

(** [not isinstance(x, int) or x <= 0]. *)
Definition not_positive_int (x : pyval) : bool :=
  match x with
  | PyInt z => z <=? 0
  | _ => true
  end.

(** [not isinstance(x, int) or x <= 0 or x & x - 1]. *)
Definition not_positive_pow2_int (x : pyval) : bool :=
  match x with
  | PyInt z => (z <=? 0) || negb (Z.land z (z - 1) =? 0)
  | _ => true
  end.

(** The integer behind a value already checked to be an [int]. *)
Definition int_of (x : pyval) : Z :=
  match x with
  | PyInt z => z
  | _ => 0
  end.

Record LiteDRAMNativePort := {
  port_addr_width : Z;
  port_data_width : Z
}.

(** [LiteDRAMNativePort.__init__] (sdram.py:14-44). *)
Definition LiteDRAMNativePort_init (addr_width data_width : pyval)
  : result LiteDRAMNativePort :=
  if not_positive_int addr_width then Raise AddrWidthError
  else if not_positive_pow2_int data_width then Raise PortDataWidthError
  else Ok {| port_addr_width := int_of addr_width;
             port_data_width := int_of data_width |}.

(** [int.bit_length]. *)
Definition bit_length (n : Z) : Z :=
  if n =? 0 then 0 else Z.log2 (Z.abs n) + 1.

(** [nmigen.utils.log2_int(n)] with its default [need_pow2=True]: zero
    for zero, otherwise the bit length of [n - 1], refused when [n] is not
    that power of two. *)
Definition log2_int (n : Z) : result Z :=
  if n =? 0 then Ok 0
  else
    let r := bit_length (n - 1) in
    if Z.shiftl 1 r =? n then Ok r else Raise Log2Error.

Record Interface := {
  bus_addr_width : Z;
  bus_data_width : Z;
  bus_granularity : Z
}.

Definition in_8_16_32_64 (z : Z) : bool :=
  (z =? 8) || (z =? 16) || (z =? 32) || (z =? 64).

(** [nmigen_soc.wishbone.Interface.__init__], the library constructor
    called at sdram.py:64: the address width is a non-negative integer,
    the data width is one of 8, 16, 32, 64, the granularity is [None]
    (then it is the data width) or one of 8, 16, 32, 64 and not greater
    than the data width. *)
Definition wishbone_Interface (addr_width data_width : Z) (granularity : pyval)
  : result Interface :=
  if addr_width <? 0 then Raise InterfaceError
  else if negb (in_8_16_32_64 data_width) then Raise InterfaceError
  else
    match granularity with
    | PyNone =>
        Ok {| bus_addr_width := addr_width; bus_data_width := data_width;
              bus_granularity := data_width |}
    | PyInt gr =>
        if negb (in_8_16_32_64 gr) then Raise InterfaceError
        else if data_width <? gr then Raise InterfaceError
        else Ok {| bus_addr_width := addr_width; bus_data_width := data_width;
                   bus_granularity := gr |}
    | PyObject => Raise InterfaceError
    end.

(** The [dram_port] argument: a [LiteDRAMNativePort] or anything else. *)
Inductive port_arg := PortObject (p : LiteDRAMNativePort) | NotAPort.

Record WritebackCache := {
  cache_size : Z;
  dram_port : LiteDRAMNativePort;
  intr_bus : Interface
}.

(** [WritebackCache.__init__] (sdram.py:48-73). *)
Definition WritebackCache_init (port : port_arg) (size data_width granularity : pyval)
  : result WritebackCache :=
  match port with
  | NotAPort => Raise DramPortTypeError
  | PortObject p =>
      if not_positive_pow2_int size then Raise SizeError
      else if not_positive_pow2_int data_width then Raise DataWidthError
      else if negb (port_data_width p mod int_of data_width =? 0) then Raise MultipleError
      else
        do l <- log2_int (port_data_width p / int_of data_width);
        do bus <- wishbone_Interface (port_addr_width p + l) (int_of data_width) granularity;
        Ok {| cache_size := int_of size; dram_port := p; intr_bus := bus |}
  end.

(** A configuration: the arguments of the two constructors. *)
Record configuration := {
  cfg_addr_width : pyval;
  cfg_port_data_width : pyval;
  cfg_size : pyval;
  cfg_data_width : pyval;
  cfg_granularity : pyval
}.

(** Building the port and then the cache on it, as
    [WritebackCache(LiteDRAMNativePort(addr_width, data_width), size=...,
    data_width=..., granularity=...)]. *)
Definition construct (c : configuration) : result WritebackCache :=
  do p <- LiteDRAMNativePort_init (cfg_addr_width c) (cfg_port_data_width c);
  WritebackCache_init (PortObject p) (cfg_size c) (cfg_data_width c) (cfg_granularity c).

(** ** Address decomposition (sdram.py:78-101)

    [intr_adr] is a record of three fields laid over the front-end
    address, lowest field first: offset, line, tag. The geometry also
    carries the widths the data path uses and the depth of the two
    memories. *)

Record geometry := {
  offset_bits : Z;
  line_bits : Z;
  tag_bits : Z;
  data_width : Z;        (* intr_bus.data_width *)
  granularity : Z;       (* intr_bus.granularity *)
  port_width : Z;        (* dram_port.data_width *)
  depth : Z              (* nb_lines, the depth of tag_mem and dat_mem *)
}.

Definition ratio (c : WritebackCache) : Z :=
  port_data_width (dram_port c) / bus_data_width (intr_bus c).

Definition nb_lines (c : WritebackCache) : Z :=
  (cache_size c * bus_granularity (intr_bus c)) / port_data_width (dram_port c).

(** The widths computed at the head of [elaborate] (sdram.py:78-85);
    [len(self.intr_bus.adr)] is the address width of the interface.
    [Record] refuses a field of negative width with a [TypeError], which
    the tag field has when the line field is wider than the backend
    address. [Memory] accepts any depth that is not negative, zero
    included (sdram.py:109, 119). *)
Definition elaborate_geometry (c : WritebackCache) : result geometry :=
  do o <- log2_int (ratio c);
  do l <- log2_int (nb_lines c);
  let t := bus_addr_width (intr_bus c) - l - o in
  if t <? 0 then Raise RecordShapeError
  else
    Ok {| offset_bits := o;
          line_bits := l;
          tag_bits := t;
          data_width := bus_data_width (intr_bus c);
          granularity := bus_granularity (intr_bus c);
          port_width := port_data_width (dram_port c);
          depth := nb_lines c |}.

Definition adr_len (g : geometry) : Z := offset_bits g + line_bits g + tag_bits g.

Definition adr_offset (g : geometry) (a : Z) : Z := slice a 0 (offset_bits g).
Definition adr_line (g : geometry) (a : Z) : Z := slice a (offset_bits g) (line_bits g).
Definition adr_tag (g : geometry) (a : Z) : Z :=
  slice a (offset_bits g + line_bits g) (tag_bits g).

(** The number of low bits a burst type increments; [None] for the full
    address. *)
Definition wrap_bits (b : BurstTypeExt) : option Z :=
  match b with
  | LINEAR => None
  | WRAP_4 => Some 2
  | WRAP_8 => Some 3
  | WRAP_16 => Some 4
  end.

(** [intr_adr_next] (sdram.py:88-101) on a [len]-bit address. A Python
    slice [v[:k]] of a [len]-bit value stops at [min k len]. *)
Definition intr_adr_next_at (len : Z) (b : BurstTypeExt) (a : Z) : Z :=
  match wrap_bits b with
  | None => trunc len (a + 1)
  | Some k =>
      let k' := Z.min k len in
      Cat k' (trunc k' (slice a 0 k' + 1)) (slice a k' (len - k'))
  end.

Definition intr_adr_next (g : geometry) (b : BurstTypeExt) (a : Z) : Z :=
  intr_adr_next_at (adr_len g) b a.

(** The successor as the specification words it: the whole address plus
    one under LINEAR, and under WRAP_4/8/16 the low 2/3/4 bits plus one
    inside their window with the bits above unchanged. *)
Definition next_address_spec (len : Z) (b : BurstTypeExt) (a : Z) : Z :=
  match wrap_bits b with
  | None => (a + 1) mod 2 ^ len
  | Some k => 2 ^ k * (a / 2 ^ k) + (a mod 2 ^ k + 1) mod 2 ^ k
  end.

(** The burst window lies inside the address. *)
Definition window_fits (len : Z) (b : BurstTypeExt) : Prop :=
  match wrap_bits b with
  | None => 0 <= len
  | Some k => k <= len
  end.

(** ** Tag and data memories (sdram.py:103-122)

    A word of the tag memory is the record [{tag, dirty}]. Both memories
    have [nb_lines] cells, addressed by the [line_bits]-wide line field.
    A memory is the map of its cells that were written: a cell never
    written reads as zero, and a write to an address that is not below
    the depth has no cell to land in and is dropped, so that such an
    address reads as zero in every state reached from reset. On a cache
    that was built the depth is [2 ^ line_bits] or zero; with depth zero
    the memories have no cell at all. *)

Record tag_word := {
  tag : Z;
  dirty : bool
}.

Definition tag_word_reset : tag_word := {| tag := 0; dirty := false |}.

Definition tag_mem_read (m : gmap Z tag_word) (a : Z) : tag_word :=
  default tag_word_reset (m !! a).

Definition dat_mem_read (m : gmap Z Z) (a : Z) : Z :=
  default 0 (m !! a).

(** A write port with byte-lane enables: lane [j] of the stored word is
    replaced by lane [j] of [new] when bit [j] of [en] is set. *)
Fixpoint write_lanes (gran : Z) (lanes : nat) (en old new : Z) : Z :=
  match lanes with
  | O => 0
  | S n =>
      Cat gran
        (trunc gran (if Z.testbit en 0 then new else old))
        (write_lanes gran n (Z.shiftr en 1) (Z.shiftr old gran) (Z.shiftr new gran))
  end.

(** ** The controller (sdram.py:124-232) *)

Inductive fsm_state := CHECK | EVICT | REFILL.

Definition fsm_state_eq_dec (a b : fsm_state) : {a = b} + {a <> b}.
Proof. decide equality. Defined.

(** Registers, memories and the registered outputs of the two
    non-transparent read ports. *)
Record state := {
  fsm : fsm_state;
  intr_bus_r_cyc : bool;
  intr_bus_r_stb : bool;
  intr_bus_r_adr : Z;
  evict_done_cmd : bool;
  evict_done_w : bool;
  refill_done_cmd : bool;
  refill_done_r : bool;
  tag_mem : gmap Z tag_word;
  dat_mem : gmap Z Z;
  tag_rp_data : tag_word;
  dat_rp_data : Z
}.

(** What the environment drives in one tick: the front-end request and
    the backend's side of the three handshake channels. *)
Record inputs := {
  cyc : bool;
  stb : bool;
  adr : Z;
  we : bool;
  sel : Z;
  dat_w : Z;
  cti : Z;
  bte : BurstTypeExt;
  cmd_ready : bool;
  w_ready : bool;
  r_valid : bool;
  r_data : Z
}.

(** The combinational signals of one tick. *)
Record signals := {
  ack : bool;
  dat_r : Z;
  tag_rp_addr : Z;
  tag_rp_en : bool;
  dat_rp_addr : Z;
  dat_rp_en : bool;
  tag_wp_addr : Z;
  tag_wp_en : bool;
  tag_wp_data : tag_word;
  dat_wp_addr : Z;
  dat_wp_en : Z;
  dat_wp_data : Z;
  cmd_valid : bool;
  cmd_last : bool;
  cmd_addr : Z;
  cmd_we : bool;
  w_valid : bool;
  w_we : Z;
  w_data : Z;
  r_ready : bool
}.

Definition reset : state := {|
  fsm := CHECK;
  intr_bus_r_cyc := false;
  intr_bus_r_stb := false;
  intr_bus_r_adr := 0;
  evict_done_cmd := false;
  evict_done_w := false;
  refill_done_cmd := false;
  refill_done_r := false;
  tag_mem := ∅;
  dat_mem := ∅;
  tag_rp_data := tag_word_reset;
  dat_rp_data := 0
|}.

Section Controller.

Variable g : geometry.

(** [len(intr_bus.sel)], [len(dat_wp.en)] and the [ratio] of [elaborate]. *)
Definition sel_len : Z := data_width g / granularity g.
Definition en_len : Z := port_width g / granularity g.
Definition words_per_line : Z := port_width g / data_width g.

(** The live front-end address, as wide as [intr_bus.adr]. *)
Definition intr_adr (i : inputs) : Z := trunc (adr_len g) (adr i).

(** [intr_bus.cyc & intr_bus.stb] and [intr_bus_r.cyc & intr_bus_r.stb]. *)
Definition request (i : inputs) : bool := cyc i && stb i.
Definition registered (s : state) : bool := intr_bus_r_cyc s && intr_bus_r_stb s.

(** [intr_adr.tag == tag_rp_data.tag]. *)
Definition tag_match (s : state) (i : inputs) : bool :=
  adr_tag g (intr_adr i) =? tag (tag_rp_data s).

(** The miss branch of CHECK (sdram.py:173). *)
Definition miss (s : state) (i : inputs) : bool :=
  request i && negb (tag_match s i) && registered s.

Definition comb_check (s : state) (i : inputs) : signals :=
  let a := intr_adr i in
  let ack_ := request i && tag_match s i && registered s in
  let lookahead := ack_ && (trunc 3 (cti i) =? INCR_BURST) in
  let rd_line :=
    if request i
    then (if lookahead then adr_line g (intr_adr_next g (bte i) a) else adr_line g a)
    else 0 in
  let rd_en :=
    request i && (negb (intr_bus_r_cyc s) || negb (intr_bus_r_stb s) || ack_) in
  let wr := we i && ack_ in
  {| ack := ack_;
     dat_r := word_select (dat_rp_data s) (adr_offset g a) (data_width g);
     tag_rp_addr := rd_line;
     tag_rp_en := rd_en;
     dat_rp_addr := rd_line;
     dat_rp_en := rd_en;
     tag_wp_addr := adr_line g a;
     tag_wp_en := wr;
     tag_wp_data := {| tag := adr_tag g a; dirty := true |};
     dat_wp_addr := adr_line g a;
     dat_wp_en :=
       if wr
       then trunc en_len (Z.shiftl (trunc sel_len (sel i)) (adr_offset g a * sel_len))
       else 0;
     dat_wp_data :=
       trunc (port_width g) (Repl (data_width g) (dat_w i) (Z.to_nat words_per_line));
     cmd_valid := false;
     cmd_last := false;
     cmd_addr := 0;
     cmd_we := false;
     w_valid := false;
     w_we := 0;
     w_data := 0;
     r_ready := false |}.

Definition comb_evict (s : state) (i : inputs) : signals :=
  {| ack := false;
     dat_r := 0;
     tag_rp_addr := 0;
     tag_rp_en := false;
     dat_rp_addr := 0;
     dat_rp_en := false;
     tag_wp_addr := 0;
     tag_wp_en := false;
     tag_wp_data := tag_word_reset;
     dat_wp_addr := 0;
     dat_wp_en := 0;
     dat_wp_data := 0;
     cmd_valid := negb (evict_done_cmd s);
     cmd_last := false;
     cmd_addr :=
       Cat (line_bits g) (adr_line g (intr_bus_r_adr s)) (tag (tag_rp_data s));
     cmd_we := true;
     w_valid := negb (evict_done_w s);
     w_we := Z.ones (port_width g / 8);
     w_data := dat_rp_data s;
     r_ready := false |}.

Definition comb_refill (s : state) (i : inputs) : signals :=
  let r_ready_ := negb (refill_done_r s) in
  let fire := r_valid i && r_ready_ in
  {| ack := false;
     dat_r := 0;
     tag_rp_addr := 0;
     tag_rp_en := false;
     dat_rp_addr := 0;
     dat_rp_en := false;
     tag_wp_addr := adr_line g (intr_bus_r_adr s);
     tag_wp_en := fire;
     tag_wp_data := {| tag := adr_tag g (intr_bus_r_adr s); dirty := false |};
     dat_wp_addr := adr_line g (intr_bus_r_adr s);
     dat_wp_en := if fire then Z.ones en_len else 0;
     dat_wp_data := trunc (port_width g) (r_data i);
     cmd_valid := negb (refill_done_cmd s);
     cmd_last := true;
     cmd_addr :=
       Cat (line_bits g) (adr_line g (intr_bus_r_adr s)) (adr_tag g (intr_bus_r_adr s));
     cmd_we := false;
     w_valid := false;
     w_we := 0;
     w_data := 0;
     r_ready := r_ready_ |}.

(** The combinational signals of the tick, by FSM state: a signal not
    driven in the current state has its reset value, zero. *)
Definition comb (s : state) (i : inputs) : signals :=
  match fsm s with
  | CHECK => comb_check s i
  | EVICT => comb_evict s i
  | REFILL => comb_refill s i
  end.

(** The address names a cell of a memory of [depth g] cells. *)
Definition in_depth (a : Z) : bool := (0 <=? a) && (a <? depth g).

(** The memories and read ports at the clock edge. A write lands when
    its address names a cell. A read port samples the memory as it was
    before the edge. *)
Definition tag_mem_next (s : state) (c : signals) : gmap Z tag_word :=
  if tag_wp_en c && in_depth (tag_wp_addr c)
  then <[tag_wp_addr c := tag_wp_data c]> (tag_mem s)
  else tag_mem s.

Definition dat_mem_next (s : state) (c : signals) : gmap Z Z :=
  if (dat_wp_en c =? 0) || negb (in_depth (dat_wp_addr c)) then dat_mem s
  else
    <[dat_wp_addr c :=
        write_lanes (granularity g) (Z.to_nat en_len) (dat_wp_en c)
          (dat_mem_read (dat_mem s) (dat_wp_addr c)) (dat_wp_data c)]> (dat_mem s).

Definition tag_rp_next (s : state) (c : signals) : tag_word :=
  if tag_rp_en c then tag_mem_read (tag_mem s) (tag_rp_addr c) else tag_rp_data s.

Definition dat_rp_next (s : state) (c : signals) : Z :=
  if dat_rp_en c then dat_mem_read (dat_mem s) (dat_rp_addr c) else dat_rp_data s.

(** One clock tick. Where two synchronous assignments to a register are
    both active, the one written later in the source wins. *)
Definition step (s : state) (i : inputs) : state :=
  let c := comb s i in
  match fsm s with
  | CHECK =>
      let m := miss s i in
      {| fsm := if m then (if dirty (tag_rp_data s) then EVICT else REFILL) else CHECK;
         intr_bus_r_cyc := if m then false else cyc i;
         intr_bus_r_stb := if m then false else stb i;
         intr_bus_r_adr := intr_adr i;
         evict_done_cmd := evict_done_cmd s;
         evict_done_w := evict_done_w s;
         refill_done_cmd := refill_done_cmd s;
         refill_done_r := refill_done_r s;
         tag_mem := tag_mem_next s c;
         dat_mem := dat_mem_next s c;
         tag_rp_data := tag_rp_next s c;
         dat_rp_data := dat_rp_next s c |}
  | EVICT =>
      let all := evict_done_cmd s && evict_done_w s in
      {| fsm := if all then REFILL else EVICT;
         intr_bus_r_cyc := intr_bus_r_cyc s;
         intr_bus_r_stb := intr_bus_r_stb s;
         intr_bus_r_adr := intr_bus_r_adr s;
         evict_done_cmd :=
           if cmd_valid c && cmd_ready i then true
           else if all then false else evict_done_cmd s;
         evict_done_w :=
           if w_valid c && w_ready i then true
           else if all then false else evict_done_w s;
         refill_done_cmd := refill_done_cmd s;
         refill_done_r := refill_done_r s;
         tag_mem := tag_mem_next s c;
         dat_mem := dat_mem_next s c;
         tag_rp_data := tag_rp_next s c;
         dat_rp_data := dat_rp_next s c |}
  | REFILL =>
      let all := refill_done_cmd s && refill_done_r s in
      {| fsm := if all then CHECK else REFILL;
         intr_bus_r_cyc := intr_bus_r_cyc s;
         intr_bus_r_stb := intr_bus_r_stb s;
         intr_bus_r_adr := intr_bus_r_adr s;
         evict_done_cmd := evict_done_cmd s;
         evict_done_w := evict_done_w s;
         refill_done_cmd :=
           if cmd_valid c && cmd_ready i then true
           else if all then false else refill_done_cmd s;
         refill_done_r :=
           if r_valid i && r_ready c then true
           else if all then false else refill_done_r s;
         tag_mem := tag_mem_next s c;
         dat_mem := dat_mem_next s c;
         tag_rp_data := tag_rp_next s c;
         dat_rp_data := dat_rp_next s c |}
  end.

(** The state after a sequence of ticks. *)
Fixpoint run (s : state) (l : list inputs) : state :=
  match l with
  | [] => s
  | i :: l' => run (step s i) l'
  end.

(** The ticks of a run: each state paired with the inputs it sees. *)
Fixpoint ticks (s : state) (l : list inputs) : list (state * inputs) :=
  match l with
  | [] => []
  | i :: l' => (s, i) :: ticks (step s i) l'
  end.

(** The states the controller can be in after power-up. *)
Inductive reachable : state -> Prop :=
  | reachable_reset : reachable reset
  | reachable_step s i : reachable s -> reachable (step s i).

(** Handshakes completed in a tick. *)
Definition cmd_fire (t : state * inputs) : bool :=
  cmd_valid (comb (fst t) (snd t)) && cmd_ready (snd t).
Definition w_fire (t : state * inputs) : bool :=
  w_valid (comb (fst t) (snd t)) && w_ready (snd t).
Definition r_fire (t : state * inputs) : bool :=
  r_valid (snd t) && r_ready (comb (fst t) (snd t)).

(** Number of ticks of a run in which a handshake completes. *)
Fixpoint count (f : state * inputs -> bool) (l : list (state * inputs)) : nat :=
  match l with
  | [] => O
  | t :: l' => ((if f t then 1 else 0) + count f l')%nat
  end.

End Controller.

(** The geometry of the repository's test bench
    ([LiteDRAMNativePort(addr_width=23, data_width=32)],
    [WritebackCache(size=8, data_width=16, granularity=8)]):
    two words per line, two lines, 22 tag bits. *)
Definition test_configuration : configuration := {|
  cfg_addr_width := PyInt 23;
  cfg_port_data_width := PyInt 32;
  cfg_size := PyInt 8;
  cfg_data_width := PyInt 16;
  cfg_granularity := PyInt 8
|}.

Definition test_geometry : geometry := {|
  offset_bits := 1;
  line_bits := 1;
  tag_bits := 22;
  data_width := 16;
  granularity := 8;
  port_width := 32;
  depth := 2
|}.

(** An idle tick, and a front-end request that is otherwise idle. *)
Definition idle : inputs := {|
  cyc := false; stb := false; adr := 0; we := false; sel := 0; dat_w := 0;
  cti := CLASSIC; bte := LINEAR;
  cmd_ready := false; w_ready := false; r_valid := false; r_data := 0
|}.

Definition read_req (a c : Z) (b : BurstTypeExt) : inputs := {|
  cyc := true; stb := true; adr := a; we := false; sel := 3; dat_w := 0;
  cti := c; bte := b;
  cmd_ready := false; w_ready := false; r_valid := false; r_data := 0
|}.

Definition write_req (a d : Z) : inputs := {|
  cyc := true; stb := true; adr := a; we := true; sel := 3; dat_w := d;
  cti := CLASSIC; bte := LINEAR;
  cmd_ready := false; w_ready := false; r_valid := false; r_data := 0
|}.

(** The same tick with the backend's handshake inputs replaced. *)
Definition with_backend (i : inputs) (cr wr rv : bool) (rd : Z) : inputs := {|
  cyc := cyc i; stb := stb i; adr := adr i; we := we i; sel := sel i;
  dat_w := dat_w i; cti := cti i; bte := bte i;
  cmd_ready := cr; w_ready := wr; r_valid := rv; r_data := rd
|}.

(** ** The configuration errors as the specification lists them *)

Definition positive_int (x : pyval) : Prop :=
  exists z, x = PyInt z /\ 0 < z.

Definition positive_pow2_int (x : pyval) : Prop :=
  exists k, 0 <= k /\ x = PyInt (2 ^ k).

Definition multiple_of (x y : pyval) : Prop :=
  exists q, int_of x = q * int_of y.

(** None of the five listed errors: the cache size and both data widths
    are positive powers of two, the backend data width is a multiple of
    the front one, and the backend address width is positive. *)
Definition listed_valid (c : configuration) : Prop :=
  positive_pow2_int (cfg_size c) /\
  positive_pow2_int (cfg_data_width c) /\
  multiple_of (cfg_port_data_width c) (cfg_data_width c) /\
  positive_int (cfg_addr_width c) /\
  positive_pow2_int (cfg_port_data_width c).

Definition one_of_8_16_32_64 (z : Z) : Prop :=
  z = 8 \/ z = 16 \/ z = 32 \/ z = 64.

(** What the wishbone interface accepts: a front data width of 8, 16, 32
    or 64 and a granularity that is [None] or one of these and not
    greater than the data width. *)
Definition interface_accepts (c : configuration) : Prop :=
  one_of_8_16_32_64 (int_of (cfg_data_width c)) /\
  (cfg_granularity c = PyNone \/
   exists gr, cfg_granularity c = PyInt gr /\ one_of_8_16_32_64 gr /\
              gr <= int_of (cfg_data_width c)).

(** A 4-bit front bus on an 8-bit backend port: none of the five listed
    errors, and refused by the wishbone interface. *)
Definition narrow_configuration : configuration := {|
  cfg_addr_width := PyInt 23;
  cfg_port_data_width := PyInt 8;
  cfg_size := PyInt 8;
  cfg_data_width := PyInt 4;
  cfg_granularity := PyNone
|}.

(** A cache of 1024 bytes, 256 lines of 32 bits, on a backend port
    with a one-bit address: none of the five listed errors, accepted by
    both constructors, and a line field wider than the backend
    address. *)
Definition wide_configuration : configuration := {|
  cfg_addr_width := PyInt 1;
  cfg_port_data_width := PyInt 32;
  cfg_size := PyInt 1024;
  cfg_data_width := PyInt 16;
  cfg_granularity := PyInt 8
|}.

(** The test bench's port with a cache of four bytes, a single line of
    32 bits: [WritebackCache(size=4, data_width=16, granularity=8)] on
    [LiteDRAMNativePort(addr_width=23, data_width=32)]. The line field
    is empty and the tag is the address above the offset bit. *)
Definition one_line_configuration : configuration := {|
  cfg_addr_width := PyInt 23;
  cfg_port_data_width := PyInt 32;
  cfg_size := PyInt 4;
  cfg_data_width := PyInt 16;
  cfg_granularity := PyInt 8
|}.

Definition one_line_geometry : geometry := {|
  offset_bits := 1;
  line_bits := 0;
  tag_bits := 23;
  data_width := 16;
  granularity := 8;
  port_width := 32;
  depth := 1
|}.

(** The same port with a cache of one byte, less than a line:
    [nb_lines = 1 * 8 // 32 = 0], so both memories have depth zero. The
    field widths are those of the one-line cache. *)
Definition zero_line_configuration : configuration := {|
  cfg_addr_width := PyInt 23;
  cfg_port_data_width := PyInt 32;
  cfg_size := PyInt 1;
  cfg_data_width := PyInt 16;
  cfg_granularity := PyInt 8
|}.

Definition zero_line_geometry : geometry := {|
  offset_bits := 1;
  line_bits := 0;
  tag_bits := 23;
  data_width := 16;
  granularity := 8;
  port_width := 32;
  depth := 0
|}.

(** ** Runs of the test bench geometry used below *)

(** A LINEAR incrementing burst that starts at address 3, the last word
    of line 1 under tag 0, presented for two ticks; its next beat is
    address 4: tag 1, line 0. *)
Definition burst_3 : inputs := read_req 3 INCR_BURST LINEAR.
Definition burst_4 : inputs := read_req 4 INCR_BURST LINEAR.
Definition burst_crossing_run : list inputs := [burst_3; burst_3].

(** A LINEAR incrementing burst that starts at address 0 (tag 0, line 0,
    offset 0); its next beat is address 1, in the same line. *)
Definition burst_0 : inputs := read_req 0 INCR_BURST LINEAR.
Definition burst_1 : inputs := read_req 1 INCR_BURST LINEAR.
Definition burst_in_line_run : list inputs := [burst_0; burst_0].

(** A LINEAR incrementing burst at the top address 0xFFFFFF (tag
    0x3FFFFF, line 1, offset 1): a clean miss, the refill (Command and
    ReadBeat taken in the same tick), the return to CHECK and the hit.
    Its next beat wraps to address 0. *)
Definition burst_top : inputs := read_req 0xFFFFFF INCR_BURST LINEAR.
Definition burst_top_run : list inputs :=
  [burst_top; burst_top; with_backend burst_top true false true 0xDEADBEEF;
   burst_top; burst_top; burst_top].

(** A write of zero to address 0, presented until acknowledged. *)
Definition write_zero_run : list inputs := [write_req 0 0; write_req 0 0].

(** A read of address 4 (tag 1, line 0): a clean miss in two ticks, then
    the refill with the Command and the ReadBeat taken in the same tick. *)
Definition read_4 : inputs := read_req 4 CLASSIC LINEAR.
Definition clean_miss_run : list inputs := [read_4; read_4].
Definition refill_run : list inputs :=
  clean_miss_run ++ [with_backend read_4 true false true 0xCAFE].

(** A write to address 0 (line 0 becomes dirty) followed by a read of
    address 4, which misses on the dirty line 0. *)
Definition dirty_miss_run : list inputs :=
  [write_req 0 0xAA; write_req 0 0xAA; idle; read_4].

(** The ticks of the miss handling that follows [dirty_miss_run] when the
    missing read is held: the eviction with the Command taken first and
    the WriteBeat one tick later, the tick that leaves EVICT, and the
    refill with both handshakes in one tick. *)
Definition evict_cmd_first : list inputs :=
  [with_backend read_4 true false false 0;
   with_backend read_4 false true false 0;
   read_4].
Definition evict_w_first : list inputs :=
  [with_backend read_4 false true false 0;
   with_backend read_4 true false false 0;
   read_4].
Definition evict_together : list inputs :=
  [with_backend read_4 true true false 0; read_4].

(** ** Runs of the one-line and of the zero-line cache *)

(** A read of address 2 (tag 1): two ticks to the clean miss, then the
    refill with the Command and the ReadBeat taken in the same tick. *)
Definition read_2 : inputs := read_req 2 CLASSIC LINEAR.
Definition zero_line_refill_run : list inputs :=
  [read_2; read_2; with_backend read_2 true false true 0xCAFE].

(** ** The dirty bit and the backing store *)

(** The dirty bit as the specification reads it, against a backing
    store [backing] addressed by backend address: a line is dirty exactly
    when its DataStore content differs from the backing store's content
    at the address made of the line index and the stored tag. *)
Definition dirty_iff_differs (g : geometry) (s : state) (backing : Z -> Z) : Prop :=
  forall line,
    0 <= line < 2 ^ line_bits g ->
    (dirty (tag_mem_read (tag_mem s) line) = true <->
     dat_mem_read (dat_mem s) line <>
       backing (Cat (line_bits g) line (tag (tag_mem_read (tag_mem s) line)))).

(** The line data the backing store has delivered: for each line, the
    data of the last ReadBeat accepted while that line was being
    refilled, tracked along a run. *)
Fixpoint delivered (g : geometry) (s : state) (m : gmap Z Z) (l : list inputs)
  : gmap Z Z :=
  match l with
  | [] => m
  | i :: l' =>
      delivered g (step g s i)
        (if r_fire g (s, i)
         then <[adr_line g (intr_bus_r_adr s) := trunc (port_width g) (r_data i)]> m
         else m)
        l'
  end.

(** The byte lanes of the DataStore write port cover the line exactly. *)
Definition lanes_cover (g : geometry) : Prop :=
  0 < granularity g /\ 0 < en_len g /\ en_len g * granularity g = port_width g.

(** Every value of the line field names a cell of the two memories:
    the cache holds at least one line, [nb_lines = 2 ^ line_bits]
    (sdram.py:79, 83, 109, 119). *)
Definition lines_in_depth (g : geometry) : Prop :=
  0 <= line_bits g /\ 2 ^ line_bits g <= depth g.

(** ** Which line a tick can write *)

(** The line both write ports address: the line of the live address in
    CHECK (sdram.py:159-162), the registered line in REFILL
    (sdram.py:223-227). *)
Definition write_target (g : geometry) (s : state) (i : inputs) : Z :=
  match fsm s with
  | CHECK => adr_line g (intr_adr g i)
  | _ => adr_line g (intr_bus_r_adr s)
  end.

(** An acknowledged write, and an accepted ReadBeat. *)
Definition write_hit (g : geometry) (s : state) (i : inputs) : bool :=
  match fsm s with
  | CHECK => we i && ack (comb g s i)
  | _ => false
  end.

Definition read_beat (g : geometry) (s : state) (i : inputs) : bool :=
  match fsm s with
  | REFILL => r_fire g (s, i)
  | _ => false
  end.

(** The front-end words tile the line: the byte lanes of a word cover
    it, [ratio] words cover the line, and the offset field counts them
    (sdram.py:78-79, 160: [sel << offset * len(sel)]). *)
Definition words_tile (g : geometry) : Prop :=
  0 < granularity g /\
  0 < sel_len g /\ sel_len g * granularity g = data_width g /\
  0 < words_per_line g /\ words_per_line g * data_width g = port_width g /\
  0 <= offset_bits g /\ 2 ^ offset_bits g = words_per_line g.

(** The address fields have widths ([log2_int] results and the tag
    width of sdram.py:84 are not negative on a cache that was built). *)
Definition fields_nonneg (g : geometry) : Prop :=
  0 <= offset_bits g /\ 0 <= line_bits g /\ 0 <= tag_bits g.

(** Every register and memory word holds a value of its signal's width
    (sdram.py:81-86, 104-122). *)
Definition values_fit (g : geometry) (s : state) : Prop :=
  0 <= intr_bus_r_adr s < 2 ^ adr_len g /\
  0 <= tag (tag_rp_data s) < 2 ^ tag_bits g /\
  (forall a, 0 <= tag (tag_mem_read (tag_mem s) a) < 2 ^ tag_bits g) /\
  0 <= dat_rp_data s < 2 ^ port_width g /\
  (forall a, 0 <= dat_mem_read (dat_mem s) a < 2 ^ port_width g).

(** ** The burst assumption of the formal test bench
    (test_periph_sdram.py:41-54)

    After an acknowledged beat of an incrementing burst the test bench
    assumes [adr == Past(adr) + 1] under LINEAR and, under WRAP_4/8/16,
    [adr[:k] == Past(adr)[:k] + 1] and [adr[k:] == Past(adr)[k:]]. The
    sum is one bit wider than its operand and [==] compares the values,
    so nothing is truncated. Both addresses are [len]-bit values. *)
Definition harness_burst_assume (len : Z) (b : BurstTypeExt) (past a : Z) : bool :=
  match wrap_bits b with
  | None => a =? past + 1
  | Some k =>
      let k' := Z.min k len in
      (slice a 0 k' =? slice past 0 k' + 1) &&
      (slice a k' (len - k') =? slice past k' (len - k'))
  end.

(** The beat does not leave the burst window: the incremented bits do
    not overflow. *)
Definition burst_in_window (len : Z) (b : BurstTypeExt) (past : Z) : Prop :=
  match wrap_bits b with
  | None => past + 1 < 2 ^ len
  | Some k => past mod 2 ^ k + 1 < 2 ^ k
  end.

(** ** The bus assumptions of the formal test bench
    (test_periph_sdram.py:21-56)

    In the first tick [cyc] and [stb] are low. After a tick with [cyc]
    and [stb]: [bte] is unchanged; if that tick was not acknowledged the
    address, [we], [dat_w], [sel] and [cti] are unchanged; if it was
    acknowledged with [cti = INCR_BURST] the address is the burst's next
    one; otherwise [cyc] is low. *)
Definition bte_eqb (a b : BurstTypeExt) : bool :=
  match a, b with
  | LINEAR, LINEAR | WRAP_4, WRAP_4 | WRAP_8, WRAP_8 | WRAP_16, WRAP_16 => true
  | _, _ => false
  end.

Definition harness_bus_assume (g : geometry) (s : state) (p i : inputs) : bool :=
  if cyc p && stb p
  then
    bte_eqb (bte i) (bte p) &&
    (if negb (ack (comb g s p))
     then
       (intr_adr g i =? intr_adr g p) &&
       Bool.eqb (we i) (we p) &&
       (trunc (data_width g) (dat_w i) =? trunc (data_width g) (dat_w p)) &&
       (trunc (sel_len g) (sel i) =? trunc (sel_len g) (sel p)) &&
       (trunc 3 (cti i) =? trunc 3 (cti p))
     else if trunc 3 (cti p) =? INCR_BURST
     then harness_burst_assume (adr_len g) (bte i) (intr_adr g p) (intr_adr g i)
     else negb (cyc i))
  else true.

(** The assumptions along a run: [p] is the tick before, seen in state
    [s]. *)
Fixpoint harness_bus_run (g : geometry) (s : state) (p : inputs) (l : list inputs)
  : bool :=
  match l with
  | [] => true
  | i :: l' => harness_bus_assume g s p i && harness_bus_run g (step g s p) i l'
  end.

Definition harness_conformant (g : geometry) (l : list inputs) : bool :=
  match l with
  | [] => true
  | i :: l' => negb (cyc i) && negb (stb i) && harness_bus_run g reset i l'
  end.

(** ** Runs of the one-line cache inside the test bench's assumptions *)

(** A beat of a LINEAR incrementing write burst. *)
Definition burst_write (a d : Z) : inputs := {|
  cyc := true; stb := true; adr := a; we := true; sel := 3; dat_w := d;
  cti := INCR_BURST; bte := LINEAR;
  cmd_ready := false; w_ready := false; r_valid := false; r_data := 0
|}.

(** After an idle tick, the write of 0xAA to address 0 held until it is
    acknowledged, an idle tick, and the first beat of a write burst,
    0xBB to address 1, held until it is acknowledged. Both addresses
    have tag 0; the burst goes on at address 2, which has tag 1, and
    that beat is held while the backend takes the Command and the
    WriteBeat. *)
Definition stale_evict_run : list inputs :=
  [idle; write_req 0 0xAA; write_req 0 0xAA; idle;
   burst_write 1 0xBB; burst_write 1 0xBB; burst_write 2 0xCC].

Definition stale_evict_tick : inputs :=
  with_backend (burst_write 2 0xCC) true true false 0.

(** The same burst on the cache as it is after reset, its one line
    clean: the beat at address 1 is acknowledged, the beat at address 2
    misses. *)
Definition stale_dirty_run : list inputs :=
  [idle; burst_write 1 0xBB; burst_write 1 0xBB].

(** * Part II: properties *)

(** ** Bit vectors *)

Lemma trunc_mod w x : 0 <= w -> trunc w x = x mod 2 ^ w.
Proof. intros Hw. unfold trunc. now apply Z.land_ones. Qed.

Lemma trunc_range w x : 0 <= w -> 0 <= trunc w x < 2 ^ w.
Proof.
  intros Hw. rewrite trunc_mod by assumption.
  apply Z.mod_pos_bound. now apply Z.pow_pos_nonneg.
Qed.

Lemma trunc_small w x : 0 <= w -> 0 <= x < 2 ^ w -> trunc w x = x.
Proof. intros Hw Hx. rewrite trunc_mod by assumption. now apply Z.mod_small. Qed.

Lemma Cat_add w lo hi :
  0 <= w -> 0 <= lo < 2 ^ w -> Cat w lo hi = lo + hi * 2 ^ w.
Proof.
  intros Hw Hlo. unfold Cat.
  pose proof (Z.add_lor_land lo (Z.shiftl hi w)) as Hadd.
  assert (Hdisj : Z.land lo (Z.shiftl hi w) = 0).
  { apply Z.bits_inj'. intros n Hn.
    rewrite Z.land_spec, Z.bits_0.
    destruct (Z.lt_ge_cases n w) as [Hlt | Hge].
    - rewrite Z.shiftl_spec_low by assumption. apply andb_false_r.
    - rewrite <- (Z.mod_small lo (2 ^ w)) by assumption.
      rewrite Z.mod_pow2_bits_high by lia. reflexivity. }
  rewrite Hdisj, Z.add_0_r in Hadd. rewrite Hadd.
  now rewrite Z.shiftl_mul_pow2 by assumption.
Qed.

Lemma slice_div_mod x lo w :
  0 <= lo -> 0 <= w -> slice x lo w = (x / 2 ^ lo) mod 2 ^ w.
Proof.
  intros Hlo Hw. unfold slice.
  rewrite trunc_mod by assumption. now rewrite Z.shiftr_div_pow2.
Qed.

(** ** The burst successor *)

Example next_linear : intr_adr_next_at 24 LINEAR 0xFFFFFF = 0.
Proof. reflexivity. Qed.

Example next_wrap4 : intr_adr_next_at 24 WRAP_4 0x17 = 0x14.
Proof. reflexivity. Qed.

Example next_wrap8 : intr_adr_next_at 24 WRAP_8 0x17 = 0x10.
Proof. reflexivity. Qed.

Example next_wrap16 : intr_adr_next_at 24 WRAP_16 0x1F = 0x10.
Proof. reflexivity. Qed.

(** On a bus narrower than the window the slice is clipped to the bus. *)
Example next_wrap4_narrow : intr_adr_next_at 1 WRAP_4 1 = 0.
Proof. reflexivity. Qed.

Lemma wrap_bits_range b k : wrap_bits b = Some k -> 2 <= k <= 4.
Proof. destruct b; simpl; intros H; inversion H; lia. Qed.

(** C7. For every address of a [len]-bit bus and every burst type whose
    window fits in the bus, [intr_adr_next] is the full address plus one
    under LINEAR and, under WRAP_4 / WRAP_8 / WRAP_16, the low 2 / 3 / 4
    bits plus one wrapping inside that window, every higher bit unchanged. *)
Theorem intr_adr_next_spec (len : Z) (b : BurstTypeExt) (a : Z) :
  0 <= a < 2 ^ len ->
  window_fits len b ->
  intr_adr_next_at len b a = next_address_spec len b a.
Proof.
  intros Ha Hfit.
  unfold intr_adr_next_at, next_address_spec, window_fits in *.
  destruct (wrap_bits b) as [k|] eqn:Hk.
  - apply wrap_bits_range in Hk.
    rewrite Z.min_l by lia.
    assert (Hp : 0 < 2 ^ k) by (apply Z.pow_pos_nonneg; lia).
    rewrite Cat_add; [| lia | apply trunc_range; lia].
    rewrite trunc_mod by lia.
    rewrite !slice_div_mod by lia.
    rewrite Z.pow_0_r, Z.div_1_r.
    assert (Hhi : (a / 2 ^ k) mod 2 ^ (len - k) = a / 2 ^ k).
    { apply Z.mod_small. split.
      - apply Z.div_pos; lia.
      - apply Z.div_lt_upper_bound; [lia|].
        rewrite <- Z.pow_add_r by lia.
        replace (k + (len - k)) with len by lia. lia. }
    rewrite Hhi. lia.
  - now apply trunc_mod.
Qed.

(** The theorem at the top of a 24-bit bus, where LINEAR wraps to zero. *)
Lemma intr_adr_next_spec_witness :
  intr_adr_next_at 24 LINEAR 0xFFFFFF = next_address_spec 24 LINEAR 0xFFFFFF.
Proof.
  apply (intr_adr_next_spec 24 LINEAR 0xFFFFFF); vm_compute;
    [split; [discriminate | reflexivity] | discriminate].
Defined.

(** ** Construction *)

Lemma land_pred_pow2 k : 0 <= k -> Z.land (2 ^ k) (2 ^ k - 1) = 0.
Proof.
  intros Hk. replace (2 ^ k - 1) with (Z.ones k) by (rewrite Z.ones_equiv; lia).
  rewrite Z.land_ones by assumption. apply Z_mod_same_full.
Qed.

Lemma land_pred_zero z : 0 < z -> Z.land z (z - 1) = 0 -> z = 2 ^ Z.log2 z.
Proof.
  intros Hz Hland.
  destruct (Z.log2_spec z Hz) as [Hlo Hhi].
  destruct (Z.eq_dec z (2 ^ Z.log2 z)) as [Heq | Hne]; [assumption | exfalso].
  assert (Hpos : 0 < 2 ^ Z.log2 z) by (apply Z.pow_pos_nonneg; [lia | apply Z.log2_nonneg]).
  assert (Hlog : Z.log2 (z - 1) = Z.log2 z).
  { apply Z.log2_unique; [apply Z.log2_nonneg | lia]. }
  assert (Hb1 : Z.testbit z (Z.log2 z) = true) by (apply Z.bit_log2; lia).
  assert (Hb2 : Z.testbit (z - 1) (Z.log2 z) = true).
  { rewrite <- Hlog. apply Z.bit_log2. lia. }
  assert (Hb : Z.testbit (Z.land z (z - 1)) (Z.log2 z) = true).
  { rewrite Z.land_spec, Hb1, Hb2. reflexivity. }
  rewrite Hland, Z.bits_0 in Hb. discriminate.
Qed.

Lemma not_positive_int_false x : not_positive_int x = false <-> positive_int x.
Proof.
  unfold positive_int. destruct x as [z| |]; simpl.
  - rewrite Z.leb_gt. split.
    + intros Hz. exists z. auto.
    + intros (z' & Heq & Hz'). inversion Heq. lia.
  - split; [discriminate | intros (z & Heq & _); discriminate].
  - split; [discriminate | intros (z & Heq & _); discriminate].
Qed.

Lemma not_positive_pow2_int_false x :
  not_positive_pow2_int x = false <-> positive_pow2_int x.
Proof.
  unfold positive_pow2_int. destruct x as [z| |]; simpl.
  - rewrite orb_false_iff, negb_false_iff, Z.leb_gt, Z.eqb_eq. split.
    + intros [Hz Hland]. exists (Z.log2 z). split; [apply Z.log2_nonneg|].
      f_equal. now apply land_pred_zero.
    + intros (k & Hk & Heq). inversion Heq. subst z. split.
      * apply Z.pow_pos_nonneg; lia.
      * now apply land_pred_pow2.
  - split; [discriminate | intros (k & _ & Heq); discriminate].
  - split; [discriminate | intros (k & _ & Heq); discriminate].
Qed.

Lemma in_8_16_32_64_true z : in_8_16_32_64 z = true <-> one_of_8_16_32_64 z.
Proof.
  unfold in_8_16_32_64, one_of_8_16_32_64.
  rewrite !orb_true_iff, !Z.eqb_eq. tauto.
Qed.

Lemma one_of_8_16_32_64_pow2 z :
  one_of_8_16_32_64 z -> exists k, 3 <= k <= 6 /\ z = 2 ^ k.
Proof.
  intros [H | [H | [H | H]]]; subst z;
    [exists 3 | exists 4 | exists 5 | exists 6]; split; (lia || reflexivity).
Qed.

Lemma log2_int_zero : log2_int 0 = Ok 0.
Proof. reflexivity. Qed.

Lemma log2_int_pow2 k : 0 <= k -> log2_int (2 ^ k) = Ok k.
Proof.
  intros Hk. unfold log2_int, bit_length.
  assert (Hpos : 0 < 2 ^ k) by (apply Z.pow_pos_nonneg; lia).
  destruct (Z.eqb_spec (2 ^ k) 0) as [H0 | _]; [lia|].
  destruct (Z.eq_dec k 0) as [-> | Hk0].
  - reflexivity.
  - assert (Hgt : 1 < 2 ^ k).
    { replace 1 with (2 ^ 0) by reflexivity. apply Z.pow_lt_mono_r; lia. }
    destruct (Z.eqb_spec (2 ^ k - 1) 0) as [H1 | _]; [lia|].
    rewrite Z.abs_eq by lia.
    replace (2 ^ k - 1) with (Z.pred (2 ^ k)) by lia.
    rewrite Z.log2_pred_pow2 by lia.
    replace (Z.pred k + 1) with k by lia.
    rewrite Z.shiftl_1_l, Z.eqb_refl. reflexivity.
Qed.

(** A power of two that divides a power of two. *)
Lemma pow2_quotient d b :
  0 <= d -> 0 <= b -> 2 ^ d mod 2 ^ b = 0 ->
  b <= d /\ 2 ^ d / 2 ^ b = 2 ^ (d - b).
Proof.
  intros Hd Hb Hmod.
  assert (Hpd : 0 < 2 ^ d) by (apply Z.pow_pos_nonneg; lia).
  destruct (Z.lt_ge_cases d b) as [Hlt | Hge].
  - rewrite Z.mod_small in Hmod; [lia|].
    split; [lia | apply Z.pow_lt_mono_r; lia].
  - split; [lia|]. rewrite Z.pow_sub_r by lia. reflexivity.
Qed.

(** A power of two divided by a power of two, rounding down. *)
Lemma pow2_floor_quotient a d :
  0 <= a -> 0 <= d ->
  (d <= a /\ 2 ^ a / 2 ^ d = 2 ^ (a - d)) \/ (a < d /\ 2 ^ a / 2 ^ d = 0).
Proof.
  intros Ha Hd.
  destruct (Z.lt_ge_cases a d) as [Hlt | Hge].
  - right. split; [assumption|]. apply Z.div_small. split.
    + apply Z.pow_nonneg. lia.
    + apply Z.pow_lt_mono_r; lia.
  - left. split; [lia|]. rewrite Z.pow_sub_r by lia. reflexivity.
Qed.

Lemma multiple_of_mod x y :
  0 < int_of y -> (int_of x mod int_of y =? 0) = true <-> multiple_of x y.
Proof.
  intros Hy. unfold multiple_of. rewrite Z.eqb_eq.
  rewrite Z.mod_divide by lia. reflexivity.
Qed.

Lemma positive_pow2_int_pos x : positive_pow2_int x -> 0 < int_of x.
Proof.
  intros (k & Hk & ->). simpl. apply Z.pow_pos_nonneg; lia.
Qed.

Example construct_test :
  construct test_configuration =
    Ok {| cache_size := 8;
          dram_port := {| port_addr_width := 23; port_data_width := 32 |};
          intr_bus := {| bus_addr_width := 24; bus_data_width := 16;
                         bus_granularity := 8 |} |}.
Proof. reflexivity. Qed.

Example elaborate_test :
  (do c <- construct test_configuration; elaborate_geometry c) = Ok test_geometry.
Proof. reflexivity. Qed.

Lemma wishbone_Interface_ok aw dw gran :
  0 <= aw ->
  raised (wishbone_Interface aw dw gran) = false <->
  one_of_8_16_32_64 dw /\
  (gran = PyNone \/
   exists gr, gran = PyInt gr /\ one_of_8_16_32_64 gr /\ gr <= dw).
Proof.
  intros Haw. unfold wishbone_Interface.
  destruct (Z.ltb_spec aw 0) as [Hneg | _]; [lia|].
  destruct (in_8_16_32_64 dw) eqn:Hdw; simpl.
  - apply in_8_16_32_64_true in Hdw.
    destruct gran as [gr| |].
    + destruct (in_8_16_32_64 gr) eqn:Hgr; simpl.
      * apply in_8_16_32_64_true in Hgr.
        destruct (Z.ltb_spec dw gr) as [Hlt | Hle]; simpl.
        -- split; [discriminate|].
           intros (_ & [Hnone | (gr' & Heq & _ & Hle)]); [discriminate|].
           inversion Heq. lia.
        -- split; [|reflexivity]. intros _. split; [assumption|].
           right. exists gr. auto.
      * split; [discriminate|].
        intros (_ & [Hnone | (gr' & Heq & Hin & _)]); [discriminate|].
        inversion Heq. subst gr'. apply in_8_16_32_64_true in Hin. congruence.
    + split; [|reflexivity]. intros _. split; [assumption | now left].
    + split; [discriminate|].
      intros (_ & [Hnone | (gr' & Heq & _)]); discriminate.
  - split; [discriminate|].
    intros (Hin & _). apply in_8_16_32_64_true in Hin. congruence.
Qed.

(** Construction succeeds exactly on the configurations that have none
    of the five listed errors and that the wishbone interface accepts. *)
Lemma construct_ok_iff c :
  raised (construct c) = false <-> listed_valid c /\ interface_accepts c.
Proof.
  unfold construct, LiteDRAMNativePort_init, listed_valid, interface_accepts.
  destruct (not_positive_int (cfg_addr_width c)) eqn:Haw; simpl.
  { split; [discriminate|]. intros ((_ & _ & _ & Hpos & _) & _).
    apply not_positive_int_false in Hpos. congruence. }
  destruct (not_positive_pow2_int (cfg_port_data_width c)) eqn:Hpdw; simpl.
  { split; [discriminate|]. intros ((_ & _ & _ & _ & Hpow) & _).
    apply not_positive_pow2_int_false in Hpow. congruence. }
  destruct (not_positive_pow2_int (cfg_size c)) eqn:Hsz; simpl.
  { split; [discriminate|]. intros ((Hpow & _) & _).
    apply not_positive_pow2_int_false in Hpow. congruence. }
  destruct (not_positive_pow2_int (cfg_data_width c)) eqn:Hdw; simpl.
  { split; [discriminate|]. intros ((_ & Hpow & _) & _).
    apply not_positive_pow2_int_false in Hpow. congruence. }
  apply not_positive_int_false in Haw.
  apply not_positive_pow2_int_false in Hpdw, Hsz, Hdw.
  pose proof (positive_pow2_int_pos _ Hdw) as Hdwpos.
  destruct (int_of (cfg_port_data_width c) mod int_of (cfg_data_width c) =? 0) eqn:Hmod;
    simpl.
  - pose proof Hmod as Hmul. apply multiple_of_mod in Hmul; [|assumption].
    destruct Hpdw as (d & Hd & Hpd). destruct Hdw as (b & Hb & Hbd).
    destruct Haw as (aw & Hawe & Hawpos).
    rewrite Hpd, Hbd, Hawe in *. simpl in *.
    apply Z.eqb_eq in Hmod.
    destruct (pow2_quotient d b Hd Hb Hmod) as [Hle Hq].
    rewrite Hq, log2_int_pow2 by lia. simpl.
    pose proof (wishbone_Interface_ok (aw + (d - b)) (2 ^ b) (cfg_granularity c))
      as Hwb.
    destruct (wishbone_Interface (aw + (d - b)) (2 ^ b) (cfg_granularity c)) as [bus | e];
      simpl in *.
    + split; [|reflexivity]. intros _. split.
      * repeat split; try assumption.
        -- exists b. auto.
        -- exists aw. auto.
        -- exists d. auto.
      * apply Hwb; [lia | reflexivity].
    + split; [discriminate|]. intros (_ & Hacc).
      apply Hwb in Hacc; [discriminate | lia].
  - split; [discriminate|]. intros ((_ & _ & Hmul & _) & _).
    apply multiple_of_mod in Hmul; [congruence | assumption].
Qed.

(** C8 (as amended). Construction of the port and of the cache on it
    raises exactly when the configuration has one of the five listed
    errors or the wishbone interface refuses the front data width or the
    granularity; on every other configuration it returns the cache. *)
Theorem construct_raises_iff (c : configuration) :
  (raised (construct c) = true <-> ~ (listed_valid c /\ interface_accepts c)) /\
  ((exists cache, construct c = Ok cache) <-> listed_valid c /\ interface_accepts c).
Proof.
  pose proof (construct_ok_iff c) as Hok.
  destruct (construct c) as [cache | e] eqn:Hc; simpl in *.
  - split.
    + split; [discriminate|]. intros Hn. exfalso. apply Hn, Hok. reflexivity.
    + split; [intros _; now apply Hok | intros _; eauto].
  - split.
    + split; [|reflexivity]. intros _ Hv. apply Hok in Hv. discriminate.
    + split; [intros (cache & Heq); discriminate |].
      intros Hv. apply Hok in Hv. discriminate.
Qed.

(** C8 fails as stated: a 4-bit front bus on an 8-bit port has none of
    the five listed errors, yet construction raises (the wishbone
    interface takes data widths 8, 16, 32 and 64 only). *)
Lemma construct_raises_on_listed_valid :
  listed_valid narrow_configuration /\
  construct narrow_configuration = Raise InterfaceError /\
  ~ (forall c, raised (construct c) = true <-> ~ listed_valid c).
Proof.
  assert (Hv : listed_valid narrow_configuration).
  { unfold listed_valid, narrow_configuration; simpl. repeat split.
    - exists 3. split; [lia | reflexivity].
    - exists 2. split; [lia | reflexivity].
    - exists 2. reflexivity.
    - exists 23. split; [reflexivity | lia].
    - exists 3. split; [lia | reflexivity]. }
  split; [assumption|]. split; [reflexivity|].
  intros Hall. apply (proj1 (Hall narrow_configuration)); [reflexivity | assumption].
Qed.

(** The cache object a successful construction returns. *)
Lemma construct_ok_shape c cache :
  construct c = Ok cache ->
  exists a b d aw gk,
    0 <= a /\ 0 <= b <= d /\ 0 < aw /\ 3 <= gk <= 6 /\ gk <= b /\
    cache = {| cache_size := 2 ^ a;
               dram_port := {| port_addr_width := aw; port_data_width := 2 ^ d |};
               intr_bus := {| bus_addr_width := aw + (d - b);
                              bus_data_width := 2 ^ b;
                              bus_granularity := 2 ^ gk |} |}.
Proof.
  intros Hc.
  assert (Hok : raised (construct c) = false) by (rewrite Hc; reflexivity).
  apply construct_ok_iff in Hok.
  destruct Hok as ((Hsz & Hdw & Hmul & Haw & Hpdw) & (Hin & Hgran)).
  destruct Hsz as (a & Ha & Hsz). destruct Hdw as (b & Hb & Hdw).
  destruct Hpdw as (d & Hd & Hpdw). destruct Haw as (aw & Haw & Hawpos).
  assert (Hbpos : 0 < 2 ^ b) by (apply Z.pow_pos_nonneg; lia).
  assert (Hmod : 2 ^ d mod 2 ^ b = 0).
  { rewrite Hpdw, Hdw in Hmul. apply multiple_of_mod in Hmul; [|assumption].
    now apply Z.eqb_eq in Hmul. }
  destruct (pow2_quotient d b Hd Hb Hmod) as [Hle Hq].
  rewrite Hdw in Hin, Hgran. simpl in Hin, Hgran.
  pose proof (proj2 (in_8_16_32_64_true _) Hin) as Hinb.
  unfold construct, LiteDRAMNativePort_init, WritebackCache_init in Hc.
  rewrite Haw, Hpdw, Hsz, Hdw in Hc. simpl in Hc.
  destruct (Z.leb_spec aw 0) as [Hneg | _]; [lia|].
  assert (Hpd : 0 < 2 ^ d) by (apply Z.pow_pos_nonneg; lia).
  assert (Hpa : 0 < 2 ^ a) by (apply Z.pow_pos_nonneg; lia).
  destruct (Z.leb_spec (2 ^ d) 0) as [Hneg | _]; [lia|].
  destruct (Z.leb_spec (2 ^ a) 0) as [Hneg | _]; [lia|].
  destruct (Z.leb_spec (2 ^ b) 0) as [Hneg | _]; [lia|].
  rewrite !land_pred_pow2 in Hc by assumption. simpl in Hc.
  rewrite Hmod in Hc. simpl in Hc.
  rewrite Hq, log2_int_pow2 in Hc by lia. simpl in Hc.
  unfold wishbone_Interface in Hc.
  destruct (Z.ltb_spec (aw + (d - b)) 0) as [Hneg | _]; [lia|].
  rewrite Hinb in Hc. simpl in Hc.
  destruct Hgran as [Hnone | (gr & Hgr & Hingr & Hgrle)].
  - rewrite Hnone in Hc. simpl in Hc. inversion Hc.
    destruct (one_of_8_16_32_64_pow2 _ Hin) as (k & Hk & Hkeq).
    assert (Hkb : k = b) by (apply (Z.pow_inj_r 2); lia).
    exists a, b, d, aw, k. rewrite Hkeq. repeat split; lia.
  - rewrite Hgr in Hc.
    pose proof (proj2 (in_8_16_32_64_true _) Hingr) as Hingrb.
    rewrite Hingrb in Hc. simpl in Hc.
    destruct (Z.ltb_spec (2 ^ b) gr) as [Hlt | _]; [lia|].
    inversion Hc.
    destruct (one_of_8_16_32_64_pow2 _ Hingr) as (k & Hk & Hkeq).
    assert (Hkb : k <= b).
    { apply (Z.pow_le_mono_r_iff 2); [lia | lia | rewrite <- Hkeq; assumption]. }
    exists a, b, d, aw, k. rewrite Hkeq. repeat split; lia.
Qed.

(** What [elaborate] computes on a cache of the shape the constructors
    return: the line field is [a + gk - d] bits wide when the cache holds
    at least one line and zero bits when it holds none, and the [Record]
    is refused when that is more than the [aw] bits of the backend
    address. *)
Lemma elaborate_geometry_shape a b d aw gk :
  0 <= a -> 0 <= b <= d -> 0 <= gk ->
  let l := if d <=? a + gk then a + gk - d else 0 in
  let n := if d <=? a + gk then 2 ^ (a + gk - d) else 0 in
  ratio {| cache_size := 2 ^ a;
           dram_port := {| port_addr_width := aw; port_data_width := 2 ^ d |};
           intr_bus := {| bus_addr_width := aw + (d - b);
                          bus_data_width := 2 ^ b;
                          bus_granularity := 2 ^ gk |} |} = 2 ^ (d - b) /\
  nb_lines {| cache_size := 2 ^ a;
              dram_port := {| port_addr_width := aw; port_data_width := 2 ^ d |};
              intr_bus := {| bus_addr_width := aw + (d - b);
                             bus_data_width := 2 ^ b;
                             bus_granularity := 2 ^ gk |} |} = n /\
  elaborate_geometry
    {| cache_size := 2 ^ a;
       dram_port := {| port_addr_width := aw; port_data_width := 2 ^ d |};
       intr_bus := {| bus_addr_width := aw + (d - b);
                      bus_data_width := 2 ^ b;
                      bus_granularity := 2 ^ gk |} |} =
    if aw - l <? 0 then Raise RecordShapeError
    else Ok {| offset_bits := d - b;
               line_bits := l;
               tag_bits := aw - l;
               data_width := 2 ^ b;
               granularity := 2 ^ gk;
               port_width := 2 ^ d;
               depth := n |}.
Proof.
  intros Ha Hb Hgk l n.
  assert (Hq : 2 ^ d / 2 ^ b = 2 ^ (d - b)) by (rewrite Z.pow_sub_r by lia; reflexivity).
  assert (Hn : 2 ^ a * 2 ^ gk / 2 ^ d = n).
  { rewrite <- Z.pow_add_r by lia. subst n.
    destruct (pow2_floor_quotient (a + gk) d) as [[Hle Hn] | [Hlt Hn]]; try lia;
      rewrite Hn.
    - destruct (Z.leb_spec d (a + gk)); [reflexivity | lia].
    - destruct (Z.leb_spec d (a + gk)); [lia | reflexivity]. }
  assert (Hl : log2_int n = Ok l).
  { subst n l. destruct (Z.leb_spec d (a + gk)).
    - apply log2_int_pow2. lia.
    - apply log2_int_zero. }
  unfold elaborate_geometry, ratio, nb_lines.
  cbn [dram_port intr_bus port_data_width bus_data_width bus_granularity cache_size
       bus_addr_width port_addr_width].
  rewrite Hq, Hn, Hl, log2_int_pow2 by lia. cbn [bind].
  replace (aw + (d - b) - l - (d - b)) with (aw - l) by lia.
  split; [reflexivity|]. split; reflexivity.
Qed.

(** C9 (as amended). For every configuration the constructors accept,
    [ratio = port width / bus width] is an exact quotient and the
    front-end address width is the backend address width plus
    [log2 ratio]. When the line field, [log2 nb_lines] bits with
    [nb_lines = size * granularity / port width], is no wider than the
    backend address, [elaborate] computes the field widths without
    error: the offset field is [log2 ratio] bits and the line field
    [log2 nb_lines] bits wide, the tag field has the remaining bits
    (none or more) and the three widths add up to the front-end address
    width. When the line field is wider than the backend address the
    tag width would be negative and [elaborate] raises. *)
Theorem address_fields_widths (c : configuration) (cache : WritebackCache) :
  construct c = Ok cache ->
  ratio cache * bus_data_width (intr_bus cache) = port_data_width (dram_port cache) /\
  bus_addr_width (intr_bus cache) =
    port_addr_width (dram_port cache) + Z.log2 (ratio cache) /\
  (port_addr_width (dram_port cache) < Z.log2 (nb_lines cache) ->
   elaborate_geometry cache = Raise RecordShapeError) /\
  (Z.log2 (nb_lines cache) <= port_addr_width (dram_port cache) ->
   exists g,
     elaborate_geometry cache = Ok g /\
     offset_bits g = Z.log2 (ratio cache) /\
     2 ^ offset_bits g = ratio cache /\
     line_bits g = Z.log2 (nb_lines cache) /\
     (0 < nb_lines cache -> 2 ^ line_bits g = nb_lines cache) /\
     0 <= tag_bits g /\
     offset_bits g + line_bits g + tag_bits g = bus_addr_width (intr_bus cache)).
Proof.
  intros Hc.
  destruct (construct_ok_shape c cache Hc)
    as (a & b & d & aw & gk & Ha & Hb & Haw & Hgk & _ & ->).
  destruct (elaborate_geometry_shape a b d aw gk Ha Hb ltac:(lia)) as (Hr & Hn & Hg).
  rewrite Hr, Hn, Hg.
  cbn [dram_port intr_bus port_data_width bus_data_width bus_addr_width port_addr_width].
  rewrite Z.log2_pow2 by lia.
  assert (Hl : Z.log2 (if d <=? a + gk then 2 ^ (a + gk - d) else 0) =
               (if d <=? a + gk then a + gk - d else 0)).
  { destruct (Z.leb_spec d (a + gk)); [apply Z.log2_pow2; lia | reflexivity]. }
  rewrite Hl.
  split; [rewrite <- Z.pow_add_r by lia; f_equal; lia|].
  split; [reflexivity|].
  split.
  - intros Hlt.
    destruct (Z.ltb_spec (aw - (if d <=? a + gk then a + gk - d else 0)) 0);
      [reflexivity | lia].
  - intros Hle.
    destruct (Z.ltb_spec (aw - (if d <=? a + gk then a + gk - d else 0)) 0); [lia|].
    eexists. split; [reflexivity|].
    cbn [offset_bits line_bits tag_bits].
    split; [reflexivity|]. split; [reflexivity|]. split; [reflexivity|].
    split; [|split; lia].
    destruct (Z.leb_spec d (a + gk)); [reflexivity | lia].
Qed.

(** The theorem on the test bench configuration. *)
Lemma address_fields_widths_witness :
  exists g,
    elaborate_geometry
      {| cache_size := 8;
         dram_port := {| port_addr_width := 23; port_data_width := 32 |};
         intr_bus := {| bus_addr_width := 24; bus_data_width := 16;
                        bus_granularity := 8 |} |} = Ok g /\
    offset_bits g + line_bits g + tag_bits g = 24.
Proof.
  destruct (address_fields_widths test_configuration _ eq_refl)
    as (_ & _ & _ & Hok).
  destruct Hok as (g & Hg & _ & _ & _ & _ & _ & Hsum).
  - vm_compute. discriminate.
  - exists g. split; assumption.
Defined.

(** C9 fails as stated: a cache of 1024 bytes on a port with a one-bit
    address is accepted by both constructors, and its 256 lines need an
    8-bit line field where the front-end address has 2 bits; the tag
    width is negative, [Record] raises, and the address is never
    decomposed. *)
Lemma elaborate_raises_on_valid :
  listed_valid wide_configuration /\
  (exists cache,
     construct wide_configuration = Ok cache /\
     elaborate_geometry cache = Raise RecordShapeError) /\
  ~ (forall c cache,
       construct c = Ok cache ->
       exists g,
         elaborate_geometry cache = Ok g /\
         offset_bits g + line_bits g + tag_bits g = bus_addr_width (intr_bus cache)).
Proof.
  split; [|split].
  - unfold listed_valid, wide_configuration; simpl. repeat split.
    + exists 10. split; [lia | reflexivity].
    + exists 4. split; [lia | reflexivity].
    + exists 2. reflexivity.
    + exists 1. split; [reflexivity | lia].
    + exists 5. split; [lia | reflexivity].
  - eexists. split; reflexivity.
  - intros H.
    destruct (H wide_configuration _ eq_refl) as (g & Hg & _).
    vm_compute in Hg. discriminate.
Qed.

(** On every geometry [elaborate] computes for a constructed cache the
    byte lanes of the DataStore write port cover the line exactly. *)
Lemma elaborate_lanes_cover c cache g :
  construct c = Ok cache ->
  elaborate_geometry cache = Ok g ->
  lanes_cover g.
Proof.
  intros Hc Hg.
  destruct (construct_ok_shape c cache Hc)
    as (a & b & d & aw & gk & Ha & Hb & Haw & Hgk & Hgb & ->).
  destruct (elaborate_geometry_shape a b d aw gk Ha Hb ltac:(lia)) as (_ & _ & He).
  rewrite He in Hg. destruct (_ <? 0); [discriminate|].
  injection Hg as <-. unfold lanes_cover, en_len.
  cbn [granularity port_width].
  assert (Hq : 2 ^ d / 2 ^ gk = 2 ^ (d - gk)) by (rewrite Z.pow_sub_r by lia; reflexivity).
  rewrite Hq. split; [|split].
  - apply Z.pow_pos_nonneg; lia.
  - apply Z.pow_pos_nonneg; lia.
  - rewrite <- Z.pow_add_r by lia. f_equal. lia.
Qed.

(** On such a geometry the line and tag fields together are as wide as
    the backend Command address, so [Cat(line, tag)] fills it exactly. *)
Lemma elaborate_cmd_addr_width c cache g :
  construct c = Ok cache ->
  elaborate_geometry cache = Ok g ->
  line_bits g + tag_bits g = port_addr_width (dram_port cache).
Proof.
  intros Hc Hg.
  destruct (construct_ok_shape c cache Hc)
    as (a & b & d & aw & gk & Ha & Hb & Haw & Hgk & Hgb & ->).
  destruct (elaborate_geometry_shape a b d aw gk Ha Hb ltac:(lia)) as (_ & _ & He).
  rewrite He in Hg. destruct (_ <? 0); [discriminate|].
  injection Hg as <-. cbn [line_bits tag_bits dram_port port_addr_width]. lia.
Qed.

(** ** The controller: single ticks *)

Section ControllerFacts.

Variable g : geometry.

Lemma tag_mem_read_insert (m : gmap Z tag_word) a v :
  tag_mem_read (<[a := v]> m) a = v.
Proof. unfold tag_mem_read. now rewrite lookup_insert_eq. Qed.

Lemma tag_mem_read_insert_ne (m : gmap Z tag_word) a b v :
  a <> b -> tag_mem_read (<[a := v]> m) b = tag_mem_read m b.
Proof. intros Hne. unfold tag_mem_read. now rewrite lookup_insert_ne. Qed.

Lemma dat_mem_read_insert (m : gmap Z Z) a v :
  dat_mem_read (<[a := v]> m) a = v.
Proof. unfold dat_mem_read. now rewrite lookup_insert_eq. Qed.

Lemma dat_mem_read_insert_ne (m : gmap Z Z) a b v :
  a <> b -> dat_mem_read (<[a := v]> m) b = dat_mem_read m b.
Proof. intros Hne. unfold dat_mem_read. now rewrite lookup_insert_ne. Qed.

Lemma adr_line_in_depth a : lines_in_depth g -> in_depth g (adr_line g a) = true.
Proof.
  intros [Hl Hd]. unfold in_depth, adr_line, slice.
  pose proof (trunc_range (line_bits g) (Z.shiftr a (offset_bits g)) Hl) as Hr.
  apply andb_true_iff. split; [apply Z.leb_le | apply Z.ltb_lt]; lia.
Qed.

Lemma run_app s l1 l2 : run g s (l1 ++ l2) = run g (run g s l1) l2.
Proof. revert s. induction l1 as [| i l1 IH]; intros s; simpl; [reflexivity | apply IH]. Qed.

Lemma reachable_run s l : reachable g s -> reachable g (run g s l).
Proof.
  revert s. induction l as [| i l IH]; intros s Hs; simpl; [assumption|].
  apply IH. now constructor.
Qed.

Lemma reachable_from_reset l : reachable g (run g reset l).
Proof. apply reachable_run. constructor. Qed.

(** The acknowledge is driven in CHECK only. *)
Lemma ack_in_check s i : ack (comb g s i) = true -> fsm s = CHECK.
Proof. unfold comb. destruct (fsm s); simpl; [reflexivity | discriminate | discriminate]. Qed.

(** The next FSM state, case by case. *)
Lemma step_fsm_check s i :
  fsm s = CHECK ->
  fsm (step g s i) =
    if miss g s i then (if dirty (tag_rp_data s) then EVICT else REFILL) else CHECK.
Proof. intros H. unfold step. rewrite H. reflexivity. Qed.

Lemma step_fsm_evict s i :
  fsm s = EVICT ->
  fsm (step g s i) = if evict_done_cmd s && evict_done_w s then REFILL else EVICT.
Proof. intros H. unfold step. rewrite H. reflexivity. Qed.

Lemma step_fsm_refill s i :
  fsm s = REFILL ->
  fsm (step g s i) = if refill_done_cmd s && refill_done_r s then CHECK else REFILL.
Proof. intros H. unfold step. rewrite H. reflexivity. Qed.

(** Outside CHECK nothing touches the registered request or the read
    ports: their enables are low and their outputs hold. *)
Lemma step_holds_outside_check s i :
  fsm s <> CHECK ->
  tag_rp_en (comb g s i) = false /\
  dat_rp_en (comb g s i) = false /\
  intr_bus_r_cyc (step g s i) = intr_bus_r_cyc s /\
  intr_bus_r_stb (step g s i) = intr_bus_r_stb s /\
  intr_bus_r_adr (step g s i) = intr_bus_r_adr s /\
  tag_rp_data (step g s i) = tag_rp_data s /\
  dat_rp_data (step g s i) = dat_rp_data s.
Proof.
  intros Hf. unfold step, comb, tag_rp_next, dat_rp_next.
  destruct (fsm s); [congruence | |]; simpl; repeat split; reflexivity.
Qed.

(** A miss tick leaves the read ports disabled too, and registers the
    live address. *)
Lemma step_miss s i :
  fsm s = CHECK ->
  miss g s i = true ->
  ack (comb g s i) = false /\
  tag_rp_en (comb g s i) = false /\
  dat_rp_en (comb g s i) = false /\
  intr_bus_r_cyc (step g s i) = false /\
  intr_bus_r_stb (step g s i) = false /\
  intr_bus_r_adr (step g s i) = intr_adr g i /\
  tag_rp_data (step g s i) = tag_rp_data s /\
  dat_rp_data (step g s i) = dat_rp_data s /\
  tag_mem (step g s i) = tag_mem s /\
  dat_mem (step g s i) = dat_mem s.
Proof.
  intros Hf Hm. unfold step, comb, tag_rp_next, dat_rp_next, tag_mem_next, dat_mem_next.
  rewrite Hf. simpl. rewrite Hm.
  unfold miss, registered in Hm.
  apply andb_true_iff in Hm as [Hm Hreg].
  apply andb_true_iff in Hm as [Hreq Htag].
  apply negb_true_iff in Htag.
  apply andb_true_iff in Hreg as [Hc Hs].
  unfold registered. rewrite Hreq, Htag, Hc, Hs. simpl.
  rewrite !andb_false_r. simpl.
  repeat split; reflexivity.
Qed.

(** The flags and registers that are zero whenever their state is not
    the current one. *)
Definition flags_invariant (s : state) : Prop :=
  (fsm s <> EVICT -> evict_done_cmd s = false /\ evict_done_w s = false) /\
  (fsm s <> REFILL -> refill_done_cmd s = false /\ refill_done_r s = false) /\
  (fsm s <> CHECK -> intr_bus_r_cyc s = false /\ intr_bus_r_stb s = false).

Lemma flags_invariant_step s i : flags_invariant s -> flags_invariant (step g s i).
Proof.
  unfold flags_invariant. intros (He & Hr & Hc).
  unfold step, comb. destruct (fsm s) eqn:Hf; simpl.
  - destruct He as [He1 He2]; [discriminate|].
    destruct Hr as [Hr1 Hr2]; [discriminate|].
    rewrite He1, He2, Hr1, Hr2.
    destruct (miss g s i); [destruct (dirty (tag_rp_data s))|]; simpl;
      repeat split; intros; try reflexivity; congruence.
  - destruct Hr as [Hr1 Hr2]; [discriminate|].
    destruct Hc as [Hc1 Hc2]; [discriminate|].
    rewrite Hr1, Hr2, Hc1, Hc2.
    destruct (evict_done_cmd s), (evict_done_w s), (cmd_ready i), (w_ready i); simpl;
      repeat split; intros; try reflexivity; congruence.
  - destruct He as [He1 He2]; [discriminate|].
    destruct Hc as [Hc1 Hc2]; [discriminate|].
    rewrite He1, He2, Hc1, Hc2.
    destruct (refill_done_cmd s), (refill_done_r s), (cmd_ready i), (r_valid i); simpl;
      repeat split; intros; try reflexivity; congruence.
Qed.

Lemma reachable_flags s : reachable g s -> flags_invariant s.
Proof.
  induction 1 as [| s i Hs IH].
  - unfold flags_invariant; simpl. repeat split; reflexivity.
  - now apply flags_invariant_step.
Qed.

(** What the read ports show at a miss. A miss tick follows a CHECK tick
    with an active request that either was not acknowledged, or was
    acknowledged and looked ahead to the next beat of its burst. When the
    missing request is that same request held, or that next beat (and the
    acknowledged beat did not write the line looked ahead to), the read
    ports show the TagStore entry and the DataStore content of the line
    of the missing request. *)
Lemma miss_sees_missed_line sp ip i0 :
  reachable g sp ->
  fsm (step g sp ip) = CHECK ->
  miss g (step g sp ip) i0 = true ->
  (ack (comb g sp ip) = false /\ intr_adr g ip = intr_adr g i0) \/
  (ack (comb g sp ip) = true /\ trunc 3 (cti ip) = INCR_BURST /\
   intr_adr g i0 = intr_adr_next g (bte ip) (intr_adr g ip) /\
   (we ip = false \/ adr_line g (intr_adr g ip) <> adr_line g (intr_adr g i0))) ->
  tag_rp_data (step g sp ip) =
    tag_mem_read (tag_mem (step g sp ip)) (adr_line g (intr_adr g i0)) /\
  dat_rp_data (step g sp ip) =
    dat_mem_read (dat_mem (step g sp ip)) (adr_line g (intr_adr g i0)).
Proof.
  intros Hreach Hf0 Hm Hcase.
  assert (Hreg : registered (step g sp ip) = true).
  { unfold miss in Hm. apply andb_true_iff in Hm as [_ Hm]. exact Hm. }
  destruct (reachable_flags sp Hreach) as (_ & _ & Hc).
  destruct (fsm sp) eqn:Hf.
  - (* the previous tick was in CHECK *)
    unfold registered, step in Hreg. rewrite Hf in Hreg. simpl in Hreg.
    destruct (miss g sp ip) eqn:Hmp; [discriminate|].
    apply andb_true_iff in Hreg as [Hcyc Hstb].
    unfold comb in Hcase. rewrite Hf in Hcase. simpl in Hcase.
    unfold step, comb, tag_rp_next, dat_rp_next, tag_mem_next, dat_mem_next.
    rewrite Hf. simpl.
    unfold miss in Hmp. unfold request in *. rewrite Hcyc, Hstb in *. simpl in *.
    destruct Hcase as [[Hack Hadr] | (Hack & Hcti & Hadr & Hwr)].
    + assert (Hnr : registered sp = false).
      { destruct (registered sp); [|reflexivity].
        destruct (tag_match g sp ip); simpl in *; discriminate. }
      rewrite Hack. unfold registered in Hnr. rewrite andb_false_r. simpl.
      assert (Hen : negb (intr_bus_r_cyc sp) || negb (intr_bus_r_stb sp) || false = true).
      { destruct (intr_bus_r_cyc sp), (intr_bus_r_stb sp); simpl in *;
          (discriminate || reflexivity). }
      rewrite Hen, Hadr. split; reflexivity.
    + rewrite Hack. rewrite Hcti. simpl.
      rewrite !orb_true_r, andb_true_r, <- Hadr.
      destruct Hwr as [-> | Hne]; simpl.
      * split; reflexivity.
      * destruct (we ip); simpl; [|split; reflexivity].
        destruct (in_depth g (adr_line g (intr_adr g ip))); simpl;
          [|rewrite orb_true_r; split; reflexivity].
        rewrite orb_false_r, tag_mem_read_insert_ne by assumption.
        destruct (_ =? 0); [split; reflexivity|].
        rewrite dat_mem_read_insert_ne by assumption. split; reflexivity.
  - (* EVICT: the registered request is cleared *)
    destruct Hc as [Hc1 Hc2]; [discriminate|].
    unfold registered, step in Hreg. rewrite Hf in Hreg. simpl in Hreg.
    rewrite Hc1 in Hreg. discriminate.
  - destruct Hc as [Hc1 Hc2]; [discriminate|].
    unfold registered, step in Hreg. rewrite Hf in Hreg. simpl in Hreg.
    rewrite Hc1 in Hreg. discriminate.
Qed.


End ControllerFacts.

(** The test bench's cache and the one-line cache hold every line the
    line field can name; the cache of one byte holds none. *)
Lemma test_geometry_lines_in_depth : lines_in_depth test_geometry.
Proof. split; vm_compute; discriminate. Qed.

Lemma one_line_geometry_lines_in_depth : lines_in_depth one_line_geometry.
Proof. split; vm_compute; discriminate. Qed.

(** The two small geometries are what [elaborate] computes for caches
    the constructors accept. *)
Lemma small_geometries_constructed :
  (exists cache, construct one_line_configuration = Ok cache /\
                 elaborate_geometry cache = Ok one_line_geometry) /\
  (exists cache, construct zero_line_configuration = Ok cache /\
                 elaborate_geometry cache = Ok zero_line_geometry).
Proof. split; eexists; split; reflexivity. Qed.

(** ** CHECK: hit and miss *)

(** C1 (as amended). In CHECK the acknowledge is asserted exactly when a
    front-end request is active, the tag of the live address equals the
    tag on the TagStore read port, and the registered cyc and stb are both
    set; in particular a request presented while no request is registered
    is not acknowledged in that tick. When the live address is the
    registered one (the request was held), the compared tag is the
    registered request's tag. *)
Theorem check_ack_iff (g : geometry) (s : state) (i : inputs) :
  fsm s = CHECK ->
  (ack (comb g s i) = true <->
     request i = true /\
     adr_tag g (intr_adr g i) = tag (tag_rp_data s) /\
     registered s = true) /\
  (registered s = false -> ack (comb g s i) = false) /\
  (intr_adr g i = intr_bus_r_adr s -> request i = true ->
     (ack (comb g s i) = true <->
        adr_tag g (intr_bus_r_adr s) = tag (tag_rp_data s) /\ registered s = true)).
Proof.
  intros Hf. unfold comb. rewrite Hf. simpl.
  unfold tag_match. split; [|split].
  - rewrite !andb_true_iff, Z.eqb_eq. tauto.
  - intros ->. apply andb_false_r.
  - intros <- ->. simpl. rewrite andb_true_iff, Z.eqb_eq. tauto.
Qed.

(** The theorem on the second tick of a held read: the hit is acknowledged. *)
Lemma check_ack_iff_witness :
  ack (comb test_geometry (run test_geometry reset [burst_0]) burst_0) = true.
Proof.
  apply (proj1 (check_ack_iff test_geometry (run test_geometry reset [burst_0]) burst_0
                  eq_refl)).
  vm_compute. repeat split.
Defined.

(** C1 fails as stated, in both halves. After the beat at address 3 is
    acknowledged the burst moves to address 4: the registered request
    (address 3, tag 0) is outstanding and its tag equals the tag read
    (0), yet the acknowledge stays low, because the live tag (1) is the
    one compared. And the second beat of the burst at addresses 0, 1 is
    acknowledged in the first tick it is presented. *)
Lemma ack_judges_live_request :
  (let s := run test_geometry reset burst_crossing_run in
   fsm s = CHECK /\ request burst_4 = true /\
   registered s = true /\
   adr_tag test_geometry (intr_bus_r_adr s) = tag (tag_rp_data s) /\
   ack (comb test_geometry s burst_4) = false) /\
  (let s := run test_geometry reset burst_in_line_run in
   fsm s = CHECK /\ intr_bus_r_adr s = 0 /\ adr burst_1 = 1 /\
   ack (comb test_geometry s burst_1) = true) /\
  ~ (forall g s i, reachable g s -> fsm s = CHECK -> request i = true ->
       (ack (comb g s i) = true <->
          adr_tag g (intr_bus_r_adr s) = tag (tag_rp_data s) /\ registered s = true)).
Proof.
  split; [|split].
  - vm_compute. repeat split.
  - vm_compute. repeat split.
  - intros Hall.
    specialize (Hall test_geometry (run test_geometry reset burst_crossing_run) burst_4
                  (reachable_from_reset _ _) eq_refl eq_refl).
    assert (Hack : ack (comb test_geometry (run test_geometry reset burst_crossing_run)
                          burst_4) = true).
    { apply Hall. split; reflexivity. }
    vm_compute in Hack. discriminate.
Qed.

(** C5 (as amended). In CHECK, on a tick with an active front-end request
    while the registered cyc and stb are both set and the TagStore read
    port holds the stored entry of the request's line: when the tag of
    the live address differs from the stored tag, the registered cyc and
    stb are cleared and the FSM goes to EVICT when the stored line's
    dirty bit is set and to REFILL when it is clear. When the live
    address is the registered one, the tag that differs is the
    registered request's. The read port holds the stored entry in the
    tick after a request was probed, that is, presented while none was
    registered. *)
Theorem check_miss (g : geometry) (s : state) (i : inputs) :
  fsm s = CHECK ->
  request i = true ->
  registered s = true ->
  let stored := tag_mem_read (tag_mem s) (adr_line g (intr_adr g i)) in
  tag_rp_data s = stored ->
  adr_tag g (intr_adr g i) <> tag stored ->
  (intr_bus_r_cyc (step g s i) = false /\
   intr_bus_r_stb (step g s i) = false /\
   fsm (step g s i) = (if dirty stored then EVICT else REFILL) /\
   (intr_adr g i = intr_bus_r_adr s -> adr_tag g (intr_bus_r_adr s) <> tag stored)) /\
  (forall sp ip,
     fsm sp = CHECK -> registered sp = false -> request ip = true ->
     intr_adr g ip = intr_adr g i ->
     tag_rp_data (step g sp ip) =
       tag_mem_read (tag_mem (step g sp ip)) (adr_line g (intr_adr g i))).
Proof.
  intros Hf Hreq Hreg stored Hport Htag.
  split.
  - rewrite <- Hport in *.
    assert (Hm : miss g s i = true).
    { unfold miss, tag_match. rewrite Hreq, Hreg.
      apply Z.eqb_neq in Htag. rewrite Htag. reflexivity. }
    destruct (step_miss g s i Hf Hm) as (_ & _ & _ & Hc & Hs & _).
    rewrite (step_fsm_check g s i Hf), Hm.
    repeat split; try assumption. intros <-. assumption.
  - intros sp ip Hfp Hregp Hreqp Hadr.
    assert (Hen : negb (intr_bus_r_cyc sp) || negb (intr_bus_r_stb sp) = true).
    { unfold registered in Hregp.
      destruct (intr_bus_r_cyc sp), (intr_bus_r_stb sp); simpl in *;
        (discriminate || reflexivity). }
    unfold step, comb, tag_rp_next, tag_mem_next. rewrite Hfp.
    cbn [fsm tag_rp_data tag_mem comb_check tag_rp_en tag_rp_addr tag_wp_en].
    rewrite Hreqp, Hregp, Hen, Hadr. rewrite !andb_false_r. reflexivity.
Qed.

(** The theorem on the clean miss of address 4. *)
Lemma check_miss_witness :
  fsm (step test_geometry (run test_geometry reset [read_4]) read_4) = REFILL.
Proof.
  refine (proj1 (proj2 (proj2 (proj1 (check_miss test_geometry
            (run test_geometry reset [read_4]) read_4 eq_refl eq_refl eq_refl
            eq_refl _))))).
  vm_compute. discriminate.
Defined.

(** C5 fails as stated. After the beat at the top address 0xFFFFFF is
    acknowledged the LINEAR burst wraps to address 0: the registered
    request (tag 0x3FFFFF) is outstanding and its tag differs from the
    tag read (0, of line 0), yet the controller acknowledges the live
    request, keeps the registered cyc and stb set and stays in CHECK. *)
Lemma registered_mismatch_without_miss :
  (let s := run test_geometry reset burst_top_run in
   fsm s = CHECK /\ registered s = true /\
   adr_tag test_geometry (intr_bus_r_adr s) <> tag (tag_rp_data s) /\
   ack (comb test_geometry s burst_0) = true /\
   fsm (step test_geometry s burst_0) = CHECK /\
   intr_bus_r_cyc (step test_geometry s burst_0) = true /\
   intr_bus_r_stb (step test_geometry s burst_0) = true) /\
  ~ (forall g s i, reachable g s -> fsm s = CHECK -> registered s = true ->
       adr_tag g (intr_bus_r_adr s) <> tag (tag_rp_data s) ->
       intr_bus_r_cyc (step g s i) = false /\
       intr_bus_r_stb (step g s i) = false /\
       fsm (step g s i) = (if dirty (tag_rp_data s) then EVICT else REFILL)).
Proof.
  split.
  - vm_compute. repeat split. discriminate.
  - intros Hall.
    specialize (Hall test_geometry (run test_geometry reset burst_top_run) burst_0
                  (reachable_from_reset _ _) eq_refl eq_refl).
    destruct Hall as (Hc & _); [vm_compute; discriminate|].
    vm_compute in Hc. discriminate.
Qed.

(** ** EVICT and REFILL: what is held, and the acknowledge *)

Section MissHandling.

Variable g : geometry.

(** The FSM leaves EVICT / REFILL for CHECK only from REFILL with both
    completion flags set. *)
Lemma back_to_check s i :
  fsm s <> CHECK -> fsm (step g s i) = CHECK ->
  fsm s = REFILL /\ refill_done_cmd s && refill_done_r s = true.
Proof.
  intros Hf Hn. destruct (fsm s) eqn:Hs; [congruence | |].
  - rewrite (step_fsm_evict g s i Hs) in Hn.
    destruct (evict_done_cmd s && evict_done_w s); discriminate.
  - rewrite (step_fsm_refill g s i Hs) in Hn. split; [reflexivity|].
    destruct (refill_done_cmd s && refill_done_r s); [reflexivity | discriminate].
Qed.

(** C6. The acknowledge is low in EVICT and in REFILL, and after any tick
    spent in EVICT or REFILL an acknowledge comes only after the ticks of
    that miss handling, none of which acknowledges, the last of which is
    the REFILL tick with both completion flags set that returns the FSM
    to CHECK. *)
Theorem no_ack_during_miss (s : state) (i : inputs) (l : list inputs) :
  fsm s <> CHECK ->
  ack (comb g s i) = false /\
  (ack (comb g (run g s l) i) = true ->
   exists l1 j l2,
     l = l1 ++ j :: l2 /\
     Forall (fun t => fsm (fst t) <> CHECK /\ ack (comb g (fst t) (snd t)) = false)
       (ticks g s (l1 ++ [j])) /\
     fsm (run g s l1) = REFILL /\
     refill_done_cmd (run g s l1) && refill_done_r (run g s l1) = true /\
     fsm (run g s (l1 ++ [j])) = CHECK).
Proof.
  intros Hf.
  assert (Hlow : forall s' i', fsm s' <> CHECK -> ack (comb g s' i') = false).
  { intros s' i' Hs'. destruct (ack (comb g s' i')) eqn:Ha; [|reflexivity].
    apply ack_in_check in Ha. congruence. }
  split; [now apply Hlow|].
  revert s Hf. induction l as [| j l' IH]; intros s Hf Hack; simpl in Hack.
  - rewrite Hlow in Hack by assumption. discriminate.
  - destruct (fsm_state_eq_dec (fsm (step g s j)) CHECK) as [Hc | Hnc].
    + destruct (back_to_check s j Hf Hc) as [Hr Hall].
      exists [], j, l'. simpl. repeat split; try assumption.
      constructor; [|constructor]. simpl. split; [assumption | now apply Hlow].
    + destruct (IH (step g s j) Hnc Hack) as (l1 & k & l2 & Hl & Hall & Hr & Hd & Hc).
      exists (j :: l1), k, l2. simpl. repeat split; try assumption.
      * now rewrite Hl.
      * constructor; [|assumption]. simpl. split; [assumption | now apply Hlow].
Qed.

End MissHandling.

(** The theorem on the clean miss of address 4: no acknowledge in REFILL,
    and the acknowledge three ticks later comes after the return to CHECK. *)
Lemma no_ack_during_miss_witness :
  let s := run test_geometry reset clean_miss_run in
  let l := [with_backend read_4 true false true 0xCAFE; read_4; read_4] in
  ack (comb test_geometry s read_4) = false /\
  exists l1 j l2,
    l = l1 ++ j :: l2 /\ fsm (run test_geometry s (l1 ++ [j])) = CHECK.
Proof.
  intros s l.
  destruct (no_ack_during_miss test_geometry s read_4 l) as [Hlow Hex].
  - vm_compute. discriminate.
  - split; [exact Hlow|].
    destruct Hex as (l1 & j & l2 & Hl & _ & _ & _ & Hc); [reflexivity|].
    exists l1, j, l2. split; assumption.
Defined.

Section HeldValues.

Variable g : geometry.

(** Across any number of ticks spent outside CHECK the registered
    request and both read-port outputs keep their values. *)
Lemma held_outside_check l : forall s,
  Forall (fun t => fsm (fst t) <> CHECK) (ticks g s l) ->
  Forall (fun t =>
            intr_bus_r_cyc (fst t) = intr_bus_r_cyc s /\
            intr_bus_r_stb (fst t) = intr_bus_r_stb s /\
            intr_bus_r_adr (fst t) = intr_bus_r_adr s /\
            tag_rp_data (fst t) = tag_rp_data s /\
            dat_rp_data (fst t) = dat_rp_data s)
    (ticks g s l) /\
  intr_bus_r_cyc (run g s l) = intr_bus_r_cyc s /\
  intr_bus_r_stb (run g s l) = intr_bus_r_stb s /\
  intr_bus_r_adr (run g s l) = intr_bus_r_adr s /\
  tag_rp_data (run g s l) = tag_rp_data s /\
  dat_rp_data (run g s l) = dat_rp_data s.
Proof.
  induction l as [| i l IH]; intros s Hall; simpl in *.
  - split; [constructor | repeat split].
  - inversion Hall as [| t ts Hs Hrest]; subst. simpl in Hs.
    destruct (step_holds_outside_check g s i Hs) as (_ & _ & Hc & Hb & Ha & Ht & Hd).
    destruct (IH (step g s i) Hrest) as (Hticks & Hc' & Hb' & Ha' & Ht' & Hd').
    split.
    + constructor; [simpl; repeat split|].
      eapply List.Forall_impl; [|exact Hticks].
      intros t (H1 & H2 & H3 & H4 & H5). repeat split; congruence.
    + repeat split; congruence.
Qed.


End HeldValues.

(** On the dirty miss of address 4 the read ports show line 0 as the
    write to address 0 left it: tag 0, dirty, data 0xAA. *)
Example dirty_miss_sees_line_0 :
  let s0 := run test_geometry reset dirty_miss_run in
  miss test_geometry s0 read_4 = true /\
  tag_rp_data s0 = tag_mem_read (tag_mem s0) 0 /\
  dat_rp_data s0 = dat_mem_read (dat_mem s0) 0 /\
  tag_rp_data s0 = {| tag := 0; dirty := true |} /\
  dat_rp_data s0 = 0xAA.
Proof. vm_compute. repeat split. Qed.


(** ** REFILL: the commit *)

Section Refill.

Variable g : geometry.
Hypothesis Hdepth : lines_in_depth g.

(** The entry the refill commits: the registered tag, clean. *)
Definition refilled_entry (s : state) : tag_word :=
  {| tag := adr_tag g (intr_bus_r_adr s); dirty := false |}.

(** The tick that accepts the ReadBeat writes the TagStore entry of the
    registered line and sets the ReadBeat completion flag. *)
Lemma refill_accept_commits s i :
  fsm s = REFILL ->
  r_fire g (s, i) = true ->
  tag_mem_read (tag_mem (step g s i)) (adr_line g (intr_bus_r_adr s)) = refilled_entry s /\
  refill_done_r (step g s i) = true /\
  intr_bus_r_adr (step g s i) = intr_bus_r_adr s.
Proof.
  intros Hf Hfire. unfold r_fire, comb in Hfire. simpl in Hfire. rewrite Hf in Hfire.
  simpl in Hfire.
  unfold step, comb, tag_mem_next. rewrite Hf. simpl.
  rewrite Hfire, (adr_line_in_depth g _ Hdepth). simpl.
  split; [apply tag_mem_read_insert | split; reflexivity].
Qed.

(** While REFILL waits with the ReadBeat already accepted, the committed
    entry is in the TagStore. *)
Definition refill_invariant (s : state) : Prop :=
  fsm s = REFILL -> refill_done_r s = true ->
  tag_mem_read (tag_mem s) (adr_line g (intr_bus_r_adr s)) = refilled_entry s.

Lemma refill_invariant_step s i :
  flags_invariant s -> refill_invariant s -> refill_invariant (step g s i).
Proof.
  intros (He & Hr & Hc) Hinv Hf' Hd'.
  destruct (fsm s) eqn:Hf.
  - (* CHECK: the flag is still clear on entry *)
    destruct Hr as [_ Hr2]; [congruence|].
    unfold step in Hd'. rewrite Hf in Hd'. simpl in Hd'. congruence.
  - (* EVICT: likewise *)
    destruct Hr as [_ Hr2]; [congruence|].
    unfold step in Hd'. rewrite Hf in Hd'. simpl in Hd'. congruence.
  - (* REFILL *)
    destruct (r_fire g (s, i)) eqn:Hfire.
    + destruct (refill_accept_commits s i Hf Hfire) as (Hmem & _ & Ha).
      unfold refilled_entry in *. rewrite Ha. exact Hmem.
    + assert (Hsame : tag_mem (step g s i) = tag_mem s /\
                      intr_bus_r_adr (step g s i) = intr_bus_r_adr s /\
                      (refill_done_r (step g s i) = true -> refill_done_r s = true)).
      { unfold r_fire, comb in Hfire. simpl in Hfire. rewrite Hf in Hfire. simpl in Hfire.
        unfold step, comb, tag_mem_next. rewrite Hf. simpl. rewrite Hfire.
        repeat split.
        destruct (refill_done_cmd s && refill_done_r s); [discriminate | trivial]. }
      destruct Hsame as (Hm & Ha & Hd).
      unfold refilled_entry in *. rewrite Hm, Ha. apply Hinv; [assumption | now apply Hd].
Qed.

Lemma reachable_refill_invariant s : reachable g s -> refill_invariant s.
Proof.
  induction 1 as [| s i Hs IH].
  - intros Hf. discriminate.
  - apply refill_invariant_step; [now apply (reachable_flags g) | assumption].
Qed.

(** C3 (as amended). On a cache that holds at least one line, so that
    every line index names a cell of the TagStore: at every
    REFILL-to-CHECK transition the TagStore entry of the target line
    holds the registered (missed) request's tag with the dirty bit
    clear; the transition tick itself writes nothing, the ReadBeat
    having been accepted before it, and the tick that accepts the
    ReadBeat is the one that writes the entry. *)
Theorem refill_commits_tag (s : state) (i : inputs) :
  reachable g s ->
  fsm s = REFILL ->
  fsm (step g s i) = CHECK ->
  let s' := step g s i in
  tag_mem_read (tag_mem s') (adr_line g (intr_bus_r_adr s')) =
    {| tag := adr_tag g (intr_bus_r_adr s'); dirty := false |} /\
  refill_done_r s = true /\
  tag_mem s' = tag_mem s /\
  (forall s1 i1,
      fsm s1 = REFILL -> r_valid i1 = true -> refill_done_r s1 = false ->
      tag_mem_read (tag_mem (step g s1 i1)) (adr_line g (intr_bus_r_adr s1)) =
        {| tag := adr_tag g (intr_bus_r_adr s1); dirty := false |} /\
      refill_done_r (step g s1 i1) = true).
Proof.
  intros Hreach Hf Hn s'.
  destruct (back_to_check g s i) as [_ Hall]; [congruence | assumption |].
  apply andb_true_iff in Hall as [Hdc Hdr].
  assert (Hsame : tag_mem s' = tag_mem s /\ intr_bus_r_adr s' = intr_bus_r_adr s).
  { unfold s', step, comb, tag_mem_next. rewrite Hf. simpl. rewrite Hdr.
    rewrite andb_false_r. split; reflexivity. }
  destruct Hsame as [Hm Ha].
  split; [|split; [assumption | split; [assumption|]]].
  - rewrite Hm, Ha. now apply (reachable_refill_invariant s Hreach).
  - intros s1 i1 Hf1 Hv Hd.
    destruct (refill_accept_commits s1 i1 Hf1) as (Hc & Hr & _).
    + unfold r_fire, comb. simpl. rewrite Hf1. simpl. rewrite Hv, Hd. reflexivity.
    + split; assumption.
Qed.

End Refill.

(** The theorem on the refill of address 4 (tag 1, line 0). *)
Lemma refill_commits_tag_witness :
  let s := run test_geometry reset refill_run in
  tag_mem_read (tag_mem (step test_geometry s read_4)) 0 = {| tag := 1; dirty := false |}.
Proof.
  intros s.
  exact (proj1 (refill_commits_tag test_geometry test_geometry_lines_in_depth s read_4
                  (reachable_from_reset test_geometry refill_run) eq_refl eq_refl)).
Defined.

(** C3 fails as stated. A cache of one byte on the 32-bit port is
    accepted by the constructors and has no line: its TagStore has depth
    zero. The read of address 2 (tag 1) misses, the refill accepts the
    ReadBeat and returns to CHECK, and the TagStore, which has no cell
    to write, still reads tag 0 at the target line. *)
Lemma refill_stores_nothing_without_lines :
  (exists cache, construct zero_line_configuration = Ok cache /\
                 elaborate_geometry cache = Ok zero_line_geometry) /\
  (let s := run zero_line_geometry reset zero_line_refill_run in
   let s' := step zero_line_geometry s read_2 in
   fsm s = REFILL /\ fsm s' = CHECK /\
   adr_tag zero_line_geometry (intr_bus_r_adr s') = 1 /\
   tag_mem_read (tag_mem s') (adr_line zero_line_geometry (intr_bus_r_adr s')) =
     {| tag := 0; dirty := false |}) /\
  ~ (forall g s i,
       reachable g s -> fsm s = REFILL -> fsm (step g s i) = CHECK ->
       tag_mem_read (tag_mem (step g s i)) (adr_line g (intr_bus_r_adr (step g s i))) =
         {| tag := adr_tag g (intr_bus_r_adr (step g s i)); dirty := false |}).
Proof.
  split; [|split].
  - eexists. split; reflexivity.
  - vm_compute. repeat split.
  - intros Hall.
    specialize (Hall zero_line_geometry
                  (run zero_line_geometry reset zero_line_refill_run) read_2
                  (reachable_from_reset _ _) eq_refl eq_refl).
    vm_compute in Hall. discriminate.
Qed.

(** ** EVICT: one Command and one WriteBeat *)

Section Evict.

Variable g : geometry.

(** One EVICT tick that stays in EVICT: each completion flag is set by
    its own handshake and by nothing else. *)
Lemma evict_step_flags s i :
  fsm s = EVICT ->
  evict_done_cmd s && evict_done_w s = false ->
  fsm (step g s i) = EVICT /\
  evict_done_cmd (step g s i) = evict_done_cmd s || cmd_fire g (s, i) /\
  evict_done_w (step g s i) = evict_done_w s || w_fire g (s, i).
Proof.
  intros Hf Hall. unfold cmd_fire, w_fire, step, comb. simpl. rewrite Hf. simpl.
  rewrite Hall.
  destruct (evict_done_cmd s), (evict_done_w s), (cmd_ready i), (w_ready i);
    simpl in *; repeat split; congruence.
Qed.

(** The EVICT tick with both flags set: no handshake, both flags reset,
    next state REFILL. *)
Lemma evict_step_done s i :
  fsm s = EVICT ->
  evict_done_cmd s && evict_done_w s = true ->
  fsm (step g s i) = REFILL /\
  evict_done_cmd (step g s i) = false /\
  evict_done_w (step g s i) = false /\
  cmd_fire g (s, i) = false /\
  w_fire g (s, i) = false.
Proof.
  intros Hf Hall. unfold cmd_fire, w_fire, step, comb. simpl. rewrite Hf. simpl.
  rewrite Hall. apply andb_true_iff in Hall as [-> ->]. simpl.
  repeat split; reflexivity.
Qed.

(** The outputs of an EVICT tick. *)
Lemma evict_outputs s i :
  fsm s = EVICT ->
  let c := comb g s i in
  cmd_valid c = negb (evict_done_cmd s) /\
  cmd_we c = true /\
  cmd_last c = false /\
  cmd_addr c = Cat (line_bits g) (adr_line g (intr_bus_r_adr s)) (tag (tag_rp_data s)) /\
  w_valid c = negb (evict_done_w s) /\
  w_data c = dat_rp_data s /\
  w_we c = Z.ones (port_width g / 8).
Proof. intros Hf. unfold comb. rewrite Hf. simpl. repeat split; reflexivity. Qed.

Lemma ticks_head_state s l t l2 : ticks g s l = t :: l2 -> fst t = s.
Proof. destruct l as [| i l]; simpl; intros H; inversion H; reflexivity. Qed.

(** A pass through EVICT from a state with completion flags [c], [w]:
    it completes the handshakes still missing, ends in REFILL with both
    flags reset, and its last tick is the one that sees both flags set. *)
Lemma evict_pass_from l : forall s,
  fsm s = EVICT ->
  Forall (fun t => fsm (fst t) = EVICT) (ticks g s l) ->
  fsm (run g s l) <> EVICT ->
  count (cmd_fire g) (ticks g s l) = (if evict_done_cmd s then 0 else 1)%nat /\
  count (w_fire g) (ticks g s l) = (if evict_done_w s then 0 else 1)%nat /\
  fsm (run g s l) = REFILL /\
  evict_done_cmd (run g s l) = false /\
  evict_done_w (run g s l) = false /\
  exists l' i,
    l = l' ++ [i] /\
    evict_done_cmd (run g s l') = true /\ evict_done_w (run g s l') = true.
Proof.
  induction l as [| i l IH]; intros s Hf Hall Hend; simpl in *; [congruence|].
  inversion Hall as [| t ts _ Hrest]; subst.
  destruct (evict_done_cmd s && evict_done_w s) eqn:Hboth.
  - destruct (evict_step_done s i Hf Hboth) as (Hn & Hc & Hw & Hcf & Hwf).
    destruct l as [| i' l].
    + simpl. rewrite Hcf, Hwf.
      apply andb_true_iff in Hboth as [Hbc Hbw]. rewrite Hbc, Hbw.
      repeat split; try assumption.
      exists [], i. simpl. auto.
    + simpl in Hrest. inversion Hrest as [| t ts Hbad _]; subst. simpl in Hbad. congruence.
  - destruct (evict_step_flags s i Hf Hboth) as (Hn & Hc & Hw).
    destruct (IH (step g s i) Hn Hrest Hend)
      as (Hcc & Hcw & Hfin & Hfc & Hfw & l' & k & Hl & Hdc & Hdw).
    rewrite Hcc, Hcw, Hc, Hw.
    split; [|split; [|split; [assumption | split; [assumption | split; [assumption|]]]]].
    + unfold cmd_fire at 1. simpl.
      rewrite (proj1 (evict_outputs s i Hf)).
      unfold cmd_fire. simpl. rewrite (proj1 (evict_outputs s i Hf)).
      destruct (evict_done_cmd s), (cmd_ready i); reflexivity.
    + unfold w_fire at 1. simpl.
      destruct (evict_outputs s i Hf) as (_ & _ & _ & _ & Hwv & _).
      rewrite Hwv. unfold w_fire. simpl. rewrite Hwv.
      destruct (evict_done_w s), (w_ready i); reflexivity.
    + exists (i :: l'), k. simpl. rewrite Hl. auto.
Qed.

(** Each channel's valid is asserted in a tick of the pass exactly when
    its own handshake has not completed in an earlier tick. *)
Lemma evict_valid_until_ready l : forall s l1 t l2,
  fsm s = EVICT ->
  Forall (fun t => fsm (fst t) = EVICT) (ticks g s l) ->
  ticks g s l = l1 ++ t :: l2 ->
  cmd_valid (comb g (fst t) (snd t)) =
    negb (evict_done_cmd s || existsb (cmd_fire g) l1) /\
  w_valid (comb g (fst t) (snd t)) =
    negb (evict_done_w s || existsb (w_fire g) l1).
Proof.
  induction l as [| i l IH]; intros s l1 t l2 Hf Hall Heq; simpl in *.
  - destruct l1; discriminate.
  - inversion Hall as [| t0 ts _ Hrest]; subst.
    destruct l1 as [| t1 l1]; simpl in Heq; inversion Heq; subst; simpl.
    + destruct (evict_outputs s i Hf) as (Hcv & _ & _ & _ & Hwv & _).
      rewrite Hcv, Hwv, !orb_false_r. split; reflexivity.
    + assert (Hn : fsm (step g s i) = EVICT).
      { destruct l1 as [| t1 l1]; simpl in *.
        - rewrite H1 in Hrest. inversion Hrest as [| ? ? Ht _]; subst.
          now rewrite (ticks_head_state _ _ _ _ H1) in Ht.
        - rewrite H1 in Hrest. inversion Hrest as [| ? ? Ht _]; subst.
          now rewrite (ticks_head_state _ _ _ _ H1) in Ht. }
      assert (Hboth : evict_done_cmd s && evict_done_w s = false).
      { destruct (evict_done_cmd s && evict_done_w s) eqn:Hb; [|reflexivity].
        destruct (evict_step_done s i Hf Hb) as (Hr & _). congruence. }
      destruct (evict_step_flags s i Hf Hboth) as (_ & Hc & Hw).
      destruct (IH (step g s i) l1 t l2 Hn Hrest H1) as [Hcv Hwv].
      rewrite Hcv, Hwv, Hc, Hw, !orb_assoc. split; reflexivity.
Qed.

End Evict.

Section EvictPass.

Variable g : geometry.

(** X17. One pass through EVICT, from the miss tick that enters it to the
    tick that leaves it: exactly one Command handshake and exactly one
    WriteBeat handshake complete; in every tick of the pass the Command
    is a write ([we] set, [last] clear) to the address made of the line
    index of the request that missed and the tag that was on the
    TagStore read port at the miss, and the WriteBeat carries the line
    that was on the DataStore read port at the miss, which need not be
    the line's content in the DataStore, with every byte lane enabled; each valid is asserted exactly until its own
    handshake has completed, whatever the other channel does; the pass
    ends in REFILL with both completion flags reset, and its last tick is
    one that sees both flags set. *)
Theorem evict_pass (s0 : state) (i0 : inputs) (l : list inputs) :
  reachable g s0 ->
  fsm s0 = CHECK ->
  fsm (step g s0 i0) = EVICT ->
  Forall (fun t => fsm (fst t) = EVICT) (ticks g (step g s0 i0) l) ->
  fsm (run g (step g s0 i0) l) <> EVICT ->
  let s := step g s0 i0 in
  count (cmd_fire g) (ticks g s l) = 1%nat /\
  count (w_fire g) (ticks g s l) = 1%nat /\
  Forall (fun t =>
            let c := comb g (fst t) (snd t) in
            cmd_we c = true /\
            cmd_last c = false /\
            cmd_addr c =
              Cat (line_bits g) (adr_line g (intr_adr g i0)) (tag (tag_rp_data s0)) /\
            w_data c = dat_rp_data s0 /\
            w_we c = Z.ones (port_width g / 8))
    (ticks g s l) /\
  (forall l1 t l2,
      ticks g s l = l1 ++ t :: l2 ->
      cmd_valid (comb g (fst t) (snd t)) = negb (existsb (cmd_fire g) l1) /\
      w_valid (comb g (fst t) (snd t)) = negb (existsb (w_fire g) l1)) /\
  fsm (run g s l) = REFILL /\
  evict_done_cmd (run g s l) = false /\
  evict_done_w (run g s l) = false /\
  exists l' i,
    l = l' ++ [i] /\
    evict_done_cmd (run g s l') = true /\ evict_done_w (run g s l') = true.
Proof.
  intros Hreach Hf Hn Hall Hend s.
  assert (Hm : miss g s0 i0 = true).
  { rewrite (step_fsm_check g s0 i0 Hf) in Hn.
    destruct (miss g s0 i0); [reflexivity | discriminate]. }
  destruct (step_miss g s0 i0 Hf Hm) as (_ & _ & _ & _ & _ & Ha & Ht & Hd & _).
  destruct (reachable_flags g s0 Hreach) as (He & _).
  destruct He as [Hec Hew]; [congruence|].
  assert (Hflags : evict_done_cmd s = false /\ evict_done_w s = false).
  { unfold s, step. rewrite Hf. simpl. split; assumption. }
  destruct Hflags as [Hsc Hsw].
  destruct (evict_pass_from g l s Hn Hall Hend) as (Hcc & Hcw & Hfin & Hfc & Hfw & Hlast).
  rewrite Hsc in Hcc. rewrite Hsw in Hcw.
  assert (Hout : Forall (fun t => fsm (fst t) <> CHECK) (ticks g s l)).
  { eapply List.Forall_impl; [|exact Hall]. intros t Ht'. congruence. }
  destruct (held_outside_check g l s Hout) as (Hheld & _).
  split; [assumption|]. split; [assumption|].
  split; [|split; [|split; [assumption | split; [assumption | split; assumption]]]].
  - apply Forall_forall. intros [s1 i1] Hin.
    rewrite Forall_forall in Hheld, Hall.
    destruct (Hheld _ Hin) as (_ & _ & Ha1 & Ht1 & Hd1).
    specialize (Hall _ Hin). simpl in *.
    destruct (evict_outputs g s1 i1 Hall) as (_ & Hwe & Hla & Had & _ & Hda & Hen).
    fold s in Ha, Ht, Hd.
    repeat split; try assumption; congruence.
  - intros l1 t l2 Heq.
    destruct (evict_valid_until_ready g l s l1 t l2 Hn Hall Heq) as [Hcv Hwv].
    rewrite Hsc in Hcv. rewrite Hsw in Hwv. split; assumption.
Qed.

End EvictPass.

(** The theorem on the dirty miss of address 4, Command taken one tick
    before the WriteBeat. *)
Lemma evict_pass_witness :
  let s := step test_geometry (run test_geometry reset dirty_miss_run) read_4 in
  count (cmd_fire test_geometry) (ticks test_geometry s evict_cmd_first) = 1%nat /\
  count (w_fire test_geometry) (ticks test_geometry s evict_cmd_first) = 1%nat /\
  fsm (run test_geometry s evict_cmd_first) = REFILL.
Proof.
  intros s.
  destruct (evict_pass test_geometry (run test_geometry reset dirty_miss_run) read_4
              evict_cmd_first) as (Hc & Hw & _ & _ & Hf & _).
  - apply reachable_from_reset.
  - reflexivity.
  - reflexivity.
  - vm_compute. repeat constructor.
  - vm_compute. discriminate.
  - split; [exact Hc|]. split; [exact Hw | exact Hf].
Defined.

(** The two handshakes of a pass complete in either order or in the same
    tick: the same dirty miss with the Command first, with the WriteBeat
    first, and with both in one tick. *)
Lemma evict_either_order :
  let s := step test_geometry (run test_geometry reset dirty_miss_run) read_4 in
  map (fun t => (cmd_fire test_geometry t, w_fire test_geometry t))
      (ticks test_geometry s evict_cmd_first) =
    [(true, false); (false, true); (false, false)] /\
  map (fun t => (cmd_fire test_geometry t, w_fire test_geometry t))
      (ticks test_geometry s evict_w_first) =
    [(false, true); (true, false); (false, false)] /\
  map (fun t => (cmd_fire test_geometry t, w_fire test_geometry t))
      (ticks test_geometry s evict_together) =
    [(true, true); (false, false)] /\
  fsm (run test_geometry s evict_cmd_first) = REFILL /\
  fsm (run test_geometry s evict_w_first) = REFILL /\
  fsm (run test_geometry s evict_together) = REFILL.
Proof. vm_compute. repeat split. Qed.

(** C4. The WriteBeat of an eviction is not always the content of the
    evicted line. On the cache of one line, in a run the formal test
    bench's bus assumptions allow: 0xAA is written to address 0, then a
    write burst stores 0xBB at address 1, in the same line, and goes on
    at address 2 under another tag. The tick that acknowledges the
    beat at address 1 stores 0xBB and, looking ahead, samples the line
    on the read ports as it is before the store. The beat at address 2
    misses; the eviction writes to backend address 0, with every
    handshake the claim describes, the line 0x000000AA from the read
    port, and the DataStore holds 0x00BB00AA: the word 0xBB never
    reaches the backing store. *)
Theorem evict_writes_stale_line :
  let g := one_line_geometry in
  let s := run g reset stale_evict_run in
  let c := comb g s stale_evict_tick in
  harness_conformant g (stale_evict_run ++ [stale_evict_tick]) = true /\
  fsm s = EVICT /\
  cmd_fire g (s, stale_evict_tick) = true /\
  w_fire g (s, stale_evict_tick) = true /\
  cmd_we c = true /\
  cmd_addr c = Cat (line_bits g) 0 (tag (tag_mem_read (tag_mem s) 0)) /\
  tag_mem_read (tag_mem s) 0 = {| tag := 0; dirty := true |} /\
  dat_mem_read (dat_mem s) 0 = 0x00BB00AA /\
  w_data c = 0x000000AA /\
  w_data c <> dat_mem_read (dat_mem s) 0.
Proof. vm_compute. repeat split. discriminate. Qed.

(** The same lookahead on the line as it is after reset, clean: the
    write of 0xBB to address 1 sets the stored dirty bit, the read port
    holds the entry sampled before it, clean, and the miss of the beat
    at address 2 goes to REFILL with the stored line dirty; the refill
    then replaces the line. *)
Example stale_dirty_skips_eviction :
  let g := one_line_geometry in
  let s := run g reset stale_dirty_run in
  let i := burst_write 2 0xCC in
  harness_conformant g (stale_dirty_run ++ [i]) = true /\
  fsm s = CHECK /\ registered s = true /\ request i = true /\
  dirty (tag_mem_read (tag_mem s) (adr_line g (intr_adr g i))) = true /\
  dat_mem_read (dat_mem s) 0 = 0x00BB0000 /\
  dirty (tag_rp_data s) = false /\
  adr_tag g (intr_adr g i) <> tag (tag_rp_data s) /\
  fsm (step g s i) = REFILL /\
  dat_mem_read
    (dat_mem (run g s [i; with_backend i true false false 0;
                       with_backend i false false true 0x11112222; i])) 0 =
    0x11112222.
Proof. vm_compute. repeat split. discriminate. Qed.

(** ** The dirty bit *)

Lemma trunc_idemp w x : trunc w (trunc w x) = trunc w x.
Proof. unfold trunc. now rewrite <- Z.land_assoc, Z.land_diag. Qed.

Lemma ones_succ_testbit0 n : Z.testbit (Z.ones (Z.of_nat (S n))) 0 = true.
Proof. apply Z.ones_spec_low. lia. Qed.

Lemma ones_succ_shiftr n : Z.shiftr (Z.ones (Z.of_nat (S n))) 1 = Z.ones (Z.of_nat n).
Proof.
  rewrite Z.shiftr_div_pow2 by lia.
  rewrite Z.ones_div_pow2 by lia. f_equal. lia.
Qed.

(** A write with every lane enabled stores the new word. *)
Lemma write_lanes_ones gran n : forall old new,
  0 <= gran ->
  write_lanes gran n (Z.ones (Z.of_nat n)) old new = trunc (Z.of_nat n * gran) new.
Proof.
  induction n as [| n IH]; intros old new Hg.
  - simpl. unfold trunc. simpl. now rewrite Z.land_0_r.
  - cbn [write_lanes]. rewrite ones_succ_testbit0, ones_succ_shiftr, IH by assumption.
    assert (Hp : 0 < 2 ^ gran) by (apply Z.pow_pos_nonneg; lia).
    assert (Hq : 0 < 2 ^ (Z.of_nat n * gran)) by (apply Z.pow_pos_nonneg; lia).
    rewrite Cat_add; [| assumption | now apply trunc_range].
    rewrite !trunc_mod by lia.
    rewrite Z.shiftr_div_pow2 by assumption.
    replace (Z.of_nat (S n) * gran) with (gran + Z.of_nat n * gran) by lia.
    rewrite Z.pow_add_r by lia.
    rewrite Z.rem_mul_r by lia. lia.
Qed.

Section Dirty.

Variable g : geometry.
Hypothesis Hlanes : lanes_cover g.
Hypothesis Hdepth : lines_in_depth g.

(** The word a refill stores is the ReadBeat's data. *)
Lemma refill_word old d :
  write_lanes (granularity g) (Z.to_nat (en_len g)) (Z.ones (en_len g)) old
    (trunc (port_width g) d) = trunc (port_width g) d.
Proof.
  destruct Hlanes as (Hg & He & Hw).
  rewrite <- (Z2Nat.id (en_len g)) at 2 by lia.
  rewrite write_lanes_ones by lia.
  rewrite Z2Nat.id by lia. rewrite Hw. apply trunc_idemp.
Qed.

Lemma ones_en_len_nonzero : (Z.ones (en_len g) =? 0) = false.
Proof.
  destruct Hlanes as (_ & He & _). apply Z.eqb_neq.
  rewrite Z.ones_equiv.
  assert (1 < 2 ^ en_len g).
  { replace 1 with (2 ^ 0) by reflexivity. apply Z.pow_lt_mono_r; lia. }
  lia.
Qed.

(** A clean line holds the data last delivered for it. *)
Definition clean_is_delivered (s : state) (m : gmap Z Z) : Prop :=
  forall line,
    dirty (tag_mem_read (tag_mem s) line) = false ->
    dat_mem_read (dat_mem s) line = default 0 (m !! line).

Lemma clean_is_delivered_step s i m :
  clean_is_delivered s m ->
  clean_is_delivered (step g s i)
    (if r_fire g (s, i)
     then <[adr_line g (intr_bus_r_adr s) := trunc (port_width g) (r_data i)]> m
     else m).
Proof.
  intros Hinv line.
  unfold r_fire, step, comb, tag_mem_next, dat_mem_next. simpl.
  destruct (fsm s) eqn:Hf; simpl.
  - (* CHECK *)
    rewrite andb_false_r, (adr_line_in_depth g (intr_adr g i) Hdepth).
    rewrite andb_true_r. cbn [negb]. rewrite orb_false_r.
    destruct (we i && (request i && tag_match g s i && registered s)) eqn:Hwr.
    + destruct (Z.eq_dec (adr_line g (intr_adr g i)) line) as [<- | Hne].
      * rewrite tag_mem_read_insert. simpl. discriminate.
      * rewrite tag_mem_read_insert_ne by assumption.
        destruct (_ =? 0); [apply Hinv|].
        rewrite dat_mem_read_insert_ne by assumption. apply Hinv.
    + simpl. apply Hinv.
  - (* EVICT *)
    rewrite andb_false_r. simpl. apply Hinv.
  - (* REFILL *)
    rewrite (adr_line_in_depth g (intr_bus_r_adr s) Hdepth).
    rewrite andb_true_r. cbn [negb]. rewrite orb_false_r.
    destruct (r_valid i && negb (refill_done_r s)) eqn:Hfire.
    + rewrite ones_en_len_nonzero.
      destruct (Z.eq_dec (adr_line g (intr_bus_r_adr s)) line) as [<- | Hne].
      * intros _. rewrite dat_mem_read_insert, lookup_insert_eq. simpl.
        apply refill_word.
      * rewrite tag_mem_read_insert_ne, dat_mem_read_insert_ne by assumption.
        rewrite lookup_insert_ne by assumption. apply Hinv.
    + simpl. apply Hinv.
Qed.

Lemma clean_is_delivered_run l : forall s m,
  clean_is_delivered s m ->
  clean_is_delivered (run g s l) (delivered g s m l).
Proof.
  induction l as [| i l IH]; intros s m Hinv; simpl; [assumption|].
  apply IH. now apply clean_is_delivered_step.
Qed.

(** An acknowledged write sets the dirty bit of its line, whatever the
    data written. *)
Lemma write_hit_sets_dirty s i :
  fsm s = CHECK -> ack (comb g s i) = true -> we i = true ->
  dirty (tag_mem_read (tag_mem (step g s i)) (adr_line g (intr_adr g i))) = true.
Proof.
  intros Hf Hack Hwe. unfold comb in Hack. rewrite Hf in Hack. simpl in Hack.
  unfold step, comb, tag_mem_next. rewrite Hf. simpl.
  rewrite Hack, Hwe, (adr_line_in_depth g _ Hdepth). simpl.
  now rewrite tag_mem_read_insert.
Qed.

End Dirty.

(** C2 (as amended). On a cache that holds at least one line, so that
    every line index names a cell of the two memories: in every state
    reached from reset, a line whose dirty bit is clear holds in the
    DataStore the data the backing store delivered in the last ReadBeat
    accepted for that line (zero, the reset content, when there was
    none); and every acknowledged write sets the dirty bit of its line
    whatever the data, so that a set dirty bit does not tell that the
    content differs. *)
Theorem clean_line_holds_delivered (g : geometry) (l : list inputs) (line : Z) :
  lanes_cover g ->
  lines_in_depth g ->
  dirty (tag_mem_read (tag_mem (run g reset l)) line) = false ->
  dat_mem_read (dat_mem (run g reset l)) line = default 0 (delivered g reset ∅ l !! line) /\
  (forall s i,
      fsm s = CHECK -> ack (comb g s i) = true -> we i = true ->
      dirty (tag_mem_read (tag_mem (step g s i)) (adr_line g (intr_adr g i))) = true).
Proof.
  intros Hlanes Hdepth Hclean. split.
  - apply (clean_is_delivered_run g Hlanes Hdepth l reset ∅); [|assumption].
    intros line' _. reflexivity.
  - intros s i. now apply write_hit_sets_dirty.
Qed.

(** The theorem on line 0 after the refill of address 4. *)
Lemma clean_line_holds_delivered_witness :
  dat_mem_read (dat_mem (run test_geometry reset refill_run)) 0 = 0xCAFE.
Proof.
  refine (proj1 (clean_line_holds_delivered test_geometry refill_run 0 _
                   test_geometry_lines_in_depth eq_refl)).
  vm_compute. repeat split.
Defined.

(** C2 fails as stated. A write of zero to address 0 is acknowledged
    without any backend traffic and leaves line 0 dirty with the content
    it had at reset, under the same tag: whatever the backing store
    holds, the claimed equivalence fails either at reset (line 0 is
    clean) or after the write (line 0 is dirty). *)
Lemma dirty_without_difference :
  let s := run test_geometry reset write_zero_run in
  Forall (fun t => cmd_fire test_geometry t = false /\
                   w_fire test_geometry t = false /\
                   r_fire test_geometry t = false)
    (ticks test_geometry reset write_zero_run) /\
  dirty (tag_mem_read (tag_mem reset) 0) = false /\
  dirty (tag_mem_read (tag_mem s) 0) = true /\
  tag (tag_mem_read (tag_mem s) 0) = tag (tag_mem_read (tag_mem reset) 0) /\
  dat_mem_read (dat_mem s) 0 = dat_mem_read (dat_mem reset) 0 /\
  forall backing,
    ~ (dirty_iff_differs test_geometry reset backing /\
       dirty_iff_differs test_geometry s backing).
Proof.
  intros s.
  assert (Ht : tag_mem_read (tag_mem s) 0 = {| tag := 0; dirty := true |})
    by (vm_compute; reflexivity).
  assert (Hd0 : dat_mem_read (dat_mem s) 0 = 0) by (vm_compute; reflexivity).
  split.
  { unfold write_zero_run. cbn [ticks].
    repeat (constructor; [vm_compute; repeat split|]). constructor. }
  rewrite Ht, Hd0.
  do 4 (split; [reflexivity|]).
  intros backing [H0 H1].
  assert (Hr : 0 <= 0 < 2 ^ line_bits test_geometry) by (vm_compute; split; congruence).
  specialize (H0 0 Hr). specialize (H1 0 Hr).
  rewrite Ht, Hd0 in H1. cbn [tag dirty] in H1.
  change (tag_mem_read (tag_mem reset) 0) with tag_word_reset in H0.
  change (dat_mem_read (dat_mem reset) 0) with 0 in H0.
  cbn [tag dirty tag_word_reset] in H0.
  assert (Hd : 0 <> backing (Cat (line_bits test_geometry) 0 0)).
  { apply H1. reflexivity. }
  destruct (Z.eq_dec 0 (backing (Cat (line_bits test_geometry) 0 0))) as [He | Hne].
  - exact (Hd He).
  - apply H0 in Hne. discriminate.
Qed.

(** * Part III: further properties of the controller *)

(** ** REFILL: one Command and one ReadBeat *)

Section RefillPass.

Variable g : geometry.

(** One REFILL tick that stays in REFILL: each completion flag is set by
    its own handshake and by nothing else. *)
Lemma refill_step_flags s i :
  fsm s = REFILL ->
  refill_done_cmd s && refill_done_r s = false ->
  fsm (step g s i) = REFILL /\
  refill_done_cmd (step g s i) = refill_done_cmd s || cmd_fire g (s, i) /\
  refill_done_r (step g s i) = refill_done_r s || r_fire g (s, i) /\
  intr_bus_r_adr (step g s i) = intr_bus_r_adr s.
Proof.
  intros Hf Hall. unfold cmd_fire, r_fire, step, comb. simpl. rewrite Hf. simpl.
  rewrite Hall.
  destruct (refill_done_cmd s), (refill_done_r s), (cmd_ready i), (r_valid i);
    simpl in *; repeat split; congruence.
Qed.

(** The REFILL tick with both flags set: no handshake, no write, both
    flags reset, next state CHECK. *)
Lemma refill_step_done s i :
  fsm s = REFILL ->
  refill_done_cmd s && refill_done_r s = true ->
  fsm (step g s i) = CHECK /\
  refill_done_cmd (step g s i) = false /\
  refill_done_r (step g s i) = false /\
  cmd_fire g (s, i) = false /\
  r_fire g (s, i) = false /\
  tag_mem (step g s i) = tag_mem s /\
  dat_mem (step g s i) = dat_mem s.
Proof.
  intros Hf Hall.
  unfold cmd_fire, r_fire, step, comb, tag_mem_next, dat_mem_next. simpl.
  rewrite Hf. simpl.
  rewrite Hall. apply andb_true_iff in Hall as [-> ->]. simpl.
  rewrite !andb_false_r. simpl. repeat split; reflexivity.
Qed.

(** The outputs of a REFILL tick. *)
Lemma refill_outputs s i :
  fsm s = REFILL ->
  let c := comb g s i in
  cmd_valid c = negb (refill_done_cmd s) /\
  cmd_we c = false /\
  cmd_last c = true /\
  cmd_addr c =
    Cat (line_bits g) (adr_line g (intr_bus_r_adr s)) (adr_tag g (intr_bus_r_adr s)) /\
  r_ready c = negb (refill_done_r s) /\
  w_valid c = false /\
  ack c = false.
Proof. intros Hf. unfold comb. rewrite Hf. simpl. repeat split; reflexivity. Qed.

Lemma ticks_first_state s l t l2 : ticks g s l = t :: l2 -> fst t = s.
Proof. destruct l as [| i l]; simpl; intros H; inversion H; reflexivity. Qed.

Lemma ticks_inner_state P s l l1 t l2 :
  Forall (fun t => P (fsm (fst t))) (ticks g s l) ->
  ticks g s l = l1 ++ t :: l2 ->
  P (fsm (fst t)).
Proof.
  intros Hall Heq. rewrite Heq in Hall.
  apply Forall_app in Hall as [_ Hall]. now inversion Hall.
Qed.

(** After the ReadBeat has been accepted the stores are not written
    again for as long as the FSM stays in REFILL. *)
Lemma refill_stores_settled l : forall s,
  Forall (fun t => fsm (fst t) = REFILL) (ticks g s l) ->
  refill_done_r s = true ->
  tag_mem (run g s l) = tag_mem s /\ dat_mem (run g s l) = dat_mem s.
Proof.
  induction l as [| i l IH]; intros s Hall Hr; simpl in *; [split; reflexivity|].
  inversion Hall as [| t ts Hf Hrest]; subst. simpl in Hf.
  assert (Hstep : tag_mem (step g s i) = tag_mem s /\ dat_mem (step g s i) = dat_mem s /\
                  (fsm (step g s i) = REFILL -> refill_done_r (step g s i) = true)).
  { unfold step, comb, tag_mem_next, dat_mem_next. rewrite Hf. simpl. rewrite Hr.
    rewrite !andb_false_r, andb_true_r. simpl.
    repeat split. destruct (refill_done_cmd s); [discriminate | reflexivity]. }
  destruct Hstep as (Ht & Hd & Hn).
  destruct l as [| i' l].
  - simpl. split; assumption.
  - assert (Hf' : fsm (step g s i) = REFILL).
    { inversion Hrest as [| ? ? H' _]; subst. exact H'. }
    destruct (IH (step g s i) Hrest (Hn Hf')) as [Ht' Hd'].
    split; congruence.
Qed.

(** A pass through REFILL from a state with completion flags [c], [r]. *)
Lemma refill_pass_from l : forall s,
  fsm s = REFILL ->
  Forall (fun t => fsm (fst t) = REFILL) (ticks g s l) ->
  fsm (run g s l) <> REFILL ->
  count (cmd_fire g) (ticks g s l) = (if refill_done_cmd s then 0 else 1)%nat /\
  count (r_fire g) (ticks g s l) = (if refill_done_r s then 0 else 1)%nat /\
  fsm (run g s l) = CHECK /\
  refill_done_cmd (run g s l) = false /\
  refill_done_r (run g s l) = false /\
  intr_bus_r_adr (run g s l) = intr_bus_r_adr s /\
  exists l' i,
    l = l' ++ [i] /\
    refill_done_cmd (run g s l') = true /\ refill_done_r (run g s l') = true.
Proof.
  induction l as [| i l IH]; intros s Hf Hall Hend; simpl in *; [congruence|].
  inversion Hall as [| t ts _ Hrest]; subst.
  destruct (refill_done_cmd s && refill_done_r s) eqn:Hboth.
  - destruct (refill_step_done s i Hf Hboth) as (Hn & Hc & Hr & Hcf & Hrf & _).
    destruct l as [| i' l].
    + simpl. rewrite Hcf, Hrf.
      apply andb_true_iff in Hboth as [Hbc Hbr]. rewrite Hbc, Hbr.
      repeat split; try assumption.
      * unfold step. rewrite Hf. reflexivity.
      * exists [], i. simpl. auto.
    + simpl in Hrest. inversion Hrest as [| t ts Hbad _]; subst. simpl in Hbad. congruence.
  - destruct (refill_step_flags s i Hf Hboth) as (Hn & Hc & Hr & Ha).
    destruct (IH (step g s i) Hn Hrest Hend)
      as (Hcc & Hcr & Hfin & Hfc & Hfr & Hfa & l' & k & Hl & Hdc & Hdr).
    rewrite Hcc, Hcr, Hc, Hr.
    destruct (refill_outputs s i Hf) as (Hcv & _ & _ & _ & Hrr & _).
    split; [|split; [|split; [assumption | split; [assumption | split;
      [assumption | split; [congruence|]]]]]].
    + unfold cmd_fire. simpl. rewrite Hcv.
      destruct (refill_done_cmd s), (cmd_ready i); reflexivity.
    + unfold r_fire. simpl. rewrite Hrr.
      destruct (refill_done_r s), (r_valid i); reflexivity.
    + exists (i :: l'), k. simpl. rewrite Hl. auto.
Qed.

(** The Command valid and the ReadBeat ready are asserted in a tick of
    the pass exactly when their own handshake has not completed in an
    earlier tick. *)
Lemma refill_valid_until_ready l : forall s l1 t l2,
  fsm s = REFILL ->
  Forall (fun t => fsm (fst t) = REFILL) (ticks g s l) ->
  ticks g s l = l1 ++ t :: l2 ->
  cmd_valid (comb g (fst t) (snd t)) =
    negb (refill_done_cmd s || existsb (cmd_fire g) l1) /\
  r_ready (comb g (fst t) (snd t)) =
    negb (refill_done_r s || existsb (r_fire g) l1).
Proof.
  induction l as [| i l IH]; intros s l1 t l2 Hf Hall Heq; simpl in *.
  - destruct l1; discriminate.
  - inversion Hall as [| t0 ts _ Hrest]; subst.
    destruct l1 as [| t1 l1]; simpl in Heq; inversion Heq; subst; simpl.
    + destruct (refill_outputs s i Hf) as (Hcv & _ & _ & _ & Hrr & _).
      rewrite Hcv, Hrr, !orb_false_r. split; reflexivity.
    + assert (Hn : fsm (step g s i) = REFILL).
      { destruct l as [| i' l]; [destruct l1; discriminate|].
        inversion Hrest as [| ? ? H' _]; subst. exact H'. }
      assert (Hboth : refill_done_cmd s && refill_done_r s = false).
      { destruct (refill_done_cmd s && refill_done_r s) eqn:Hb; [|reflexivity].
        destruct (refill_step_done s i Hf Hb) as (Hr & _). congruence. }
      destruct (refill_step_flags s i Hf Hboth) as (_ & Hc & Hr & _).
      destruct (IH (step g s i) l1 t l2 Hn Hrest H1) as [Hcv Hrr].
      rewrite Hcv, Hrr, Hc, Hr, !orb_assoc. split; reflexivity.
Qed.

End RefillPass.

(** ** The stores are written one line at a time *)

Section StoresFrame.

Variable g : geometry.

Lemma write_enables s i :
  tag_wp_en (comb g s i) = write_hit g s i || read_beat g s i /\
  (dat_wp_en (comb g s i) <> 0 -> tag_wp_en (comb g s i) = true) /\
  tag_wp_addr (comb g s i) = (if fsm_state_eq_dec (fsm s) EVICT then 0 else write_target g s i) /\
  dat_wp_addr (comb g s i) = tag_wp_addr (comb g s i).
Proof.
  unfold write_hit, read_beat, write_target, r_fire, comb.
  destruct (fsm s) eqn:Hf; simpl; rewrite ?Hf; simpl.
  - rewrite orb_false_r. repeat split.
    destruct (we i && _); [reflexivity | congruence].
  - repeat split. congruence.
  - repeat split.
    destruct (r_valid i && negb (refill_done_r s)); [reflexivity | congruence].
Qed.

(** X1. The TagStore and the DataStore change only in a tick that
    acknowledges a write or accepts a ReadBeat: in every other tick, in
    whatever state, both stores are left as they are. *)
Theorem stores_unchanged (s : state) (i : inputs) :
  write_hit g s i = false ->
  read_beat g s i = false ->
  tag_mem (step g s i) = tag_mem s /\ dat_mem (step g s i) = dat_mem s.
Proof.
  intros Hw Hr.
  destruct (write_enables s i) as (Hen & Hdat & _).
  rewrite Hw, Hr in Hen. simpl in Hen.
  assert (Hd0 : dat_wp_en (comb g s i) = 0).
  { destruct (Z.eq_dec (dat_wp_en (comb g s i)) 0) as [H0 | Hne]; [assumption|].
    apply Hdat in Hne. congruence. }
  assert (Hmem : tag_mem (step g s i) = tag_mem_next g s (comb g s i) /\
                 dat_mem (step g s i) = dat_mem_next g s (comb g s i)).
  { unfold step. destruct (fsm s); split; reflexivity. }
  destruct Hmem as [-> ->].
  unfold tag_mem_next, dat_mem_next. rewrite Hen, Hd0. split; reflexivity.
Qed.

Lemma step_other_lines (s : state) (i : inputs) (line : Z) :
  line <> write_target g s i ->
  tag_mem_read (tag_mem (step g s i)) line = tag_mem_read (tag_mem s) line /\
  dat_mem_read (dat_mem (step g s i)) line = dat_mem_read (dat_mem s) line.
Proof.
  intros Hne.
  assert (Hmem : tag_mem (step g s i) = tag_mem_next g s (comb g s i) /\
                 dat_mem (step g s i) = dat_mem_next g s (comb g s i)).
  { unfold step. destruct (fsm s); split; reflexivity. }
  destruct Hmem as [-> ->].
  destruct (write_enables s i) as (Hen & Hdat & Hta & Hda).
  unfold tag_mem_next, dat_mem_next.
  destruct (fsm_state_eq_dec (fsm s) EVICT) as [He | Hnev].
  - assert (Hno : tag_wp_en (comb g s i) = false).
    { rewrite Hen. unfold write_hit, read_beat. rewrite He. reflexivity. }
    assert (Hd0 : dat_wp_en (comb g s i) = 0).
    { destruct (Z.eq_dec (dat_wp_en (comb g s i)) 0) as [H0 | Hn0]; [assumption|].
      apply Hdat in Hn0. congruence. }
    rewrite Hno, Hd0. split; reflexivity.
  - rewrite Hda, Hta. split.
    + destruct (tag_wp_en (comb g s i) && _); [|reflexivity].
      apply tag_mem_read_insert_ne. congruence.
    + destruct ((dat_wp_en (comb g s i) =? 0) || _); [reflexivity|].
      apply dat_mem_read_insert_ne. congruence.
Qed.

(** X2. A tick writes at most one line of the stores: every line other
    than the line of the live address (in CHECK) or the registered line
    (in REFILL) keeps its TagStore entry and its DataStore content. *)
Theorem stores_other_lines (s : state) (i : inputs) (line : Z) :
  line <> write_target g s i ->
  tag_mem_read (tag_mem (step g s i)) line = tag_mem_read (tag_mem s) line /\
  dat_mem_read (dat_mem (step g s i)) line = dat_mem_read (dat_mem s) line.
Proof. apply step_other_lines. Qed.

End StoresFrame.

(** The first theorem on a read hit, the second on the write to address 0
    seen from line 1. *)
Lemma stores_unchanged_witness :
  let s := run test_geometry reset [burst_0] in
  tag_mem (step test_geometry s burst_0) = tag_mem s /\
  dat_mem (step test_geometry s burst_0) = dat_mem s.
Proof.
  intros s. apply (stores_unchanged test_geometry s burst_0); reflexivity.
Defined.

Lemma stores_other_lines_witness :
  let s := run test_geometry reset [write_req 0 0xAA] in
  tag_mem_read (tag_mem (step test_geometry s (write_req 0 0xAA))) 1 =
    tag_mem_read (tag_mem s) 1 /\
  dat_mem_read (dat_mem (step test_geometry s (write_req 0 0xAA))) 1 =
    dat_mem_read (dat_mem s) 1.
Proof.
  intros s. apply (stores_other_lines test_geometry s (write_req 0 0xAA) 1).
  vm_compute. discriminate.
Defined.

(** ** The REFILL pass *)

Section RefillPassTheorems.

Variable g : geometry.

(** The tick that accepts the ReadBeat stores the beat in the registered
    line, whole. *)
Lemma refill_accept_stores_data s i :
  lanes_cover g ->
  lines_in_depth g ->
  fsm s = REFILL ->
  r_fire g (s, i) = true ->
  dat_mem_read (dat_mem (step g s i)) (adr_line g (intr_bus_r_adr s)) =
    trunc (port_width g) (r_data i).
Proof.
  intros Hlanes Hdepth Hf Hfire. unfold r_fire, comb in Hfire. simpl in Hfire.
  rewrite Hf in Hfire. simpl in Hfire.
  unfold step, comb, dat_mem_next. rewrite Hf. simpl. rewrite Hfire.
  rewrite (ones_en_len_nonzero g Hlanes), (adr_line_in_depth g _ Hdepth). simpl.
  rewrite dat_mem_read_insert.
  apply (refill_word g Hlanes).
Qed.

(** What a pass has stored by its end, seen from any of its ticks that
    accepts the ReadBeat. *)
Lemma refill_pass_stores l : forall s l1 t l2,
  lanes_cover g ->
  lines_in_depth g ->
  fsm s = REFILL ->
  Forall (fun t => fsm (fst t) = REFILL) (ticks g s l) ->
  ticks g s l = l1 ++ t :: l2 ->
  r_fire g t = true ->
  tag_mem_read (tag_mem (run g s l)) (adr_line g (intr_bus_r_adr s)) =
    {| tag := adr_tag g (intr_bus_r_adr s); dirty := false |} /\
  dat_mem_read (dat_mem (run g s l)) (adr_line g (intr_bus_r_adr s)) =
    trunc (port_width g) (r_data (snd t)).
Proof.
  induction l as [| i l IH]; intros s l1 t l2 Hlanes Hdepth Hf Hall Heq Hfire; simpl in *.
  - destruct l1; discriminate.
  - inversion Hall as [| t0 ts _ Hrest]; subst.
    destruct l1 as [| t1 l1]; simpl in Heq; inversion Heq; subst; simpl in *.
    + destruct (refill_accept_commits g Hdepth s i Hf Hfire) as (Htag & Hr & _).
      pose proof (refill_accept_stores_data s i Hlanes Hdepth Hf Hfire) as Hdat.
      destruct (refill_stores_settled g l (step g s i) Hrest Hr) as [-> ->].
      split; assumption.
    + assert (Hn : fsm (step g s i) = REFILL).
      { destruct l as [| i' l]; [destruct l1; discriminate|].
        inversion Hrest as [| ? ? H' _]; subst. exact H'. }
      assert (Ha : intr_bus_r_adr (step g s i) = intr_bus_r_adr s).
      { unfold step. rewrite Hf. reflexivity. }
      rewrite <- Ha. now apply (IH (step g s i) l1 t l2).
Qed.

Lemma refill_pass_other_lines l : forall s line,
  fsm s = REFILL ->
  Forall (fun t => fsm (fst t) = REFILL) (ticks g s l) ->
  line <> adr_line g (intr_bus_r_adr s) ->
  tag_mem_read (tag_mem (run g s l)) line = tag_mem_read (tag_mem s) line /\
  dat_mem_read (dat_mem (run g s l)) line = dat_mem_read (dat_mem s) line.
Proof.
  induction l as [| i l IH]; intros s line Hn Hall Hne; simpl; [split; reflexivity|].
  inversion Hall as [| t0 ts _ Hrest]; subst.
  assert (Ha : intr_bus_r_adr (step g s i) = intr_bus_r_adr s).
  { unfold step. rewrite Hn. reflexivity. }
  destruct (step_other_lines g s i line) as [Ht Hd].
  { unfold write_target. rewrite Hn. assumption. }
  destruct l as [| i' l]; [simpl; split; assumption|].
  assert (Hn' : fsm (step g s i) = REFILL).
  { inversion Hrest as [| ? ? H' _]; subst. exact H'. }
  destruct (IH (step g s i) line Hn' Hrest) as [Ht' Hd']; [congruence|].
  split; congruence.
Qed.

Lemma count_one_split (f : state * inputs -> bool) l :
  count f l = 1%nat -> exists l1 t l2, l = l1 ++ t :: l2 /\ f t = true.
Proof.
  induction l as [| a l IH]; simpl; [discriminate|].
  destruct (f a) eqn:Hfa.
  - intros _. exists [], a, l. auto.
  - intros Hc. destruct (IH Hc) as (l1 & t & l2 & -> & Ht).
    exists (a :: l1), t, l2. auto.
Qed.

(** X3. One pass through REFILL, entered from CHECK on a clean miss or
    from EVICT: exactly one Command handshake and exactly one ReadBeat
    handshake complete; every tick of the pass drives a read Command
    ([we] clear, [last] set) to the address made of the registered line
    and tag, drives no WriteBeat and no acknowledge; the Command valid
    and the ReadBeat ready are each asserted exactly until their own
    handshake has completed; the pass ends in CHECK with both completion
    flags reset and the registered cyc and stb clear, after a tick that
    sees both flags set. *)
Theorem refill_pass (s0 : state) (i0 : inputs) (l : list inputs) :
  reachable g s0 ->
  fsm s0 <> REFILL ->
  fsm (step g s0 i0) = REFILL ->
  Forall (fun t => fsm (fst t) = REFILL) (ticks g (step g s0 i0) l) ->
  fsm (run g (step g s0 i0) l) <> REFILL ->
  let s := step g s0 i0 in
  count (cmd_fire g) (ticks g s l) = 1%nat /\
  count (r_fire g) (ticks g s l) = 1%nat /\
  Forall (fun t =>
            let c := comb g (fst t) (snd t) in
            cmd_we c = false /\
            cmd_last c = true /\
            cmd_addr c =
              Cat (line_bits g) (adr_line g (intr_bus_r_adr s))
                (adr_tag g (intr_bus_r_adr s)) /\
            w_valid c = false /\
            ack c = false)
    (ticks g s l) /\
  (forall l1 t l2,
      ticks g s l = l1 ++ t :: l2 ->
      cmd_valid (comb g (fst t) (snd t)) = negb (existsb (cmd_fire g) l1) /\
      r_ready (comb g (fst t) (snd t)) = negb (existsb (r_fire g) l1)) /\
  fsm (run g s l) = CHECK /\
  refill_done_cmd (run g s l) = false /\
  refill_done_r (run g s l) = false /\
  registered (run g s l) = false /\
  intr_bus_r_adr (run g s l) = intr_bus_r_adr s /\
  exists l' i,
    l = l' ++ [i] /\
    refill_done_cmd (run g s l') = true /\ refill_done_r (run g s l') = true.
Proof.
  intros Hreach Hf0 Hn Hall Hend s.
  assert (Hrs : reachable g s) by (now constructor).
  destruct (reachable_flags g s0 Hreach) as (_ & Hr0 & _).
  destruct Hr0 as [Hrc Hrr]; [assumption|].
  assert (Hflags : refill_done_cmd s = false /\ refill_done_r s = false).
  { unfold s, step. destruct (fsm s0); simpl; [split; assumption | split; assumption |
      congruence]. }
  destruct Hflags as [Hsc Hsr].
  destruct (reachable_flags g s Hrs) as (_ & _ & Hregs).
  destruct Hregs as [Hcyc Hstb]; [fold s in Hn; congruence|].
  destruct (refill_pass_from g l s Hn Hall Hend)
    as (Hcc & Hcr & Hfin & Hfc & Hfr & Hfa & Hlast).
  rewrite Hsc in Hcc. rewrite Hsr in Hcr.
  assert (Hout : Forall (fun t => fsm (fst t) <> CHECK) (ticks g s l)).
  { eapply List.Forall_impl; [|exact Hall]. intros t Ht'. congruence. }
  destruct (held_outside_check g l s Hout) as (Hheld & Hhc & _).
  split; [assumption|]. split; [assumption|].
  split; [|split; [|split; [assumption | split; [assumption | split;
    [assumption | split; [|split; assumption]]]]]].
  - apply Forall_forall. intros [s1 i1] Hin.
    rewrite Forall_forall in Hheld, Hall.
    destruct (Hheld _ Hin) as (_ & _ & Ha1 & _).
    specialize (Hall _ Hin). simpl in *.
    destruct (refill_outputs g s1 i1 Hall) as (_ & Hwe & Hla & Had & _ & Hwv & Hack).
    rewrite <- Ha1. repeat split; assumption.
  - intros l1 t l2 Heq.
    destruct (refill_valid_until_ready g l s l1 t l2 Hn Hall Heq) as [Hcv Hrv].
    rewrite Hsc in Hcv. rewrite Hsr in Hrv. split; assumption.
  - unfold registered. rewrite Hhc, Hcyc. reflexivity.
Qed.

(** X4. On a cache that holds at least one line, so that every line
    index names a cell of the two memories: by the end of a pass through
    REFILL the target line holds, in the TagStore, the registered tag
    with the dirty bit clear and, in the DataStore, the whole data of
    the one ReadBeat the pass accepted; every other line is as it was
    when the pass began. *)
Theorem refill_pass_commits (s0 : state) (i0 : inputs) (l : list inputs) :
  lanes_cover g ->
  lines_in_depth g ->
  reachable g s0 ->
  fsm s0 <> REFILL ->
  fsm (step g s0 i0) = REFILL ->
  Forall (fun t => fsm (fst t) = REFILL) (ticks g (step g s0 i0) l) ->
  fsm (run g (step g s0 i0) l) <> REFILL ->
  let s := step g s0 i0 in
  let target := adr_line g (intr_bus_r_adr s) in
  (exists l1 t l2,
      ticks g s l = l1 ++ t :: l2 /\
      r_fire g t = true /\
      tag_mem_read (tag_mem (run g s l)) target =
        {| tag := adr_tag g (intr_bus_r_adr s); dirty := false |} /\
      dat_mem_read (dat_mem (run g s l)) target =
        trunc (port_width g) (r_data (snd t))) /\
  (forall line,
      line <> target ->
      tag_mem_read (tag_mem (run g s l)) line = tag_mem_read (tag_mem s) line /\
      dat_mem_read (dat_mem (run g s l)) line = dat_mem_read (dat_mem s) line).
Proof.
  intros Hlanes Hdepth Hreach Hf0 Hn Hall Hend s target.
  destruct (reachable_flags g s0 Hreach) as (_ & Hr0 & _).
  destruct Hr0 as [Hrc Hrr]; [assumption|].
  assert (Hsr : refill_done_r s = false).
  { unfold s, step. destruct (fsm s0); simpl; [assumption | assumption | congruence]. }
  destruct (refill_pass_from g l s Hn Hall Hend) as (_ & Hcr & _).
  rewrite Hsr in Hcr.
  destruct (count_one_split _ _ Hcr) as (l1 & t & l2 & Heq & Hfire).
  split.
  - exists l1, t, l2. split; [assumption|]. split; [assumption|].
    now apply (refill_pass_stores l s l1 t l2).
  - intros line Hne. now apply refill_pass_other_lines.
Qed.

End RefillPassTheorems.

(** Both theorems on the refill of address 4 after the dirty miss. *)
Lemma refill_pass_witness :
  let s0 := run test_geometry reset clean_miss_run in
  let l := [with_backend read_4 true false true 0xCAFE; read_4] in
  count (cmd_fire test_geometry) (ticks test_geometry s0 l) = 1%nat /\
  count (r_fire test_geometry) (ticks test_geometry s0 l) = 1%nat /\
  fsm (run test_geometry s0 l) = CHECK.
Proof.
  intros s0 l.
  destruct (refill_pass test_geometry (run test_geometry reset [read_4]) read_4 l)
    as (Hc & Hr & _ & _ & Hf & _).
  - apply reachable_from_reset.
  - vm_compute. discriminate.
  - reflexivity.
  - vm_compute. repeat constructor.
  - vm_compute. discriminate.
  - split; [exact Hc|]. split; [exact Hr | exact Hf].
Defined.

Lemma refill_pass_commits_witness :
  let s0 := run test_geometry reset clean_miss_run in
  let l := [with_backend read_4 true false true 0xCAFE; read_4] in
  dat_mem_read (dat_mem (run test_geometry s0 l)) 1 =
    dat_mem_read (dat_mem s0) 1.
Proof.
  intros s0 l.
  destruct (refill_pass_commits test_geometry (run test_geometry reset [read_4]) read_4 l)
    as (_ & Hother).
  - vm_compute. repeat split.
  - exact test_geometry_lines_in_depth.
  - apply reachable_from_reset.
  - vm_compute. discriminate.
  - reflexivity.
  - vm_compute. repeat constructor.
  - vm_compute. discriminate.
  - refine (proj2 (Hother 1 _)). discriminate.
Defined.

(** ** CHECK: the read path *)

Section ReadPath.

Variable g : geometry.

(** The tick that presents a request to a controller with no request
    registered: no acknowledge, nothing written, both read ports sample
    the line of the request. *)
Lemma check_probe s i :
  fsm s = CHECK ->
  registered s = false ->
  request i = true ->
  ack (comb g s i) = false /\
  fsm (step g s i) = CHECK /\
  registered (step g s i) = true /\
  intr_bus_r_adr (step g s i) = intr_adr g i /\
  tag_rp_data (step g s i) = tag_mem_read (tag_mem s) (adr_line g (intr_adr g i)) /\
  dat_rp_data (step g s i) = dat_mem_read (dat_mem s) (adr_line g (intr_adr g i)) /\
  tag_mem (step g s i) = tag_mem s /\
  dat_mem (step g s i) = dat_mem s.
Proof.
  intros Hf Hreg Hreq.
  unfold step, comb, miss, tag_rp_next, dat_rp_next, tag_mem_next, dat_mem_next.
  rewrite Hf. simpl. rewrite Hreg, Hreq. rewrite !andb_false_r. simpl.
  unfold registered in *. unfold request in Hreq.
  apply andb_true_iff in Hreq as [Hc Hs]. simpl. rewrite Hc, Hs. simpl.
  assert (Hen : negb (intr_bus_r_cyc s) || negb (intr_bus_r_stb s) || false = true).
  { destruct (intr_bus_r_cyc s), (intr_bus_r_stb s); simpl in *;
      (discriminate || reflexivity). }
  rewrite Hen. repeat split; reflexivity.
Qed.

(** The tick after an acknowledge: the request stays registered and the
    read ports have sampled, before the write of that tick if any, the
    line of the next burst beat (incrementing burst) or of the address
    itself. *)
Lemma check_after_ack s i :
  fsm s = CHECK ->
  ack (comb g s i) = true ->
  let line :=
    if trunc 3 (cti i) =? INCR_BURST
    then adr_line g (intr_adr_next g (bte i) (intr_adr g i))
    else adr_line g (intr_adr g i) in
  fsm (step g s i) = CHECK /\
  registered (step g s i) = true /\
  tag_rp_data (step g s i) = tag_mem_read (tag_mem s) line /\
  dat_rp_data (step g s i) = dat_mem_read (dat_mem s) line.
Proof.
  intros Hf Hack. unfold comb in Hack. rewrite Hf in Hack. simpl in Hack.
  pose proof Hack as Hack'.
  apply andb_true_iff in Hack' as [Hrm Hreg].
  apply andb_true_iff in Hrm as [Hreq Hm].
  unfold step, comb, miss, tag_rp_next, dat_rp_next. rewrite Hf. simpl.
  rewrite Hack, Hreq, Hm. simpl. rewrite !orb_true_r. simpl.
  unfold request in Hreq. apply andb_true_iff in Hreq as [Hc Hs].
  unfold registered. rewrite Hc, Hs. simpl.
  destruct (trunc 3 (cti i) =? INCR_BURST); repeat split; reflexivity.
Qed.

(** With a request registered, CHECK judges the live request against the
    tag on the read port and serves the word of the line on the read
    port; a mismatch starts the miss handling. *)
Lemma check_judge s i :
  fsm s = CHECK ->
  registered s = true ->
  request i = true ->
  (ack (comb g s i) = true <-> adr_tag g (intr_adr g i) = tag (tag_rp_data s)) /\
  dat_r (comb g s i) =
    word_select (dat_rp_data s) (adr_offset g (intr_adr g i)) (data_width g) /\
  (adr_tag g (intr_adr g i) <> tag (tag_rp_data s) ->
   fsm (step g s i) = (if dirty (tag_rp_data s) then EVICT else REFILL)).
Proof.
  intros Hf Hreg Hreq. unfold step, comb, miss, tag_match. rewrite Hf. simpl.
  rewrite Hreg, Hreq. simpl. rewrite andb_true_r. split; [|split].
  - apply Z.eqb_eq.
  - reflexivity.
  - intros Hne. apply Z.eqb_neq in Hne. rewrite Hne. reflexivity.
Qed.

(** X5. An access presented to a controller in CHECK with no request
    registered is answered on its second tick, never on its first: held
    for a second tick, it is acknowledged exactly when the TagStore entry
    of its line holds its tag, its read data is the word at its offset
    of that line of the DataStore, and when the tag differs that second
    tick starts the miss handling, EVICT if the entry is dirty and REFILL
    if it is clean. *)
Theorem access_latency (s : state) (i i' : inputs) :
  fsm s = CHECK ->
  registered s = false ->
  request i = true ->
  request i' = true ->
  intr_adr g i' = intr_adr g i ->
  let line := adr_line g (intr_adr g i) in
  let entry := tag_mem_read (tag_mem s) line in
  ack (comb g s i) = false /\
  (ack (comb g (step g s i) i') = true <-> tag entry = adr_tag g (intr_adr g i)) /\
  dat_r (comb g (step g s i) i') =
    word_select (dat_mem_read (dat_mem s) line) (adr_offset g (intr_adr g i))
      (data_width g) /\
  (tag entry <> adr_tag g (intr_adr g i) ->
   fsm (step g (step g s i) i') = (if dirty entry then EVICT else REFILL)).
Proof.
  intros Hf Hreg Hreq Hreq' Hadr line entry.
  destruct (check_probe s i Hf Hreg Hreq) as (Hna & Hf1 & Hreg1 & _ & Ht & Hd & _).
  destruct (check_judge (step g s i) i' Hf1 Hreg1 Hreq') as (Hack & Hdat & Hmiss).
  rewrite Ht, Hd, Hadr in *. fold line in Hack, Hdat, Hmiss. fold entry in Hack, Hmiss.
  split; [assumption|]. split; [|split; [assumption|]].
  - rewrite Hack. split; congruence.
  - intros Hne. apply Hmiss. congruence.
Qed.

(** X6. Burst lookahead: after a beat of an incrementing burst is
    acknowledged, the next beat, at the address [intr_adr_next] gives, is
    judged in the very next tick: it is acknowledged exactly when the
    TagStore entry of its line held its tag before the acknowledged
    beat's tick, and its read data is the word at its offset of its line
    of the DataStore as it was before that tick. *)
Theorem burst_lookahead (s : state) (i i' : inputs) :
  fsm s = CHECK ->
  ack (comb g s i) = true ->
  trunc 3 (cti i) = INCR_BURST ->
  request i' = true ->
  intr_adr g i' = intr_adr_next g (bte i) (intr_adr g i) ->
  let line := adr_line g (intr_adr g i') in
  (ack (comb g (step g s i) i') = true <->
   tag (tag_mem_read (tag_mem s) line) = adr_tag g (intr_adr g i')) /\
  dat_r (comb g (step g s i) i') =
    word_select (dat_mem_read (dat_mem s) line) (adr_offset g (intr_adr g i'))
      (data_width g).
Proof.
  intros Hf Hack Hcti Hreq' Hadr line.
  destruct (check_after_ack s i Hf Hack) as (Hf1 & Hreg1 & Ht & Hd).
  rewrite Hcti in Ht, Hd. simpl in Ht, Hd. rewrite <- Hadr in Ht, Hd.
  destruct (check_judge (step g s i) i' Hf1 Hreg1 Hreq') as (Hja & Hjd & _).
  rewrite Ht, Hd in *. fold line in Hja, Hjd.
  split; [|assumption]. rewrite Hja. split; congruence.
Qed.

(** X7. An access repeated in the tick after its acknowledge (outside an
    incrementing burst) is acknowledged again at once when the TagStore
    entry of its line held its tag, and its read data is the DataStore
    word as it was before the acknowledged tick: after an acknowledged
    write, the data from before the write. *)
Theorem immediate_repeat_reads_old (s : state) (i i' : inputs) :
  fsm s = CHECK ->
  ack (comb g s i) = true ->
  trunc 3 (cti i) <> INCR_BURST ->
  request i' = true ->
  intr_adr g i' = intr_adr g i ->
  let line := adr_line g (intr_adr g i) in
  (ack (comb g (step g s i) i') = true <->
   tag (tag_mem_read (tag_mem s) line) = adr_tag g (intr_adr g i)) /\
  dat_r (comb g (step g s i) i') =
    word_select (dat_mem_read (dat_mem s) line) (adr_offset g (intr_adr g i))
      (data_width g).
Proof.
  intros Hf Hack Hcti Hreq' Hadr line.
  destruct (check_after_ack s i Hf Hack) as (Hf1 & Hreg1 & Ht & Hd).
  apply Z.eqb_neq in Hcti. rewrite Hcti in Ht, Hd.
  destruct (check_judge (step g s i) i' Hf1 Hreg1 Hreq') as (Hja & Hjd & _).
  rewrite Ht, Hd, Hadr in *. fold line in Hja, Hjd.
  split; [|assumption]. rewrite Hja. split; congruence.
Qed.

End ReadPath.

(** The three theorems on the test bench: a read of address 0 answered
    on its second tick; the second beat of the burst 0, 1 acknowledged at
    once; a read of address 0 in the tick after the write of 0xAA is
    acknowledged with the old word 0 while the DataStore holds 0xAA. *)
Lemma access_latency_witness :
  ack (comb test_geometry reset burst_0) = false /\
  ack (comb test_geometry (step test_geometry reset burst_0) burst_0) = true.
Proof.
  destruct (access_latency test_geometry reset burst_0 burst_0
              eq_refl eq_refl eq_refl eq_refl eq_refl) as (Hn & Ha & _).
  split; [exact Hn|]. apply Ha. reflexivity.
Defined.

Lemma burst_lookahead_witness :
  let s := run test_geometry reset [burst_0] in
  ack (comb test_geometry (step test_geometry s burst_0) burst_1) = true.
Proof.
  intros s.
  apply (proj1 (burst_lookahead test_geometry s burst_0 burst_1
                  eq_refl eq_refl eq_refl eq_refl eq_refl)).
  reflexivity.
Defined.

Lemma immediate_repeat_reads_old_witness :
  let s := run test_geometry reset [write_req 0 0xAA] in
  let s' := step test_geometry s (write_req 0 0xAA) in
  dat_mem_read (dat_mem s') 0 = 0xAA /\
  ack (comb test_geometry s' (read_req 0 CLASSIC LINEAR)) = true /\
  dat_r (comb test_geometry s' (read_req 0 CLASSIC LINEAR)) = 0.
Proof.
  intros s s'.
  destruct (immediate_repeat_reads_old test_geometry s (write_req 0 0xAA)
              (read_req 0 CLASSIC LINEAR)) as (Ha & Hd).
  - reflexivity.
  - reflexivity.
  - vm_compute. discriminate.
  - reflexivity.
  - reflexivity.
  - split; [reflexivity|]. split; [apply Ha; reflexivity | exact Hd].
Defined.

(** ** A miss served *)

Section MissServed.

Variable g : geometry.
Hypothesis Hlanes : lanes_cover g.
Hypothesis Hdepth : lines_in_depth g.

(** After a pass through REFILL the request that missed, still
    presented, is answered on its second tick with the refilled data. *)
Lemma refill_then_hit s0 i0 l i :
  reachable g s0 ->
  fsm s0 <> REFILL ->
  fsm (step g s0 i0) = REFILL ->
  Forall (fun t => fsm (fst t) = REFILL) (ticks g (step g s0 i0) l) ->
  fsm (run g (step g s0 i0) l) <> REFILL ->
  request i = true ->
  intr_adr g i = intr_bus_r_adr (step g s0 i0) ->
  let sc := run g (step g s0 i0) l in
  fsm sc = CHECK /\
  ack (comb g sc i) = false /\
  ack (comb g (step g sc i) i) = true /\
  exists l1 t l2,
    ticks g (step g s0 i0) l = l1 ++ t :: l2 /\
    r_fire g t = true /\
    dat_r (comb g (step g sc i) i) =
      word_select (trunc (port_width g) (r_data (snd t)))
        (adr_offset g (intr_adr g i)) (data_width g).
Proof.
  intros Hreach Hf0 Hn Hall Hend Hreq Hadr sc.
  set (s := step g s0 i0) in *.
  assert (Hrs : reachable g s) by (now constructor).
  destruct (reachable_flags g s0 Hreach) as (_ & Hr0 & _).
  destruct Hr0 as [Hrc Hrr]; [assumption|].
  assert (Hflags : refill_done_cmd s = false /\ refill_done_r s = false).
  { unfold s, step. destruct (fsm s0); simpl; [split; assumption | split; assumption |
      congruence]. }
  destruct Hflags as [Hsc Hsr].
  destruct (reachable_flags g s Hrs) as (_ & _ & Hregs).
  destruct Hregs as [Hcyc Hstb]; [congruence|].
  destruct (refill_pass_from g l s Hn Hall Hend) as (_ & Hcr & Hfin & _ & _ & Hfa & _).
  rewrite Hsr in Hcr.
  destruct (count_one_split _ _ Hcr) as (l1 & t & l2 & Heq & Hfire).
  destruct (refill_pass_stores g l s l1 t l2 Hlanes Hdepth Hn Hall Heq Hfire)
    as [Htag Hdat].
  assert (Hout : Forall (fun t => fsm (fst t) <> CHECK) (ticks g s l)).
  { eapply List.Forall_impl; [|exact Hall]. intros t' Ht'. congruence. }
  destruct (held_outside_check g l s Hout) as (_ & Hhc & _).
  assert (Hreg : registered sc = false).
  { unfold registered, sc. rewrite Hhc, Hcyc. reflexivity. }
  fold sc in Hfin, Htag, Hdat.
  destruct (check_probe g sc i Hfin Hreg Hreq) as (Hna & Hf1 & Hreg1 & _ & Ht & Hd & _).
  destruct (check_judge g (step g sc i) i Hf1 Hreg1 Hreq) as (Hja & Hjd & _).
  rewrite Ht, Hd, Hadr in *. rewrite Htag in Hja. rewrite Hdat in Hjd. simpl in Hja.
  split; [assumption|]. split; [assumption|]. split; [now apply Hja|].
  exists l1, t, l2. split; [assumption|]. split; assumption.
Qed.

(** X8. A miss is served by a refill, on a cache that holds at least
    one line and whose write lanes cover the line: after a pass through
    REFILL the request that missed, held by the requester, is not
    acknowledged in the tick the FSM is back in CHECK and is
    acknowledged in the next one, and its read data is the word at its
    offset of the ReadBeat the pass accepted. *)
Theorem miss_served (s0 : state) (i0 : inputs) (l : list inputs) (i : inputs) :
  reachable g s0 ->
  fsm s0 <> REFILL ->
  fsm (step g s0 i0) = REFILL ->
  Forall (fun t => fsm (fst t) = REFILL) (ticks g (step g s0 i0) l) ->
  fsm (run g (step g s0 i0) l) <> REFILL ->
  request i = true ->
  intr_adr g i = intr_bus_r_adr (step g s0 i0) ->
  let sc := run g (step g s0 i0) l in
  fsm sc = CHECK /\
  ack (comb g sc i) = false /\
  ack (comb g (step g sc i) i) = true /\
  exists l1 t l2,
    ticks g (step g s0 i0) l = l1 ++ t :: l2 /\
    r_fire g t = true /\
    dat_r (comb g (step g sc i) i) =
      word_select (trunc (port_width g) (r_data (snd t)))
        (adr_offset g (intr_adr g i)) (data_width g).
Proof. apply refill_then_hit. Qed.

End MissServed.

(** The theorem on the clean miss of address 4: the word delivered,
    0xCAFE, is read two ticks after the refill. *)
Lemma miss_served_witness :
  let s := run test_geometry reset clean_miss_run in
  let l := [with_backend read_4 true false true 0xCAFE; read_4] in
  let sc := run test_geometry s l in
  ack (comb test_geometry (step test_geometry sc read_4) read_4) = true.
Proof.
  intros s l sc.
  destruct (miss_served test_geometry) with
    (s0 := run test_geometry reset [read_4]) (i0 := read_4) (l := l) (i := read_4)
    as (_ & _ & Ha & _).
  - vm_compute. repeat split.
  - exact test_geometry_lines_in_depth.
  - apply reachable_from_reset.
  - vm_compute. discriminate.
  - reflexivity.
  - vm_compute. repeat constructor.
  - vm_compute. discriminate.
  - reflexivity.
  - reflexivity.
  - exact Ha.
Defined.

(** ** Miss latency with a backend that is always ready *)

Section MissLatency.

Variable g : geometry.
Hypothesis Hlanes : lanes_cover g.
Hypothesis Hdepth : lines_in_depth g.

Lemma run_cons s i l : run g s (i :: l) = run g (step g s i) l.
Proof. reflexivity. Qed.

Lemma ticks_cons s i l : ticks g s (i :: l) = (s, i) :: ticks g (step g s i) l.
Proof. reflexivity. Qed.

Lemma evict_ready s i :
  fsm s = EVICT ->
  evict_done_cmd s = false -> evict_done_w s = false ->
  cmd_ready i = true -> w_ready i = true ->
  fsm (step g s i) = EVICT /\
  fsm (step g (step g s i) i) = REFILL /\
  intr_bus_r_adr (step g (step g s i) i) = intr_bus_r_adr s.
Proof.
  intros Hf Hc Hw Hcr Hwr.
  destruct (evict_step_flags g s i Hf) as (Hf1 & Hc1 & Hw1);
    [rewrite Hc; reflexivity|].
  assert (Hcf : cmd_fire g (s, i) = true).
  { unfold cmd_fire, comb. simpl. rewrite Hf. simpl. rewrite Hc, Hcr. reflexivity. }
  assert (Hwf : w_fire g (s, i) = true).
  { unfold w_fire, comb. simpl. rewrite Hf. simpl. rewrite Hw, Hwr. reflexivity. }
  rewrite Hcf, orb_true_r in Hc1. rewrite Hwf, orb_true_r in Hw1.
  destruct (evict_step_done g (step g s i) i Hf1) as (Hf2 & _);
    [rewrite Hc1, Hw1; reflexivity|].
  split; [assumption|]. split; [assumption|].
  unfold step at 1. rewrite Hf1. simpl. unfold step. rewrite Hf. reflexivity.
Qed.

Lemma refill_ready s i :
  fsm s = REFILL ->
  refill_done_cmd s = false -> refill_done_r s = false ->
  cmd_ready i = true -> r_valid i = true ->
  fsm (step g s i) = REFILL /\
  fsm (step g (step g s i) i) = CHECK.
Proof.
  intros Hf Hc Hr Hcr Hrv.
  destruct (refill_step_flags g s i Hf) as (Hf1 & Hc1 & Hr1 & _);
    [rewrite Hc; reflexivity|].
  assert (Hcf : cmd_fire g (s, i) = true).
  { unfold cmd_fire, comb. simpl. rewrite Hf. simpl. rewrite Hc, Hcr. reflexivity. }
  assert (Hrf : r_fire g (s, i) = true).
  { unfold r_fire, comb. simpl. rewrite Hf. simpl. rewrite Hr, Hrv. reflexivity. }
  rewrite Hcf, orb_true_r in Hc1. rewrite Hrf, orb_true_r in Hr1.
  destruct (refill_step_done g (step g s i) i Hf1) as (Hf2 & _);
    [rewrite Hc1, Hr1; reflexivity|].
  split; assumption.
Qed.

Lemma no_ack_outside_check s i : fsm s <> CHECK -> ack (comb g s i) = false.
Proof.
  intros Hf. destruct (ack (comb g s i)) eqn:Ha; [|reflexivity].
  exfalso. apply Hf. now apply (ack_in_check g s i).
Qed.

(** A refill with a ready backend, entered from [s0], and the two
    ticks of the held request after it. *)
Lemma refill_ready_serves s0 i :
  reachable g s0 ->
  fsm s0 <> REFILL ->
  fsm (step g s0 i) = REFILL ->
  intr_adr g i = intr_bus_r_adr (step g s0 i) ->
  request i = true ->
  cmd_ready i = true -> r_valid i = true ->
  Forall (fun t => ack (comb g (fst t) (snd t)) = false)
    (ticks g (step g s0 i) [i; i; i]) /\
  ack (comb g (run g (step g s0 i) [i; i; i]) i) = true /\
  dat_r (comb g (run g (step g s0 i) [i; i; i]) i) =
    word_select (trunc (port_width g) (r_data i))
      (adr_offset g (intr_adr g i)) (data_width g).
Proof.
  intros Hreach Hf0 Hf1 Hadr Hreq Hcr Hrv.
  destruct (reachable_flags g s0 Hreach) as (_ & Hr0 & _).
  destruct Hr0 as [Hrc Hrr]; [assumption|].
  assert (Hflags : refill_done_cmd (step g s0 i) = false /\
                   refill_done_r (step g s0 i) = false).
  { unfold step. destruct (fsm s0); simpl; [split; assumption | split; assumption |
      congruence]. }
  destruct Hflags as [Hc1 Hr1].
  destruct (refill_ready (step g s0 i) i Hf1 Hc1 Hr1 Hcr Hrv) as [Hf2 Hf3].
  destruct (refill_then_hit g Hlanes Hdepth s0 i [i; i] i Hreach Hf0 Hf1)
    as (Hfc & Hna & Ha & l1 & t & l2 & Heq & _ & Hd).
  - simpl. repeat constructor; simpl; assumption.
  - simpl. congruence.
  - assumption.
  - assumption.
  - assert (Ht : snd t = i).
    { assert (Hin : In t (ticks g (step g s0 i) [i; i])).
      { rewrite Heq. apply in_elt. }
      simpl in Hin. destruct Hin as [<- | [<- | []]]; reflexivity. }
    rewrite Ht in Hd.
    simpl in Hfc, Hna, Ha, Hd. simpl.
    split.
    + repeat constructor; simpl.
      * apply no_ack_outside_check. congruence.
      * apply no_ack_outside_check. congruence.
      * assumption.
    + split; assumption.
Qed.

(** X9. Miss latency with a backend that is always ready, on a cache
    that holds at least one line and whose write lanes cover the line,
    in a state reached from reset: when a held
    request misses in CHECK and the backend accepts every command and
    write beat and offers read data [r_data] in every tick, the request
    is acknowledged in the fifth tick (the miss tick included) if the
    line read was clean and in the seventh if it was dirty, never
    before, and its read data is the word at its offset of [r_data]. *)
Theorem miss_latency (s : state) (i : inputs) :
  reachable g s ->
  fsm s = CHECK ->
  miss g s i = true ->
  cmd_ready i = true -> w_ready i = true -> r_valid i = true ->
  let n := if dirty (tag_rp_data s) then 6%nat else 4%nat in
  Forall (fun t => ack (comb g (fst t) (snd t)) = false) (ticks g s (repeat i n)) /\
  ack (comb g (run g s (repeat i n)) i) = true /\
  dat_r (comb g (run g s (repeat i n)) i) =
    word_select (trunc (port_width g) (r_data i))
      (adr_offset g (intr_adr g i)) (data_width g).
Proof.
  intros Hreach Hf Hmiss Hcr Hwr Hrv.
  destruct (step_miss g s i Hf Hmiss) as (Hna & _ & _ & _ & _ & Hadr & _).
  assert (Hreq : request i = true).
  { unfold miss in Hmiss. destruct (request i); [reflexivity | discriminate]. }
  assert (Hnext : fsm (step g s i) = if dirty (tag_rp_data s) then EVICT else REFILL).
  { unfold step. rewrite Hf, Hmiss. reflexivity. }
  destruct (dirty (tag_rp_data s)) eqn:Hd; intros n; subst n.
  - destruct (reachable_flags g s Hreach) as (He & _ & _).
    destruct He as [Hec Hew]; [congruence|].
    assert (Hflags : evict_done_cmd (step g s i) = false /\
                     evict_done_w (step g s i) = false).
    { unfold step. rewrite Hf. simpl. split; assumption. }
    destruct Hflags as [Hc1 Hw1].
    destruct (evict_ready (step g s i) i Hnext Hc1 Hw1 Hcr Hwr) as (Hf2 & Hf3 & Ha3).
    destruct (refill_ready_serves (step g (step g s i) i) i) as (Hall & Hack & Hdat).
    + do 2 constructor. assumption.
    + congruence.
    + assumption.
    + rewrite Ha3. symmetry. assumption.
    + assumption.
    + assumption.
    + assumption.
    + assert (E : repeat i 6 = [i; i; i; i; i; i]) by reflexivity.
      rewrite E. do 3 rewrite run_cons. do 3 rewrite ticks_cons.
      split; [|split; assumption].
      constructor; [exact Hna|].
      constructor; [apply no_ack_outside_check; cbn [fst]; congruence|].
      constructor; [apply no_ack_outside_check; cbn [fst]; congruence|].
      exact Hall.
  - destruct (refill_ready_serves s i) as (Hall & Hack & Hdat).
    + assumption.
    + congruence.
    + assumption.
    + symmetry. assumption.
    + assumption.
    + assumption.
    + assumption.
    + assert (E : repeat i 4 = [i; i; i; i]) by reflexivity.
      rewrite E, run_cons, ticks_cons.
      split; [|split; assumption].
      constructor; [exact Hna | exact Hall].
Qed.

End MissLatency.

(** The theorem on the two misses of the test bench: the clean miss of
    address 4 after reset and the dirty miss of address 4 after a write
    to address 0, the backend always ready with the line 0xCAFE. *)
Lemma miss_latency_witness :
  let i := with_backend read_4 true true true 0xCAFE in
  ack (comb test_geometry (run test_geometry (run test_geometry reset [read_4])
         (repeat i 4)) i) = true.
Proof.
  intros i.
  refine (proj1 (proj2 (miss_latency test_geometry _ test_geometry_lines_in_depth
            (run test_geometry reset [read_4]) i _ _ _ _ _ _))).
  - vm_compute. repeat split.
  - apply reachable_from_reset.
  - reflexivity.
  - reflexivity.
  - reflexivity.
  - reflexivity.
  - reflexivity.
Defined.

(** ** The write hit: byte lanes *)

Section BitLanes.

Lemma testbit_trunc w x k :
  0 <= w -> Z.testbit (trunc w x) k = Z.testbit x k && (k <? w).
Proof.
  intros Hw. unfold trunc. rewrite Z.land_spec.
  destruct (Z.ltb_spec k 0) as [Hk | Hk].
  - rewrite !Z.testbit_neg_r by lia. reflexivity.
  - rewrite Z.testbit_ones_nonneg by lia. reflexivity.
Qed.

Lemma testbit_Cat w lo hi k :
  0 <= k -> Z.testbit (Cat w lo hi) k = Z.testbit lo k || Z.testbit hi (k - w).
Proof.
  intros Hk. unfold Cat. rewrite Z.lor_spec, Z.shiftl_spec by lia. reflexivity.
Qed.

Lemma testbit_slice x lo w k :
  0 <= w -> 0 <= k -> Z.testbit (slice x lo w) k = Z.testbit x (k + lo) && (k <? w).
Proof.
  intros Hw Hk. unfold slice. rewrite testbit_trunc, Z.shiftr_spec by lia. reflexivity.
Qed.

Lemma testbit_word_select x i w k :
  0 <= w -> 0 <= k < w -> Z.testbit (word_select x i w) k = Z.testbit x (k + i * w).
Proof.
  intros Hw Hk. unfold word_select. rewrite testbit_slice by lia.
  destruct (Z.ltb_spec k w); [apply andb_true_r | lia].
Qed.

Lemma testbit_write_lanes gran n : forall en old new k,
  0 < gran -> 0 <= k ->
  Z.testbit (write_lanes gran n en old new) k =
    (k <? Z.of_nat n * gran) &&
    (if Z.testbit en (k / gran) then Z.testbit new k else Z.testbit old k).
Proof.
  induction n as [| n IH]; intros en old new k Hg Hk.
  - cbn [write_lanes Repl]. rewrite Z.testbit_0_l.
    match goal with |- false = (?a <? ?b) && _ => destruct (Z.ltb_spec a b) end;
      [lia | reflexivity].
  - cbn [write_lanes]. rewrite testbit_Cat, testbit_trunc by lia.
    rewrite Nat2Z.inj_succ, Z.mul_succ_l. pose proof (Nat2Z.is_nonneg n) as Hn.
    assert (Hnn0 : 0 <= Z.of_nat n * gran) by (apply Z.mul_nonneg_nonneg; [exact Hn | lia]).
    destruct (Z.ltb_spec k gran) as [Hlt | Hge].
    + rewrite (Z.testbit_neg_r _ (k - gran)) by lia.
      rewrite Z.div_small by lia. rewrite orb_false_r, andb_true_r.
      destruct (Z.ltb_spec k (Z.of_nat n * gran + gran)); [|lia].
      destruct (Z.testbit en 0); reflexivity.
    + rewrite andb_false_r. cbn [orb]. rewrite IH by lia.
      assert (Hdiv : (k - gran) / gran + 1 = k / gran).
      { replace k with ((k - gran) + 1 * gran) at 2 by lia.
        rewrite Z.div_add by lia. reflexivity. }
      assert (Hnn : 0 <= (k - gran) / gran) by (apply Z.div_pos; lia).
      rewrite !Z.shiftr_spec by lia.
      replace (k - gran + gran) with k by lia. rewrite Hdiv.
      f_equal.
      destruct (Z.ltb_spec (k - gran) (Z.of_nat n * gran));
        destruct (Z.ltb_spec k (Z.of_nat n * gran + gran)); try reflexivity; lia.
Qed.

Lemma testbit_Repl w x n : forall k,
  0 < w -> 0 <= k ->
  Z.testbit (Repl w x n) k = (k <? Z.of_nat n * w) && Z.testbit x (k mod w).
Proof.
  induction n as [| n IH]; intros k Hw Hk.
  - cbn [write_lanes Repl]. rewrite Z.testbit_0_l.
    match goal with |- false = (?a <? ?b) && _ => destruct (Z.ltb_spec a b) end;
      [lia | reflexivity].
  - cbn [Repl]. rewrite testbit_Cat, testbit_trunc by lia.
    rewrite Nat2Z.inj_succ, Z.mul_succ_l. pose proof (Nat2Z.is_nonneg n) as Hn.
    assert (Hnn0 : 0 <= Z.of_nat n * w) by (apply Z.mul_nonneg_nonneg; [exact Hn | lia]).
    destruct (Z.ltb_spec k w) as [Hlt | Hge].
    + rewrite (Z.testbit_neg_r _ (k - w)) by lia.
      rewrite Z.mod_small by lia. rewrite orb_false_r, andb_true_r.
      destruct (Z.ltb_spec k (Z.of_nat n * w + w)); [reflexivity | lia].
    + rewrite andb_false_r. cbn [orb]. rewrite IH by lia.
      assert (Hmod : (k - w) mod w = k mod w).
      { replace k with ((k - w) + 1 * w) at 2 by lia.
        rewrite Z.mod_add by lia. reflexivity. }
      rewrite Hmod. f_equal.
      destruct (Z.ltb_spec (k - w) (Z.of_nat n * w));
        destruct (Z.ltb_spec k (Z.of_nat n * w + w)); try reflexivity; lia.
Qed.

End BitLanes.

Lemma elaborate_words_tile c cache g :
  construct c = Ok cache ->
  elaborate_geometry cache = Ok g ->
  words_tile g.
Proof.
  intros Hc Hg.
  destruct (construct_ok_shape c cache Hc)
    as (a & b & d & aw & gk & Ha & Hb & Haw & Hgk & Hgb & ->).
  destruct (elaborate_geometry_shape a b d aw gk Ha Hb ltac:(lia)) as (_ & _ & He).
  rewrite He in Hg. destruct (_ <? 0); [discriminate|].
  assert (Hq : 2 ^ d / 2 ^ b = 2 ^ (d - b)) by (rewrite Z.pow_sub_r by lia; reflexivity).
  injection Hg as <-. unfold words_tile, sel_len, words_per_line.
  cbn [granularity data_width port_width offset_bits].
  assert (Hs : 2 ^ b / 2 ^ gk = 2 ^ (b - gk)) by (rewrite Z.pow_sub_r by lia; reflexivity).
  rewrite Hq, Hs.
  split; [apply Z.pow_pos_nonneg; lia|].
  split; [apply Z.pow_pos_nonneg; lia|].
  split; [rewrite <- Z.pow_add_r by lia; f_equal; lia|].
  split; [apply Z.pow_pos_nonneg; lia|].
  split; [rewrite <- Z.pow_add_r by lia; f_equal; lia|].
  split; [lia | reflexivity].
Qed.

Section WriteHit.

Variable g : geometry.
Hypothesis Htile : words_tile g.
Hypothesis Hdepth : lines_in_depth g.

Lemma en_len_tile : en_len g = words_per_line g * sel_len g.
Proof.
  destruct Htile as (Hg & Hs & Hsg & Hw & Hwd & _).
  unfold en_len. rewrite <- Hwd, <- Hsg, Z.mul_assoc.
  apply Z.div_mul. lia.
Qed.

Lemma adr_offset_range a : 0 <= adr_offset g a < words_per_line g.
Proof.
  destruct Htile as (_ & _ & _ & _ & _ & Ho & Hpow).
  unfold adr_offset, slice. rewrite <- Hpow. apply trunc_range. assumption.
Qed.

(** The lane enables of a write to word [o]: lane [j] of word [o'] is
    enabled when [o' = o] and bit [j] of [sel] is set. *)
Lemma testbit_lane_enable sel_ o o' j :
  0 <= o < words_per_line g -> 0 <= o' < words_per_line g -> 0 <= j < sel_len g ->
  Z.testbit (trunc (en_len g) (Z.shiftl (trunc (sel_len g) sel_) (o * sel_len g)))
    (j + o' * sel_len g) =
  (o' =? o) && Z.testbit sel_ j.
Proof.
  intros Ho Ho' Hj.
  pose proof en_len_tile as Hen.
  destruct Htile as (Hg & Hs & _).
  rewrite testbit_trunc by (rewrite Hen; nia).
  rewrite Z.shiftl_spec by nia.
  rewrite testbit_trunc by lia.
  assert (Hlt : j + o' * sel_len g < en_len g) by (rewrite Hen; nia).
  destruct (Z.ltb_spec (j + o' * sel_len g) (en_len g)); [|lia].
  rewrite andb_true_r.
  destruct (Z.eqb_spec o' o) as [-> | Hne].
  - replace (j + o * sel_len g - o * sel_len g) with j by lia.
    destruct (Z.ltb_spec j (sel_len g)); [|lia]. rewrite andb_true_r. reflexivity.
  - cbn [andb].
    destruct (Z.ltb_spec o' o) as [Hlo | Hhi].
    + rewrite Z.testbit_neg_r by nia. reflexivity.
    + destruct (Z.ltb_spec (j + o' * sel_len g - o * sel_len g) (sel_len g)); [nia|].
      apply andb_false_r.
Qed.

(** The line stored by an acknowledged write, bit by bit. *)
Lemma write_hit_line_bits s i o' k :
  fsm s = CHECK -> ack (comb g s i) = true -> we i = true ->
  0 <= o' < words_per_line g -> 0 <= k < data_width g ->
  let line := adr_line g (intr_adr g i) in
  Z.testbit (dat_mem_read (dat_mem (step g s i)) line) (k + o' * data_width g) =
    if (o' =? adr_offset g (intr_adr g i)) && Z.testbit (sel i) (k / granularity g)
    then Z.testbit (dat_w i) k
    else Z.testbit (dat_mem_read (dat_mem s) line) (k + o' * data_width g).
Proof.
  intros Hf Hack Hwe Ho' Hk line.
  pose proof en_len_tile as Hen.
  pose proof (adr_offset_range (intr_adr g i)) as Ho.
  destruct Htile as (Hg & Hs & Hsg & Hw & Hwd & Hob & Hpow).
  assert (Hdw : 0 < data_width g) by nia.
  assert (Hkg : 0 <= k / granularity g < sel_len g).
  { split; [apply Z.div_pos; lia|]. apply Z.div_lt_upper_bound; nia. }
  assert (Hdiv : (k + o' * data_width g) / granularity g =
                 k / granularity g + o' * sel_len g).
  { rewrite <- Hsg, Z.mul_assoc. apply Z.div_add. lia. }
  assert (Hmod : (k + o' * data_width g) mod data_width g = k).
  { rewrite Z.mod_add by lia. apply Z.mod_small. lia. }
  assert (HK : 0 <= k + o' * data_width g < port_width g) by nia.
  unfold comb in Hack. rewrite Hf in Hack. cbn [comb_check ack] in Hack.
  unfold step, comb, dat_mem_next. rewrite Hf.
  cbn [dat_mem comb_check dat_wp_en dat_wp_addr dat_wp_data].
  rewrite Hack, Hwe, (adr_line_in_depth g _ Hdepth). cbn [andb negb].
  set (EN := trunc (en_len g) _). rewrite orb_false_r.
  assert (Hbit : Z.testbit EN ((k + o' * data_width g) / granularity g) =
                 (o' =? adr_offset g (intr_adr g i)) &&
                 Z.testbit (sel i) (k / granularity g)).
  { rewrite Hdiv. apply testbit_lane_enable; assumption. }
  destruct (Z.eqb_spec EN 0) as [H0 | Hne].
  - rewrite H0, Z.testbit_0_l in Hbit. rewrite <- Hbit. reflexivity.
  - fold line. rewrite dat_mem_read_insert.
    rewrite testbit_write_lanes by lia.
    rewrite Z2Nat.id by lia.
    assert (Hcov : en_len g * granularity g = port_width g) by nia.
    rewrite Hcov.
    destruct (Z.ltb_spec (k + o' * data_width g) (port_width g)); [|lia].
    cbn [andb]. rewrite Hbit.
    destruct ((o' =? adr_offset g (intr_adr g i)) &&
              Z.testbit (sel i) (k / granularity g)); [|reflexivity].
    rewrite testbit_trunc by lia.
    rewrite testbit_Repl by lia.
    rewrite Z2Nat.id by lia. rewrite Hmod.
    destruct (Z.ltb_spec (k + o' * data_width g) (words_per_line g * data_width g));
      [|lia].
    destruct (Z.ltb_spec (k + o' * data_width g) (port_width g)); [|lia].
    cbn [andb]. apply andb_true_r.
Qed.

(** The line and its TagStore entry after an acknowledged write. *)
Lemma write_hit_line (s : state) (i : inputs) :
  fsm s = CHECK -> ack (comb g s i) = true -> we i = true ->
  let line := adr_line g (intr_adr g i) in
  let o := adr_offset g (intr_adr g i) in
  let old := dat_mem_read (dat_mem s) line in
  let new := dat_mem_read (dat_mem (step g s i)) line in
  (forall k, 0 <= k < data_width g ->
     Z.testbit (word_select new o (data_width g)) k =
       if Z.testbit (sel i) (k / granularity g)
       then Z.testbit (dat_w i) k
       else Z.testbit (word_select old o (data_width g)) k) /\
  (forall o', 0 <= o' < words_per_line g -> o' <> o ->
     word_select new o' (data_width g) = word_select old o' (data_width g)) /\
  tag_mem_read (tag_mem (step g s i)) line =
    {| tag := adr_tag g (intr_adr g i); dirty := true |}.
Proof.
  intros Hf Hack Hwe line o old new.
  pose proof (adr_offset_range (intr_adr g i)) as Ho.
  assert (Hdw : 0 < data_width g) by (destruct Htile as (? & ? & ? & ? & ? & _); nia).
  split; [|split].
  - intros k Hk. rewrite !testbit_word_select by lia.
    unfold new, old, line, o.
    rewrite (write_hit_line_bits s i _ k Hf Hack Hwe Ho Hk).
    rewrite Z.eqb_refl. reflexivity.
  - intros o' Ho' Hne. apply Z.bits_inj'. intros k Hk.
    unfold word_select. rewrite !testbit_slice by lia.
    destruct (Z.ltb_spec k (data_width g)) as [Hlt | Hge];
      [|rewrite !andb_false_r; reflexivity].
    rewrite !andb_true_r. unfold new, old, line.
    rewrite (write_hit_line_bits s i o' k Hf Hack Hwe Ho' (conj Hk Hlt)).
    destruct (Z.eqb_spec o' (adr_offset g (intr_adr g i))); [contradiction|].
    reflexivity.
  - unfold comb in Hack. rewrite Hf in Hack. cbn [comb_check ack] in Hack.
    unfold line, step, comb, tag_mem_next. rewrite Hf.
    cbn [tag_mem comb_check tag_wp_en tag_wp_addr tag_wp_data].
    rewrite Hack, Hwe, (adr_line_in_depth g _ Hdepth). cbn [andb].
    apply tag_mem_read_insert.
Qed.


(** X10. On a cache that holds at least one line and whose lanes tile
    the word and words tile the line, an acknowledged write merges the
    selected byte lanes into the
    addressed word and nothing else of the line: in the word at the
    request's offset each bit is the one of [dat_w] where the [sel] bit
    of its lane is set and the stored one elsewhere, every other word
    of the line is as it was, and the line's TagStore entry is the
    request's tag with the dirty bit set. *)
Theorem write_hit_merges (s : state) (i : inputs) :
  fsm s = CHECK -> ack (comb g s i) = true -> we i = true ->
  let line := adr_line g (intr_adr g i) in
  let o := adr_offset g (intr_adr g i) in
  let old := dat_mem_read (dat_mem s) line in
  let new := dat_mem_read (dat_mem (step g s i)) line in
  (forall k, 0 <= k < data_width g ->
     Z.testbit (word_select new o (data_width g)) k =
       if Z.testbit (sel i) (k / granularity g)
       then Z.testbit (dat_w i) k
       else Z.testbit (word_select old o (data_width g)) k) /\
  (forall o', 0 <= o' < words_per_line g -> o' <> o ->
     word_select new o' (data_width g) = word_select old o' (data_width g)) /\
  tag_mem_read (tag_mem (step g s i)) line =
    {| tag := adr_tag g (intr_adr g i); dirty := true |}.
Proof. apply write_hit_line. Qed.

(** A write of all the lanes of a word stores [dat_w]. *)
Lemma write_hit_full_word s i :
  fsm s = CHECK -> ack (comb g s i) = true -> we i = true ->
  trunc (sel_len g) (sel i) = Z.ones (sel_len g) ->
  word_select (dat_mem_read (dat_mem (step g s i)) (adr_line g (intr_adr g i)))
    (adr_offset g (intr_adr g i)) (data_width g) =
  trunc (data_width g) (dat_w i).
Proof.
  intros Hf Hack Hwe Hsel.
  destruct (write_hit_line s i Hf Hack Hwe) as (Hbits & _).
  destruct Htile as (Hg & Hs & Hsg & _).
  assert (Hdw : 0 < data_width g) by nia.
  apply Z.bits_inj'. intros k Hk.
  rewrite testbit_trunc by lia.
  destruct (Z.ltb_spec k (data_width g)) as [Hlt | Hge].
  - rewrite (Hbits k (conj Hk Hlt)).
    assert (Hkg : 0 <= k / granularity g < sel_len g).
    { split; [apply Z.div_pos; lia|]. apply Z.div_lt_upper_bound; nia. }
    assert (Hb : Z.testbit (sel i) (k / granularity g) = true).
    { assert (Ht : Z.testbit (trunc (sel_len g) (sel i)) (k / granularity g) = true).
      { rewrite Hsel. rewrite Z.testbit_ones_nonneg by lia.
        destruct (Z.ltb_spec (k / granularity g) (sel_len g)); [reflexivity | lia]. }
      rewrite testbit_trunc in Ht by lia. apply andb_true_iff in Ht. tauto. }
    rewrite Hb. symmetry. apply andb_true_r.
  - unfold word_select. rewrite testbit_slice by lia.
    destruct (Z.ltb_spec k (data_width g)); [lia|]. rewrite !andb_false_r. reflexivity.
Qed.

(** A tick without request in CHECK. *)
Lemma check_idle s i :
  fsm s = CHECK -> request i = false ->
  ack (comb g s i) = false /\
  fsm (step g s i) = CHECK /\
  registered (step g s i) = false /\
  tag_mem (step g s i) = tag_mem s /\
  dat_mem (step g s i) = dat_mem s.
Proof.
  intros Hf Hreq.
  unfold step, comb, miss, registered, tag_mem_next, dat_mem_next. rewrite Hf.
  cbn [fsm intr_bus_r_cyc intr_bus_r_stb tag_mem dat_mem comb_check ack
       tag_wp_en dat_wp_en].
  rewrite Hreq. cbn [andb]. rewrite andb_false_r. cbn [Z.eqb].
  repeat split; try reflexivity. exact Hreq.
Qed.

(** X11. Read after write, on a cache that holds at least one line and
    whose lanes tile the word and words tile the line: after an
    acknowledged write of all the byte
    lanes of a word and a tick without request, a read of the same
    address is not acknowledged in its first tick and is acknowledged
    in its second with the data written. *)
Theorem write_then_read (s : state) (iw j ir : inputs) :
  fsm s = CHECK -> ack (comb g s iw) = true -> we iw = true ->
  trunc (sel_len g) (sel iw) = Z.ones (sel_len g) ->
  request j = false ->
  request ir = true ->
  intr_adr g ir = intr_adr g iw ->
  let s2 := step g (step g s iw) j in
  ack (comb g s2 ir) = false /\
  ack (comb g (step g s2 ir) ir) = true /\
  dat_r (comb g (step g s2 ir) ir) = trunc (data_width g) (dat_w iw).
Proof.
  intros Hf Hack Hwe Hsel Hj Hreq Hadr s2.
  destruct (write_hit_line s iw Hf Hack Hwe) as (_ & _ & Htag).
  pose proof (write_hit_full_word s iw Hf Hack Hwe Hsel) as Hword.
  destruct (check_after_ack g s iw Hf Hack) as (Hf1 & _).
  destruct (check_idle (step g s iw) j Hf1 Hj) as (_ & Hf2 & Hreg2 & Ht2 & Hd2).
  fold s2 in Hf2, Hreg2, Ht2, Hd2.
  destruct (check_probe g s2 ir Hf2 Hreg2 Hreq) as (Hna & Hf3 & Hreg3 & _ & Ht3 & Hd3 & _).
  destruct (check_judge g (step g s2 ir) ir Hf3 Hreg3 Hreq) as (Hja & Hjd & _).
  rewrite Ht3, Ht2, Hadr, Htag in Hja. rewrite Hd3, Hd2, Hadr, Hword in Hjd.
  split; [assumption|]. split; [|assumption].
  apply Hja. reflexivity.
Qed.

End WriteHit.

Lemma test_geometry_words_tile : words_tile test_geometry.
Proof. unfold words_tile. repeat apply conj; vm_compute; (reflexivity || discriminate). Qed.

(** The two theorems on the test bench: the write of 0xAA to address 0
    after reset leaves line 0 dirty with tag 0, and the read of
    address 0 after an idle tick returns 0xAA. *)
Lemma write_hit_merges_witness :
  let s := run test_geometry reset [write_req 0 0xAA] in
  tag_mem_read (tag_mem (step test_geometry s (write_req 0 0xAA))) 0 =
    {| tag := 0; dirty := true |}.
Proof.
  intros s.
  exact (proj2 (proj2 (write_hit_merges test_geometry test_geometry_words_tile
                         test_geometry_lines_in_depth
                         s (write_req 0 0xAA) eq_refl eq_refl eq_refl))).
Defined.

Lemma write_then_read_witness :
  let s := run test_geometry reset [write_req 0 0xAA] in
  let r := read_req 0 CLASSIC LINEAR in
  let s2 := step test_geometry (step test_geometry s (write_req 0 0xAA)) idle in
  dat_r (comb test_geometry (step test_geometry s2 r) r) = 0xAA.
Proof.
  intros s r s2.
  exact (proj2 (proj2 (write_then_read test_geometry test_geometry_words_tile
                         test_geometry_lines_in_depth
                         s (write_req 0 0xAA) idle r
                         eq_refl eq_refl eq_refl eq_refl eq_refl eq_refl eq_refl))).
Defined.

(** ** What reaches the backend *)

Lemma Cat_slices a ob lb tb :
  0 <= ob -> 0 <= lb -> 0 <= tb ->
  Cat lb (slice a ob lb) (slice a (ob + lb) tb) = slice a ob (lb + tb).
Proof.
  intros Hob Hlb Htb. apply Z.bits_inj'. intros k Hk.
  rewrite testbit_Cat by lia. rewrite (testbit_slice a ob lb) by lia.
  rewrite (testbit_slice a ob (lb + tb)) by lia.
  destruct (Z.ltb_spec k lb) as [Hlt | Hge].
  - rewrite (Z.testbit_neg_r _ (k - lb)) by lia.
    destruct (Z.ltb_spec k (lb + tb)); [|lia].
    now rewrite orb_false_r.
  - rewrite andb_false_r. cbn [orb]. rewrite testbit_slice by lia.
    replace (k - lb + (ob + lb)) with (k + ob) by lia. f_equal.
    destruct (Z.ltb_spec (k - lb) tb); destruct (Z.ltb_spec k (lb + tb));
      try reflexivity; lia.
Qed.

Lemma slice_top a ob w :
  0 <= ob -> 0 <= w -> 0 <= a < 2 ^ (ob + w) -> slice a ob w = Z.shiftr a ob.
Proof.
  intros Hob Hw Ha. unfold slice. apply trunc_small; [assumption|].
  rewrite Z.shiftr_div_pow2 by assumption.
  assert (Hp : 0 < 2 ^ ob) by (apply Z.pow_pos_nonneg; lia).
  split; [apply Z.div_pos; lia|].
  apply Z.div_lt_upper_bound; [assumption|].
  rewrite <- Z.pow_add_r by assumption. lia.
Qed.

Lemma write_lanes_range gran n en old new :
  0 < gran -> 0 <= write_lanes gran n en old new < 2 ^ (Z.of_nat n * gran).
Proof.
  intros Hg.
  assert (Hw : 0 <= Z.of_nat n * gran) by (apply Z.mul_nonneg_nonneg; lia).
  assert (Heq : trunc (Z.of_nat n * gran) (write_lanes gran n en old new) =
                write_lanes gran n en old new).
  { apply Z.bits_inj'. intros k Hk.
    rewrite testbit_trunc by assumption.
    rewrite testbit_write_lanes by assumption.
    destruct (Z.ltb_spec k (Z.of_nat n * gran)); [apply andb_true_r | reflexivity]. }
  rewrite <- Heq. apply trunc_range. assumption.
Qed.

Section Backend.

Variable g : geometry.
Hypothesis Hfields : fields_nonneg g.
Hypothesis Hlanes : lanes_cover g.

Lemma port_width_pos : 0 < port_width g.
Proof. destruct Hlanes as (Hg & He & <-). nia. Qed.

Lemma adr_tag_range a : 0 <= adr_tag g a < 2 ^ tag_bits g.
Proof.
  destruct Hfields as (_ & _ & Ht). unfold adr_tag, slice. now apply trunc_range.
Qed.

Lemma values_fit_step s i : values_fit g s -> values_fit g (step g s i).
Proof.
  intros (Hadr & Htrp & Htm & Hdrp & Hdm).
  pose proof port_width_pos as Hpw.
  assert (Hlen : 0 <= adr_len g) by (destruct Hfields as (? & ? & ?); unfold adr_len; lia).
  assert (Hadr' : 0 <= intr_bus_r_adr (step g s i) < 2 ^ adr_len g).
  { unfold step. destruct (fsm s); cbn [intr_bus_r_adr]; try assumption.
    unfold intr_adr. now apply trunc_range. }
  assert (Htrp' : 0 <= tag (tag_rp_data (step g s i)) < 2 ^ tag_bits g).
  { assert (Heq : tag_rp_data (step g s i) = tag_rp_next s (comb g s i))
      by (unfold step; destruct (fsm s); reflexivity).
    rewrite Heq. unfold tag_rp_next. destruct (tag_rp_en _); [apply Htm | assumption]. }
  assert (Hdrp' : 0 <= dat_rp_data (step g s i) < 2 ^ port_width g).
  { assert (Heq : dat_rp_data (step g s i) = dat_rp_next s (comb g s i))
      by (unfold step; destruct (fsm s); reflexivity).
    rewrite Heq. unfold dat_rp_next. destruct (dat_rp_en _); [apply Hdm | assumption]. }
  assert (Htm' : forall a, 0 <= tag (tag_mem_read (tag_mem (step g s i)) a)
                           < 2 ^ tag_bits g).
  { intros a.
    assert (Heq : tag_mem (step g s i) = tag_mem_next g s (comb g s i))
      by (unfold step; destruct (fsm s); reflexivity).
    rewrite Heq. unfold tag_mem_next. destruct (tag_wp_en _ && _); [|apply Htm].
    destruct (Z.eq_dec (tag_wp_addr (comb g s i)) a) as [<- | Hne].
    - rewrite tag_mem_read_insert. unfold comb.
      destruct (fsm s); cbn [comb_check comb_evict comb_refill tag_wp_data tag].
      + apply adr_tag_range.
      + destruct Hfields as (_ & _ & Ht). unfold tag_word_reset. cbn [tag].
        split; [lia | apply Z.pow_pos_nonneg; lia].
      + apply adr_tag_range.
    - rewrite tag_mem_read_insert_ne by assumption. apply Htm. }
  assert (Hdm' : forall a, 0 <= dat_mem_read (dat_mem (step g s i)) a
                           < 2 ^ port_width g).
  { intros a.
    assert (Heq : dat_mem (step g s i) = dat_mem_next g s (comb g s i))
      by (unfold step; destruct (fsm s); reflexivity).
    rewrite Heq. unfold dat_mem_next. destruct ((_ =? 0) || _); [apply Hdm|].
    destruct (Z.eq_dec (dat_wp_addr (comb g s i)) a) as [<- | Hne].
    - rewrite dat_mem_read_insert.
      destruct Hlanes as (Hg & He & Hcov).
      rewrite <- Hcov. rewrite <- (Z2Nat.id (en_len g)) at 3 by lia.
      apply write_lanes_range. assumption.
    - rewrite dat_mem_read_insert_ne by assumption. apply Hdm. }
  repeat split; first [apply Hadr' | apply Htrp' | apply Htm' | apply Hdrp' | apply Hdm'].
Qed.

Lemma values_fit_reachable s : reachable g s -> values_fit g s.
Proof.
  induction 1 as [| s i _ IH]; [|now apply values_fit_step].
  pose proof port_width_pos as Hpw.
  destruct Hfields as (Ho & Hl & Ht).
  assert (Hlen : 0 <= adr_len g) by (unfold adr_len; lia).
  assert (H1 : 0 < 2 ^ adr_len g) by (apply Z.pow_pos_nonneg; lia).
  assert (H2 : 0 < 2 ^ tag_bits g) by (apply Z.pow_pos_nonneg; lia).
  assert (H3 : 0 < 2 ^ port_width g) by (apply Z.pow_pos_nonneg; lia).
  unfold values_fit, reset, tag_mem_read, dat_mem_read, tag_word_reset.
  cbn [intr_bus_r_adr tag_rp_data tag_mem dat_rp_data dat_mem tag].
  split; [lia|]. split; [lia|].
  split; [intros a; rewrite lookup_empty; cbn [default tag]; lia|].
  split; [lia|].
  intros a. rewrite lookup_empty. cbn [default]. lia.
Qed.

Lemma Cat_range w lo hi k :
  0 <= w -> 0 <= k -> 0 <= lo < 2 ^ w -> 0 <= hi < 2 ^ k ->
  0 <= Cat w lo hi < 2 ^ (w + k).
Proof.
  intros Hw Hk Hlo Hhi. rewrite Cat_add by assumption.
  rewrite Z.pow_add_r by assumption. nia.
Qed.

(** X12. What the controller drives to the backend and to the front
    end fits the signals: in every state reached from reset the Command
    address is below [2 ^ (line_bits + tag_bits)], the port's address
    range, the write data is below [2 ^ port_width] and the read data
    returned is below [2 ^ data_width]. *)
Theorem backend_payloads_fit (s : state) (i : inputs) :
  reachable g s ->
  0 <= data_width g ->
  0 <= cmd_addr (comb g s i) < 2 ^ (line_bits g + tag_bits g) /\
  0 <= w_data (comb g s i) < 2 ^ port_width g /\
  0 <= dat_r (comb g s i) < 2 ^ data_width g.
Proof.
  intros Hreach Hdw.
  destruct (values_fit_reachable s Hreach) as (Hadr & Htrp & _ & Hdrp & _).
  pose proof port_width_pos as Hpw.
  destruct Hfields as (Ho & Hl & Ht).
  assert (H0 : 0 < 2 ^ (line_bits g + tag_bits g)) by (apply Z.pow_pos_nonneg; lia).
  assert (H1 : 0 < 2 ^ port_width g) by (apply Z.pow_pos_nonneg; lia).
  assert (H2 : 0 < 2 ^ data_width g) by (apply Z.pow_pos_nonneg; lia).
  assert (Hline : forall a, 0 <= adr_line g a < 2 ^ line_bits g)
    by (intros a; unfold adr_line, slice; now apply trunc_range).
  unfold comb. destruct (fsm s);
    cbn [comb_check comb_evict comb_refill cmd_addr w_data dat_r].
  - split; [lia|]. split; [lia|]. unfold word_select, slice. now apply trunc_range.
  - split; [|split; [assumption | lia]].
    apply Cat_range; auto.
  - split; [|split; lia].
    apply Cat_range; auto. apply adr_tag_range.
Qed.

(** The refill Command address is the missed address without its
    offset field. *)
Lemma refill_cmd_addr s i :
  fsm s = REFILL ->
  0 <= intr_bus_r_adr s < 2 ^ adr_len g ->
  cmd_addr (comb g s i) = Z.shiftr (intr_bus_r_adr s) (offset_bits g) /\
  cmd_we (comb g s i) = false.
Proof.
  intros Hf Hadr. destruct Hfields as (Ho & Hl & Ht).
  unfold comb. rewrite Hf. cbn [comb_refill cmd_addr cmd_we].
  split; [|reflexivity].
  unfold adr_line, adr_tag. rewrite Cat_slices by assumption.
  apply slice_top; try lia.
  unfold adr_len in Hadr. now rewrite Z.add_assoc.
Qed.

(** X13. A miss fetches the line of the address that missed: in every
    REFILL tick of the miss handling that follows a miss of the request
    [i], the Command is a read whose address is the request's address
    shifted right by the width of the offset field. *)
Theorem refill_address (s : state) (i : inputs) (l : list inputs) :
  fsm s = CHECK ->
  miss g s i = true ->
  Forall (fun t => fsm (fst t) <> CHECK) (ticks g (step g s i) l) ->
  Forall (fun t =>
            fsm (fst t) = REFILL ->
            cmd_addr (comb g (fst t) (snd t)) =
              Z.shiftr (intr_adr g i) (offset_bits g) /\
            cmd_we (comb g (fst t) (snd t)) = false)
    (ticks g (step g s i) l).
Proof.
  intros Hf Hmiss Hall.
  destruct (step_miss g s i Hf Hmiss) as (_ & _ & _ & _ & _ & Hadr & _).
  destruct (held_outside_check g l (step g s i) Hall) as (Hheld & _).
  assert (Hlen : 0 <= adr_len g) by (destruct Hfields as (? & ? & ?); unfold adr_len; lia).
  eapply List.Forall_impl; [|exact Hheld].
  intros t (_ & _ & Ha & _) Hft. rewrite Hadr in Ha.
  rewrite <- Ha. apply refill_cmd_addr; [assumption|].
  rewrite Ha. unfold intr_adr. now apply trunc_range.
Qed.

End Backend.

Section CleanLines.

Variable g : geometry.

Lemma evict_is_dirty s : reachable g s -> fsm s = EVICT -> dirty (tag_rp_data s) = true.
Proof.
  induction 1 as [| s i _ IH]; [discriminate|].
  destruct (fsm s) eqn:Hf.
  - destruct (miss g s i) eqn:Hm.
    + destruct (step_miss g s i Hf Hm) as (_ & _ & _ & _ & _ & _ & Ht & _).
      rewrite Ht. unfold step. rewrite Hf, Hm. cbn [fsm].
      destruct (dirty (tag_rp_data s)); [reflexivity | discriminate].
    + unfold step. rewrite Hf, Hm. cbn [fsm]. discriminate.
  - intros _. specialize (IH eq_refl).
    assert (Ht : tag_rp_data (step g s i) = tag_rp_data s).
    { unfold step, comb, tag_rp_next. rewrite Hf. reflexivity. }
    rewrite Ht. assumption.
  - unfold step. rewrite Hf. cbn [fsm].
    destruct (refill_done_cmd s && refill_done_r s); discriminate.
Qed.

(** X14. The backend is offered a write only in EVICT, and EVICT is
    only entered and held with a dirty entry on the TagStore read port:
    in every state reached from reset, a tick that offers the backend a
    write Command or a WriteBeat is a tick of EVICT in which the entry
    on the TagStore read port, whose tag forms the Command address, has
    its dirty bit set. The entry on the read port need not be the stored
    entry of the line that is written back. *)
Theorem write_back_needs_dirty_port (s : state) (i : inputs) :
  reachable g s ->
  cmd_valid (comb g s i) && cmd_we (comb g s i) || w_valid (comb g s i) = true ->
  fsm s = EVICT /\ dirty (tag_rp_data s) = true.
Proof.
  intros Hreach Hv.
  assert (Hf : fsm s = EVICT).
  { unfold comb in Hv. destruct (fsm s);
      cbn [comb_check comb_evict comb_refill cmd_valid cmd_we w_valid] in Hv.
    - discriminate.
    - reflexivity.
    - rewrite andb_false_r in Hv. discriminate. }
  split; [assumption | now apply evict_is_dirty].
Qed.

End CleanLines.

(** The three theorems on the dirty miss of the test bench: in the
    first tick of EVICT the Command address is 0, the address line 0
    was written under; the refill that follows the clean miss of
    address 4 reads backend address 2; the eviction has the dirty bit
    set on the read port. *)
Lemma backend_payloads_fit_witness :
  let s := run test_geometry reset (dirty_miss_run ++ [read_4]) in
  0 <= cmd_addr (comb test_geometry s read_4) < 2 ^ 23.
Proof.
  intros s.
  refine (proj1 (backend_payloads_fit test_geometry _ _ s read_4 _ _)).
  - unfold fields_nonneg. simpl. lia.
  - vm_compute. repeat split.
  - apply reachable_from_reset.
  - simpl. lia.
Defined.

Lemma refill_address_witness :
  let s := run test_geometry reset [read_4] in
  let i := with_backend read_4 true false true 0xCAFE in
  cmd_addr (comb test_geometry (step test_geometry s read_4) i) = 2.
Proof.
  intros s i.
  assert (Hall : Forall (fun t => fsm (fst t) <> CHECK)
                   (ticks test_geometry (step test_geometry s read_4) [i])).
  { vm_compute. repeat constructor. discriminate. }
  assert (Hfields : fields_nonneg test_geometry) by (unfold fields_nonneg; simpl; lia).
  pose proof (refill_address test_geometry Hfields s read_4 [i] eq_refl eq_refl Hall)
    as Hthm.
  apply Forall_inv in Hthm. exact (proj1 (Hthm eq_refl)).
Defined.

Lemma write_back_needs_dirty_port_witness :
  let s := run test_geometry reset (dirty_miss_run ++ [read_4]) in
  fsm s = EVICT /\ dirty (tag_rp_data s) = true.
Proof.
  intros s.
  apply (write_back_needs_dirty_port test_geometry s read_4).
  - apply reachable_from_reset.
  - reflexivity.
Defined.

(** ** The geometry of a constructed cache *)

(** X15. For every cache the two constructors accept, [elaborate]
    either raises the [TypeError] of [Record], which it does exactly
    when the line field is wider than the backend address, or computes
    a geometry the controller's data path relies on: the byte lanes of a
    word cover it, [ratio] words cover the line and the offset field
    counts them, the write port's lanes cover the line, no field has a
    negative width, the line and tag fields together are as wide as the
    backend Command address, and the depth of the memories,
    [nb_lines], is either [2 ^ line_bits], every line index naming a
    cell, or zero with an empty line field, the cache being smaller
    than one line. *)
Theorem constructed_geometry_tiles (c : configuration) (cache : WritebackCache) :
  construct c = Ok cache ->
  match elaborate_geometry cache with
  | Ok g =>
      words_tile g /\ lanes_cover g /\ fields_nonneg g /\
      line_bits g + tag_bits g = port_addr_width (dram_port cache) /\
      depth g = nb_lines cache /\
      (lines_in_depth g /\ depth g = 2 ^ line_bits g \/
       depth g = 0 /\ line_bits g = 0) /\
      Z.log2 (nb_lines cache) <= port_addr_width (dram_port cache)
  | Raise e =>
      e = RecordShapeError /\
      port_addr_width (dram_port cache) < Z.log2 (nb_lines cache)
  end.
Proof.
  intros Hc.
  destruct (elaborate_geometry cache) as [g | e] eqn:Hg.
  - pose proof (elaborate_words_tile c cache g Hc Hg) as Htile.
    pose proof (elaborate_lanes_cover c cache g Hc Hg) as Hlanes.
    pose proof (elaborate_cmd_addr_width c cache g Hc Hg) as Hsum.
    destruct (construct_ok_shape c cache Hc)
      as (a & b & d & aw & gk & Ha & Hb & Haw & Hgk & _ & ->).
    destruct (elaborate_geometry_shape a b d aw gk Ha Hb ltac:(lia)) as (_ & Hn & He).
    rewrite He in Hg. rewrite Hn.
    destruct (Z.ltb_spec (aw - (if d <=? a + gk then a + gk - d else 0)) 0) as [|Ht];
      [discriminate|].
    injection Hg as <-.
    split; [assumption|]. split; [assumption|].
    cbn [line_bits tag_bits depth offset_bits dram_port port_addr_width] in *.
    unfold fields_nonneg, lines_in_depth.
    cbn [line_bits tag_bits depth offset_bits].
    destruct (Z.leb_spec d (a + gk)) as [Hle | Hlt].
    + rewrite Z.log2_pow2 by lia.
      split; [lia|]. split; [lia|]. split; [reflexivity|].
      split; [|lia]. left. split; [|reflexivity]. split; lia.
    + split; [lia|]. split; [lia|]. split; [reflexivity|].
      split; [|simpl; lia]. right. split; reflexivity.
  - destruct (construct_ok_shape c cache Hc)
      as (a & b & d & aw & gk & Ha & Hb & Haw & Hgk & _ & ->).
    destruct (elaborate_geometry_shape a b d aw gk Ha Hb ltac:(lia)) as (_ & Hn & He).
    rewrite He in Hg. rewrite Hn.
    cbn [dram_port port_addr_width].
    destruct (Z.ltb_spec (aw - (if d <=? a + gk then a + gk - d else 0)) 0) as [Ht|];
      [|discriminate].
    injection Hg as <-. split; [reflexivity|].
    destruct (Z.leb_spec d (a + gk)); [rewrite Z.log2_pow2 by lia; lia | simpl; lia].
Qed.

(** The theorem on the test bench configuration, on the cache of one
    byte and on the cache of 1024 bytes with a one-bit backend
    address. *)
Lemma constructed_geometry_tiles_witness :
  (words_tile test_geometry /\ lanes_cover test_geometry /\
   lines_in_depth test_geometry) /\
  depth zero_line_geometry = 0 /\
  (exists cache, construct wide_configuration = Ok cache /\
                 port_addr_width (dram_port cache) < Z.log2 (nb_lines cache)).
Proof.
  split; [|split].
  - pose proof (constructed_geometry_tiles test_configuration _ eq_refl) as H.
    change (elaborate_geometry _) with (Ok test_geometry) in H.
    destruct H as (Ht & Hl & _ & _ & _ & [[Hd _] | [Hd _]] & _).
    + split; [assumption|]. split; assumption.
    + vm_compute in Hd. discriminate.
  - reflexivity.
  - eexists. split; [reflexivity|].
    pose proof (constructed_geometry_tiles wide_configuration _ eq_refl) as H.
    change (elaborate_geometry _) with (@Raise geometry RecordShapeError) in H.
    exact (proj2 H).
Defined.

(** ** The test bench's bursts *)

(** X16. The burst the formal test bench assumes is the controller's
    lookahead without the wrap: for [len]-bit addresses and a burst
    window inside the address, the test bench's assumption on the
    address of the beat after an acknowledged incrementing beat holds
    exactly when the address is [intr_adr_next] of the previous one and
    the incremented bits did not overflow; a beat that wraps satisfies
    no assumption. *)
Theorem harness_burst_is_lookahead (len : Z) (b : BurstTypeExt) (past a : Z) :
  0 <= past < 2 ^ len ->
  0 <= a < 2 ^ len ->
  window_fits len b ->
  (harness_burst_assume len b past a = true <->
   a = intr_adr_next_at len b past /\ burst_in_window len b past).
Proof.
  intros Hp Ha Hfit.
  unfold harness_burst_assume, intr_adr_next_at, burst_in_window, window_fits in *.
  destruct (wrap_bits b) as [k|] eqn:Hk.
  - apply wrap_bits_range in Hk.
    rewrite Z.min_l by lia.
    assert (Hpk : 0 < 2 ^ k) by (apply Z.pow_pos_nonneg; lia).
    assert (Hpl : 0 < 2 ^ (len - k)) by (apply Z.pow_pos_nonneg; lia).
    assert (Hsplit : 2 ^ len = 2 ^ k * 2 ^ (len - k)).
    { rewrite <- Z.pow_add_r by lia. f_equal. lia. }
    rewrite Cat_add; [| lia | apply trunc_range; lia].
    rewrite trunc_mod by lia.
    rewrite !slice_div_mod by lia.
    rewrite !Z.pow_0_r, !Z.div_1_r.
    assert (Hhi : forall x, 0 <= x < 2 ^ len -> (x / 2 ^ k) mod 2 ^ (len - k) = x / 2 ^ k).
    { intros x Hx. apply Z.mod_small. split; [apply Z.div_pos; lia|].
      apply Z.div_lt_upper_bound; lia. }
    rewrite !Hhi by assumption.
    pose proof (Z.mod_pos_bound past (2 ^ k) Hpk) as Hpm.
    pose proof (Z.mod_pos_bound a (2 ^ k) Hpk) as Ham.
    pose proof (Z.div_mod past (2 ^ k) ltac:(lia)) as Hpd.
    pose proof (Z.div_mod a (2 ^ k) ltac:(lia)) as Had.
    rewrite andb_true_iff, !Z.eqb_eq.
    split.
    + intros [Hlo Hhigh].
      assert (Hin : past mod 2 ^ k + 1 < 2 ^ k) by lia.
      split; [|assumption].
      rewrite (Z.mod_small (past mod 2 ^ k + 1)) by lia.
      rewrite <- Hlo, <- Hhigh. lia.
    + intros [Heq Hin].
      rewrite (Z.mod_small (past mod 2 ^ k + 1)) in Heq by lia.
      assert (Hq : a / 2 ^ k = past / 2 ^ k).
      { symmetry. apply (Z.div_unique a (2 ^ k) (past / 2 ^ k) (past mod 2 ^ k + 1)); lia. }
      assert (Hr : a mod 2 ^ k = past mod 2 ^ k + 1).
      { symmetry. apply (Z.mod_unique a (2 ^ k) (past / 2 ^ k) (past mod 2 ^ k + 1)); lia. }
      split; assumption.
  - rewrite Z.eqb_eq. rewrite trunc_mod by lia.
    split.
    + intros ->. split; [|lia]. symmetry. apply Z.mod_small. lia.
    + intros [Heq Hin]. rewrite Z.mod_small in Heq by lia. assumption.
Qed.

(** The theorem on the 24-bit bus of the test bench: after address 2
    the WRAP_4 burst is assumed to continue at 3, and after 3 the
    address 0, at which the controller looks ahead, does not satisfy
    the assumption. *)
Lemma harness_burst_is_lookahead_witness :
  harness_burst_assume 24 WRAP_4 2 3 = true /\
  harness_burst_assume 24 WRAP_4 3 0 = false /\
  intr_adr_next_at 24 WRAP_4 3 = 0.
Proof.
  split; [|split].
  - apply (harness_burst_is_lookahead 24 WRAP_4 2 3);
      [split; [discriminate | reflexivity] | split; [discriminate | reflexivity]
      | vm_compute; discriminate |].
    split; [reflexivity | reflexivity].
  - destruct (harness_burst_assume 24 WRAP_4 3 0) eqn:He; [|reflexivity].
    apply (harness_burst_is_lookahead 24 WRAP_4 3 0) in He;
      [| split; [discriminate | reflexivity] | split; [discriminate | reflexivity]
       | vm_compute; discriminate].
    destruct He as [_ Hin]. vm_compute in Hin. discriminate.
  - reflexivity.
Defined.

(** ** Cells and depth *)

Section Depth.

Variable g : geometry.

(** The memories of a state reached from reset hold no cell outside
    their depth, so that a read there gives zero. *)
Lemma stores_within_depth s a :
  reachable g s ->
  in_depth g a = false ->
  tag_mem s !! a = None /\ dat_mem s !! a = None.
Proof.
  intros Hreach Ha. induction Hreach as [| s i _ [IHt IHd]].
  - split; apply lookup_empty.
  - assert (Hmem : tag_mem (step g s i) = tag_mem_next g s (comb g s i) /\
                   dat_mem (step g s i) = dat_mem_next g s (comb g s i)).
    { unfold step. destruct (fsm s); split; reflexivity. }
    destruct Hmem as [-> ->]. unfold tag_mem_next, dat_mem_next. split.
    + destruct (tag_wp_en _ && in_depth g (tag_wp_addr _)) eqn:He; [|assumption].
      apply andb_true_iff in He as [_ He].
      rewrite lookup_insert_ne; [assumption | congruence].
    + destruct ((_ =? 0) || negb (in_depth g (dat_wp_addr _))) eqn:He; [assumption|].
      apply orb_false_iff in He as [_ He]. apply negb_false_iff in He.
      rewrite lookup_insert_ne; [assumption | congruence].
Qed.

End Depth.

(** ** A cache without lines *)

Section NoLines.

Variable g : geometry.
Hypothesis Hzero : depth g <= 0.

Lemma in_depth_none a : in_depth g a = false.
Proof.
  unfold in_depth. destruct (Z.leb_spec 0 a); [|reflexivity].
  destruct (Z.ltb_spec a (depth g)); [lia | reflexivity].
Qed.

Lemma no_lines_step_stores s i :
  tag_mem (step g s i) = tag_mem s /\ dat_mem (step g s i) = dat_mem s.
Proof.
  assert (Hmem : tag_mem (step g s i) = tag_mem_next g s (comb g s i) /\
                 dat_mem (step g s i) = dat_mem_next g s (comb g s i)).
  { unfold step. destruct (fsm s); split; reflexivity. }
  destruct Hmem as [-> ->].
  unfold tag_mem_next, dat_mem_next. rewrite !in_depth_none.
  rewrite andb_false_r, orb_true_r. split; reflexivity.
Qed.

(** Nothing is ever stored, read or written back. *)
Definition no_lines_invariant (s : state) : Prop :=
  tag_mem s = ∅ /\ dat_mem s = ∅ /\
  tag_rp_data s = tag_word_reset /\ dat_rp_data s = 0 /\
  fsm s <> EVICT.

Lemma no_lines_invariant_step s i :
  no_lines_invariant s -> no_lines_invariant (step g s i).
Proof.
  intros (Htm & Hdm & Htp & Hdp & Hf).
  destruct (no_lines_step_stores s i) as [Ht Hd].
  assert (Hports : tag_rp_data (step g s i) = tag_rp_next s (comb g s i) /\
                   dat_rp_data (step g s i) = dat_rp_next s (comb g s i)).
  { unfold step. destruct (fsm s); split; reflexivity. }
  destruct Hports as [Hp1 Hp2].
  unfold no_lines_invariant. rewrite Ht, Hd, Hp1, Hp2.
  unfold tag_rp_next, dat_rp_next, tag_mem_read, dat_mem_read.
  rewrite Htm, Hdm, Htp, Hdp, !lookup_empty. cbn [default].
  split; [reflexivity|]. split; [reflexivity|].
  split; [destruct (tag_rp_en _); reflexivity|].
  split; [destruct (dat_rp_en _); reflexivity|].
  unfold step. destruct (fsm s) eqn:Hfs; cbn [fsm].
  - rewrite Htp. cbn [dirty tag_word_reset].
    destruct (miss g s i); discriminate.
  - congruence.
  - destruct (refill_done_cmd s && refill_done_r s); discriminate.
Qed.

Lemma no_lines_reachable s : reachable g s -> no_lines_invariant s.
Proof.
  induction 1 as [| s i _ IH]; [|now apply no_lines_invariant_step].
  unfold no_lines_invariant, reset. cbn [tag_mem dat_mem tag_rp_data dat_rp_data fsm].
  repeat split; discriminate.
Qed.

(** X18. A cache smaller than one line stores nothing. When the
    memories have depth zero, in every state reached from reset the
    TagStore and the DataStore are empty and both read ports hold zero;
    the read data returned is zero, a request is acknowledged only if
    its tag is zero, no line is ever written back, and a refill leaves
    the memories as they were. *)
Theorem no_lines_no_store (s : state) (i : inputs) :
  reachable g s ->
  tag_mem s = ∅ /\ dat_mem s = ∅ /\
  tag_rp_data s = tag_word_reset /\ dat_rp_data s = 0 /\
  dat_r (comb g s i) = 0 /\
  (ack (comb g s i) = true -> adr_tag g (intr_adr g i) = 0) /\
  fsm s <> EVICT /\
  tag_mem (step g s i) = tag_mem s /\ dat_mem (step g s i) = dat_mem s.
Proof.
  intros Hreach.
  destruct (no_lines_reachable s Hreach) as (Htm & Hdm & Htp & Hdp & Hf).
  do 4 (split; [assumption|]).
  split; [|split; [|split; [assumption | apply no_lines_step_stores]]].
  - unfold comb. destruct (fsm s); cbn [comb_check comb_evict comb_refill dat_r];
      try reflexivity.
    rewrite Hdp. unfold word_select, slice, trunc.
    rewrite Z.shiftr_0_l. apply Z.land_0_l.
  - unfold comb. destruct (fsm s); cbn [comb_check comb_evict comb_refill ack];
      try discriminate.
    unfold tag_match. rewrite Htp. cbn [tag tag_word_reset].
    intros Hack. apply andb_true_iff in Hack as [Hack _].
    apply andb_true_iff in Hack as [_ Hack]. now apply Z.eqb_eq.
Qed.

End NoLines.

(** The theorem on the cache of one byte after the refill of address 2:
    the memories are empty and the read is answered with neither an
    acknowledge nor data. *)
Lemma no_lines_no_store_witness :
  let s := run zero_line_geometry reset (zero_line_refill_run ++ [read_2; read_2]) in
  tag_mem s = ∅ /\ dat_mem s = ∅ /\ dat_r (comb zero_line_geometry s read_2) = 0.
Proof.
  intros s.
  destruct (no_lines_no_store zero_line_geometry) with (s := s) (i := read_2)
    as (Ht & Hd & _ & _ & Hr & _).
  - vm_compute. discriminate.
  - apply reachable_from_reset.
  - split; [exact Ht|]. split; [exact Hd | exact Hr].
Defined.
